(** * Grid-Based Numbering: a shallow embedding of [script.py]

    The script runs inside a BIM host.  It (a) tags every selected element
    with the name of the nearest grid intersection and (b) numbers the
    selected elements by distance from a start element picked by the user.

    The host's object model (document, elements, parameters, bindings,
    transactions, dialogs) is represented by explicit state; the host's
    geometry kernel ([DistanceTo], [Intersect], [Evaluate]) is kept abstract:
    every definition and theorem is parametric in it.

    What is taken from the host, not from the script:
    - distances and coordinates are finite numbers (no NaN, no infinity);
    - only a line has a [Direction]: reading [curve.Direction] of a grid
      whose curve is an arc raises [AttributeError];
    - [LookupParameter] returns the first parameter of that name, a
      parameter of the element's own before one a binding gave it, and
      [Parameter.Set] writes it; the document can only change while a
      transaction is open, and a transaction left open when the script
      stops is rolled back;
    - [BindingMap.Insert] does nothing for a definition already bound,
      [ReInsert] replaces the binding stored under a definition; an
      instance binding gives every element of its categories the parameter,
      without a value and writable, so an element can gain parameters when
      a binding is inserted, and keeps all it had;
    - an exception is known by its repr, which is what the script shows of
      it;
    - [PickObject] returns the first element the user clicks that the
      selection filter allows, and raises when the user gives up;
    - an empty shared parameter file opens as a file without groups. *)

From Stdlib Require Import QArith Qabs.
From stdpp Require Import base gmap sets list strings pretty sorting.

Close Scope Q_scope.

(** ** Numbers

    Host coordinates and distances are doubles; every finite double is a
    rational, so they are carried as [Q].  [float("inf")] is the extra
    point [Inf]. *)

Inductive Float := Finite (q : Q) | Inf.

Definition Qlt_bool (x y : Q) : bool := negb (Qle_bool y x).

(** [a < b] on Python floats, with [b] possibly infinite. *)
Definition float_lt (a : Q) (b : Float) : bool :=
  match b with
  | Finite q => Qlt_bool a q
  | Inf => true
  end.

(** [str(n)] for a non-negative Python int. *)
Definition str (n : nat) : string := pretty n.

(** ** Geometry *)

Record XYZ := mkXYZ { X : Q; Y : Q; Zcoord : Q }.

(** The curve of a straight grid, as the script uses it: origin and
    [Direction].  Grids whose curve has no [Direction] are kept apart, see
    [curved_grids]. *)
Record Curve := mkCurve { Origin : XYZ; Direction : XYZ }.

Inductive SetComparisonResult :=
  | Overlap | Subset | Superset | Disjoint | Equal
  | LeftEmpty | RightEmpty | BothEmpty.

Global Instance SetComparisonResult_eq_dec : EqDecision SetComparisonResult.
Proof. solve_decision. Defined.

(** ** Categories, elements and parameters *)

Record Category := mkCategory { cat_Id : Z; AllowsBoundParameters : bool }.

Global Instance Category_eq_dec : EqDecision Category.
Proof. solve_decision. Defined.

Global Program Instance Category_countable : Countable Category :=
  inj_countable' (λ c, (cat_Id c, AllowsBoundParameters c))
                 (λ p, mkCategory p.1 p.2) _.
Next Obligation. by intros []. Qed.

Abbreviation CategorySet := (gset Category).

Abbreviation ElementId := Z.

Inductive LocationKind :=
  | LocationPoint (Point : XYZ)
  | LocationCurve (c : Curve)
  | LocationOther.

(** An element parameter as [LookupParameter] returns it. *)
Record Param := mkParam {
  param_Name : string;
  IsReadOnly : bool;
  AsString : string
}.

Record Element := mkElement {
  elem_Category : option Category;
  Location : option LocationKind;
  elem_Parameters : list Param
}.

Definition has_param_name (name : string) (p : Param) : bool :=
  bool_decide (param_Name p = name).

(** [elem.LookupParameter(name)]: the first parameter of that name. *)
Definition LookupParameter (name : string) (e : Element) : option Param :=
  find (has_param_name name) (elem_Parameters e).

Record Grid := mkGrid { grid_Id : ElementId; grid_Name : string; grid_Curve : Curve }.

(** ** Parameter definitions and bindings *)

Inductive SpecType :=
  | ParameterType_Text          (* hosts before 2023 *)
  | SpecTypeId_String_Text      (* hosts from 2023 on *)
  | OtherSpec (n : nat).        (* any other storage: integer, length, ... *)

Global Instance SpecType_eq_dec : EqDecision SpecType.
Proof. solve_decision. Defined.

Definition is_text (s : SpecType) : bool :=
  match s with
  | ParameterType_Text | SpecTypeId_String_Text => true
  | OtherSpec _ => false
  end.

Record ParamDefinition := mkDefinition { def_Name : string; def_Type : SpecType }.

Global Instance ParamDefinition_eq_dec : EqDecision ParamDefinition.
Proof. solve_decision. Defined.

Inductive BindingKind := InstanceBinding | TypeBinding.

Record Binding := mkBinding { binding_Kind : BindingKind; Categories : CategorySet }.

Inductive BuiltInParameterGroup := PG_DATA | PG_OTHER (n : nat).

(** What the host does to an element when [definition] is bound by
    [binding]: under an instance binding, an element of one of the bound
    categories gets the parameter, without a value and writable; its other
    parameters come first and stay.  An element that has a parameter of
    that name already is left as it is: [LookupParameter] would go on
    returning the one it had. *)
Definition give_parameter (definition : ParamDefinition) (binding : Binding)
    (e : Element) : Element :=
  match binding_Kind binding, elem_Category e with
  | InstanceBinding, Some c =>
      if bool_decide (c ∈ Categories binding)
         && negb (bool_decide (is_Some (LookupParameter (def_Name definition) e)))
      then mkElement (elem_Category e) (Location e)
                     (elem_Parameters e ++ [mkParam (def_Name definition) false ""])
      else e
  | _, _ => e
  end.

(** The binding map in the order its [ForwardIterator] visits it. *)
Abbreviation BindingMap := (list (ParamDefinition * (Binding * BuiltInParameterGroup))).

(** [bindingMap.Insert(key, binding, group)]: no effect when the key is
    already bound. *)
Definition BindingMap_Insert (key : ParamDefinition) (b : Binding)
    (group : BuiltInParameterGroup) (m : BindingMap) : BindingMap :=
  if bool_decide (key ∈ m.*1) then m else m ++ [(key, (b, group))].

(** [bindingMap.ReInsert(key, binding)]: replaces the binding stored under
    [key]; the entry keeps its group. *)
Definition BindingMap_ReInsert (key : ParamDefinition) (b : Binding)
    (m : BindingMap) : BindingMap :=
  (λ e, if bool_decide (e.1 = key) then (e.1, (b, e.2.2)) else e) <$> m.

(** ** The shared parameter file *)

Record DefinitionGroup := mkGroup { group_Name : string; Definitions : list ParamDefinition }.

Abbreviation DefinitionFile := (list DefinitionGroup).

Record Application := mkApplication {
  SharedParametersFilename : string;
  filesystem : gmap string DefinitionFile;
  tempdir : string;
  tempdir_writable : bool;
  open_error : string;     (* repr of the exception [open] raises when the
                              temp folder cannot be written *)
  revitVersion : Z
}.

(** [app.OpenSharedParameterFile()]: [None] when no file is configured or
    the configured file is missing. *)
Definition OpenSharedParameterFile (a : Application) : option DefinitionFile :=
  filesystem a !! SharedParametersFilename a.

Definition path_join (dir file : string) : string := dir +:+ "/" +:+ file.

(** ** Document, user interface and the world of a run *)

(** [FilteredElementCollector(doc).OfCategory(OST_Grids)] is carried in two
    parts: the grids whose curve is a line, in the collector's order, and the
    ids of the other grids (arcs), whose curve has no [Direction]. *)
Record Document := mkDocument {
  doc_elements : gmap ElementId Element;
  ParameterBindings : BindingMap;
  Grids : list Grid;
  curved_grids : list ElementId
}.

(** [doc.ParameterBindings.Insert(key, binding, group)] and
    [doc.ParameterBindings.ReInsert(key, binding)] with what they do to the
    elements. *)
Definition ParameterBindings_Insert (key : ParamDefinition) (b : Binding)
    (group : BuiltInParameterGroup) (d : Document) : Document :=
  mkDocument (if bool_decide (key ∈ (ParameterBindings d).*1) then doc_elements d
              else give_parameter key b <$> doc_elements d)
             (BindingMap_Insert key b group (ParameterBindings d))
             (Grids d) (curved_grids d).

Definition ParameterBindings_ReInsert (key : ParamDefinition) (b : Binding)
    (d : Document) : Document :=
  mkDocument (if bool_decide (key ∈ (ParameterBindings d).*1)
              then give_parameter key b <$> doc_elements d
              else doc_elements d)
             (BindingMap_ReInsert key b (ParameterBindings d))
             (Grids d) (curved_grids d).

Record UIDocument := mkUIDocument {
  Selection : list ElementId;   (* uidoc.Selection.GetElementIds() *)
  clicks : list ElementId       (* what the user clicks on while PickObject
                                   waits; running out of clicks is Esc *)
}.

Inductive TxStatus := Committed | RolledBack.

Global Instance TxStatus_eq_dec : EqDecision TxStatus.
Proof. solve_decision. Defined.

(** Calls into the host that the proofs need to see, in the order the
    script makes them. *)
Inductive HostCall :=
  | Call_Set (elem : ElementId) (name value : string)   (* param.Set(value) *)
  | Call_Intersect (v h : Grid)                          (* v.Curve.Intersect(h.Curve, _) *)
  | Call_DistanceTo (p q : XYZ)                          (* p.DistanceTo(q) *)
  | Call_Start (name : string)                           (* t.Start() *)
  | Call_Commit (name : string)                          (* t.Commit() *)
  | Call_RollBack (name : string).                       (* t.RollBack() *)

Record World := mkWorld {
  doc : Document;
  app : Application;
  uidoc : UIDocument;
  alerts : list string;                      (* forms.alert calls, oldest first *)
  active : option (string * Document);       (* open transaction: name, snapshot at Start *)
  transactions : list (string * TxStatus);   (* finished transactions, oldest first *)
  calls : list HostCall                      (* oldest first *)
}.

Definition with_doc (d : Document) (w : World) : World :=
  mkWorld d (app w) (uidoc w) (alerts w) (active w) (transactions w) (calls w).
Definition with_app (a : Application) (w : World) : World :=
  mkWorld (doc w) a (uidoc w) (alerts w) (active w) (transactions w) (calls w).
Definition log_call (c : HostCall) (w : World) : World :=
  mkWorld (doc w) (app w) (uidoc w) (alerts w) (active w) (transactions w) (calls w ++ [c]).

(** ** Script monad: state, [sys.exit] and uncaught exceptions *)

Inductive Result (A : Type) :=
  | Done (a : A) (w : World)
  | Exited (w : World)      (* forms.alert(..., exitscript=True) *)
  | Raised (e : string) (w : World).   (* the exception with repr [e] is
                                          propagating *)
Arguments Done {A} a w.
Arguments Exited {A} w.
Arguments Raised {A} e w.

Definition Script (A : Type) := World → Result A.

Definition ret {A} (a : A) : Script A := λ w, Done a w.
Definition bind {A B} (m : Script A) (k : A → Script B) : Script B :=
  λ w, match m w with
       | Done a w' => k a w'
       | Exited w' => Exited w'
       | Raised e w' => Raised e w'
       end.
Definition raise {A} (e : string) : Script A := λ w, Raised e w.
Definition get : Script World := λ w, Done w w.
Definition modify (f : World → World) : Script unit := λ w, Done tt (f w).

Global Instance Script_ret : MRet Script := @ret.
Global Instance Script_bind : MBind Script := λ A B k m, bind m k.

(** [try: body except Exception: handler]; [SystemExit] is not an
    [Exception] and passes through. *)
Definition try_except {A} (body : Script A) (handler : string → Script A)
    : Script A :=
  λ w, match body w with
       | Raised e w' => handler e w'
       | r => r
       end.

(** The exceptions of the host and of Python that the script can meet, by
    their repr. *)
Definition AttributeError : string := "AttributeError()".
Definition InvalidOperationException : string := "InvalidOperationException()".
Definition OperationCanceledException : string := "OperationCanceledException()".
Definition IndexError : string := "IndexError()".

(** A [for] loop whose body updates local variables [s]. *)
Fixpoint for_each {A S} (l : list A) (body : S → A → Script S) (s : S) : Script S :=
  match l with
  | [] => mret s
  | x :: l' => s' ← body s x; for_each l' body s'
  end.

Definition newline : string := String (Ascii.ascii_of_nat 10) "".

(** [forms.alert(msg, exitscript)] *)
Definition alert (msg : string) (exitscript : bool) : Script unit :=
  λ w, let w' := mkWorld (doc w) (app w) (uidoc w) (alerts w ++ [msg])
                         (active w) (transactions w) (calls w) in
       if exitscript then Exited w' else Done tt w'.

(** *** Transactions

    The host refuses nested transactions, and refuses changes to the
    document while no transaction is open. *)

Definition Transaction_Start (name : string) : Script unit :=
  λ w, match active w with
       | Some _ => Raised InvalidOperationException w
       | None => Done tt (mkWorld (doc w) (app w) (uidoc w) (alerts w)
                            (Some (name, doc w)) (transactions w)
                            (calls w ++ [Call_Start name]))
       end.

Definition Transaction_Commit : Script unit :=
  λ w, match active w with
       | Some (name, _) =>
           Done tt (mkWorld (doc w) (app w) (uidoc w) (alerts w) None
                      (transactions w ++ [(name, Committed)])
                      (calls w ++ [Call_Commit name]))
       | None => Raised InvalidOperationException w
       end.

Definition Transaction_RollBack : Script unit :=
  λ w, match active w with
       | Some (name, snapshot) =>
           Done tt (mkWorld snapshot (app w) (uidoc w) (alerts w) None
                      (transactions w ++ [(name, RolledBack)])
                      (calls w ++ [Call_RollBack name]))
       | None => Raised InvalidOperationException w
       end.

(** A change to the document: only inside a transaction. *)
Definition modify_doc (f : Document → Document) : Script unit :=
  λ w, match active w with
       | Some _ => Done tt (with_doc (f (doc w)) w)
       | None => Raised InvalidOperationException w
       end.

(** ** [ensure_text_parameter] (lines 29-125) *)

(** Lines 43-46. *)
Definition build_cat_set (categories : list Category) : CategorySet :=
  foldl (λ cat_set cat,
           if AllowsBoundParameters cat then cat_set ∪ {[cat]} else cat_set)
        ∅ categories.

(** Lines 58-64. *)
Definition missing_categories (cat_set existingCats : CategorySet) : CategorySet :=
  foldl (λ missingCats cat,
           if bool_decide (cat ∈ existingCats) then missingCats
           else missingCats ∪ {[cat]})
        ∅ (elements cat_set).

(** Lines 69-74. *)
Definition insert_missing (missingCats existingCats : CategorySet) : CategorySet :=
  foldl (λ existingCats missingCat,
           if AllowsBoundParameters missingCat then existingCats ∪ {[missingCat]}
           else existingCats)
        existingCats (elements missingCats).

(** Lines 57-77: the parameter exists; widen its binding if needed. *)
Definition update_binding (param_name : string) (definition : ParamDefinition)
    (binding : Binding) (cat_set : CategorySet) : Script unit :=
  let existingCats := Categories binding in
  let missingCats := missing_categories cat_set existingCats in
  if bool_decide (0 < size missingCats) then
    Transaction_Start ("Update binding for " +:+ param_name);;
    let existingCats := insert_missing missingCats existingCats in
    let binding := mkBinding (binding_Kind binding) existingCats in
    modify_doc (ParameterBindings_ReInsert definition binding);;
    Transaction_Commit
  else mret tt.

(** [open(path, "w").write("")] *)
Definition write_empty_file (path : string) : Script unit :=
  λ w, if tempdir_writable (app w) then
         Done tt (with_app (mkApplication (SharedParametersFilename (app w))
                              (<[path := []]> (filesystem (app w)))
                              (tempdir (app w)) (tempdir_writable (app w))
                              (open_error (app w)) (revitVersion (app w))) w)
       else Raised (open_error (app w)) w.

Definition set_SharedParametersFilename (path : string) : Script unit :=
  modify (λ w, with_app (mkApplication path (filesystem (app w)) (tempdir (app w))
                           (tempdir_writable (app w)) (open_error (app w))
                           (revitVersion (app w))) w).

(** A change to the shared parameter file that is currently open. *)
Definition update_shared_file (f : DefinitionFile → DefinitionFile) : Script unit :=
  modify (λ w, with_app (mkApplication (SharedParametersFilename (app w))
                           (alter f (SharedParametersFilename (app w)) (filesystem (app w)))
                           (tempdir (app w)) (tempdir_writable (app w))
                           (open_error (app w)) (revitVersion (app w))) w).

Definition group_name : string := "Grid Tools".

Definition has_group_name (name : string) (g : DefinitionGroup) : bool :=
  bool_decide (group_Name g = name).
Definition has_def_name (name : string) (d : ParamDefinition) : bool :=
  bool_decide (def_Name d = name).

(** [shared_group.Definitions.Create(options)] on the group [group_name]. *)
Fixpoint Definitions_Create (new_def : ParamDefinition) (file : DefinitionFile)
    : DefinitionFile :=
  match file with
  | [] => []
  | g :: file' =>
      if has_group_name group_name g
      then mkGroup (group_Name g) (Definitions g ++ [new_def]) :: file'
      else g :: Definitions_Create new_def file'
  end.

(** Lines 84-122: the body of the [try]. *)
Definition create_parameter (param_name : string) (cat_set : CategorySet)
    (group : BuiltInParameterGroup) : Script unit :=
  w ← get;
  shared_param_file ←
    match OpenSharedParameterFile (app w) with
    | Some file => mret (Some file)
    | None =>
        let temp_folder := tempdir (app w) in
        let shared_param_file_path := path_join temp_folder "TempSharedParameters.txt" in
        write_empty_file shared_param_file_path;;
        set_SharedParametersFilename shared_param_file_path;;
        w ← get; mret (OpenSharedParameterFile (app w))
    end;
  match shared_param_file with
  | None => raise AttributeError   (* [shared_param_file.Groups] on [None] *)
  | Some file =>
      shared_group ←
        match find (has_group_name group_name) file with
        | Some g => mret g
        | None =>
            let g := mkGroup group_name [] in
            update_shared_file (λ file, file ++ [g]);; mret g
        end;
      let options :=
        if bool_decide (revitVersion (app w) < 2023)%Z
        then (param_name, ParameterType_Text)
        else (param_name, SpecTypeId_String_Text) in
      let existing_def := find (has_def_name param_name) (Definitions shared_group) in
      let binding := mkBinding InstanceBinding cat_set in
      match existing_def with
      | Some existing_def =>
          modify_doc (ParameterBindings_Insert existing_def binding group)
      | None =>
          let new_def := mkDefinition options.1 options.2 in
          update_shared_file (Definitions_Create new_def);;
          modify_doc (ParameterBindings_Insert new_def binding group)
      end;;
      Transaction_Commit
  end.

Definition ensure_text_parameter (param_name : string) (categories : list Category)
    : Script unit :=
  let group := PG_DATA in
  w ← get;
  let bindingMap := ParameterBindings (doc w) in
  let cat_set := build_cat_set categories in
  match find (λ e, has_def_name param_name e.1) bindingMap with
  | Some (definition, (binding, _)) =>
      update_binding param_name definition binding cat_set
  | None =>
      Transaction_Start ("Add Project Parameter: " +:+ param_name);;
      try_except
        (create_parameter param_name cat_set group)
        (λ e, Transaction_RollBack;;
              alert ("Failed to create parameter: " +:+ param_name +:+ newline +:+ e)
                    true)
  end.

(** ** Element access *)

(** [doc.GetElement(eid)] hands out a reference into the document; the
    script's [elem] objects are such references, so a later read sees
    earlier writes.  Reading an attribute through a reference to a missing
    element ([None]) raises. *)
Definition attribute {A} (f : Element → A) (elem : ElementId) : Script A :=
  λ w, match doc_elements (doc w) !! elem with
       | Some e => Done (f e) w
       | None => Raised AttributeError w
       end.

Fixpoint set_first (name value : string) (ps : list Param) : list Param :=
  match ps with
  | [] => []
  | p :: ps' =>
      if has_param_name name p
      then mkParam (param_Name p) (IsReadOnly p) value :: ps'
      else p :: set_first name value ps'
  end.

Definition set_param (name value : string) (e : Element) : Element :=
  mkElement (elem_Category e) (Location e) (set_first name value (elem_Parameters e)).

(** [param.Set(value)] where [param = elem.LookupParameter(name)]. *)
Definition Parameter_Set (elem : ElementId) (name value : string) : Script unit :=
  modify (log_call (Call_Set elem name value));;
  modify_doc (λ d, mkDocument (alter (set_param name value) elem (doc_elements d))
                     (ParameterBindings d) (Grids d) (curved_grids d)).

(** ** [InitialSelectionFilter] (lines 165-174) *)

Record InitialSelectionFilter := mkFilter { allowed_ids : list ElementId }.

Definition AllowElement (self : InitialSelectionFilter) (element : ElementId) : bool :=
  bool_decide (element ∈ allowed_ids self).

Definition AllowReference (self : InitialSelectionFilter) (ref : ElementId) (point : XYZ)
    : bool := false.

(** [uidoc.Selection.PickObject(ObjectType.Element, filter, prompt)]: the
    host ignores clicks on elements the filter refuses and returns the first
    one it allows; when the user gives up it raises. *)
Definition PickObject (selection_filter : InitialSelectionFilter) : Script ElementId :=
  λ w, match find (λ c, bool_decide (is_Some (doc_elements (doc w) !! c))
                        && AllowElement selection_filter c) (clicks (uidoc w)) with
       | Some start_ref => Done start_ref w
       | None => Raised OperationCanceledException w
       end.

(** ** Sorting: [list.sort(key=...)] is stable and ascending *)

Fixpoint insert_by_distance (x : ElementId * Q) (l : list (ElementId * Q))
    : list (ElementId * Q) :=
  match l with
  | [] => [x]
  | y :: l' =>
      if Qle_bool x.2 y.2 then x :: y :: l' else y :: insert_by_distance x l'
  end.

Definition sort_by_distance (l : list (ElementId * Q)) : list (ElementId * Q) :=
  foldr insert_by_distance [] l.

(** ** The script *)

(** The host's geometry kernel: the script calls it and does no geometry
    of its own. *)
Record Kernel := mkKernel {
  DistanceTo : XYZ → XYZ → Q;                                  (* p.DistanceTo(q) *)
  Intersect : Curve → Curve → SetComparisonResult * list XYZ;  (* result and result points *)
  Evaluate : Curve → Q → bool → option XYZ                     (* [None]: it raises *)
}.

Section Host.

Variable K : Kernel.

Definition call_DistanceTo (p q : XYZ) : Script Q :=
  modify (log_call (Call_DistanceTo p q));; mret (DistanceTo K p q).

Definition call_Intersect (v h : Grid) : Script (SetComparisonResult * list XYZ) :=
  modify (log_call (Call_Intersect v h));;
  mret (Intersect K (grid_Curve v) (grid_Curve h)).

(** Lines 134-141, after [loc = elem.Location]. *)
Definition location_point (loc : option LocationKind) : option XYZ :=
  match loc with
  | Some (LocationPoint Point) => Some Point
  | Some (LocationCurve Curve) => Evaluate K Curve (1 # 2)%Q true
  | _ => None
  end.

Definition get_element_location (elem : ElementId) : Script (option XYZ) :=
  loc ← attribute Location elem;
  mret (location_point loc).

(** Lines 158-162: one (v, h) pair. *)
Definition intersect_step (v : Grid) (intersections : list (XYZ * Grid * Grid))
    (h : Grid) : Script (list (XYZ * Grid * Grid)) :=
  '(res, results) ← call_Intersect v h;
  if bool_decide (res = Overlap) && bool_decide (0 < length results) then
    match results with
    | ip :: _ => mret (intersections ++ [(ip, v, h)])
    | [] => raise IndexError             (* not reached: [results.Size > 0] *)
    end
  else mret intersections.

(** Lines 143-163. *)
Definition get_grid_intersections (v_grids h_grids : list Grid)
    : Script (list (XYZ * Grid * Grid)) :=
  for_each v_grids (λ intersections v,
    for_each h_grids (intersect_step v) intersections) [].

(** Lines 210-218. *)
Definition classify_grids (grids : list Grid) : list Grid * list Grid :=
  foldl (λ '(vertical_grids, horizontal_grids) grid,
           let curve := grid_Curve grid in
           let direction := Direction curve in
           if Qlt_bool (Qabs (Y direction)) (Qabs (X direction))
           then (vertical_grids, horizontal_grids ++ [grid])
           else (vertical_grids ++ [grid], horizontal_grids))
        ([], []) grids.

(** Lines 181-186. *)
Definition collect_categories (initial_sel_ids : list ElementId)
    : Script (gset Category) :=
  for_each initial_sel_ids (λ selected_categories eid,
    Category ← attribute elem_Category eid;
    match Category with
    | Some c => mret (selected_categories ∪ {[c]})
    | None => mret selected_categories
    end) ∅.

(** Lines 236-240: the scan for the closest intersection. *)
Definition scan_step (pt : XYZ) (st : Float * option (Grid * Grid))
    (i : XYZ * Grid * Grid) : Script (Float * option (Grid * Grid)) :=
  let '(min_dist, closest) := st in
  let '(ip, v_grid, h_grid) := i in
  dist ← call_DistanceTo pt ip;
  if float_lt dist min_dist
  then mret (Finite dist, Some (v_grid, h_grid))
  else mret (min_dist, closest).

(** Lines 230-246: one selected element. *)
Definition grid_square_step (intersections : list (XYZ * Grid * Grid))
    (modified_elem_ids : gset ElementId) (eid : ElementId)
    : Script (gset ElementId) :=
  let elem := eid in
  pt ← get_element_location elem;
  match pt with
  | Some pt =>
      '(min_dist, closest) ← for_each intersections (scan_step pt) (Inf, None);
      match closest with
      | Some closest =>
          let grid_square := grid_Name closest.1 +:+ "-" +:+ grid_Name closest.2 in
          param ← attribute (LookupParameter "Grid Square") elem;
          match param with
          | Some param =>
              if negb (IsReadOnly param) then
                Parameter_Set elem "Grid Square" grid_square;;
                mret (modified_elem_ids ∪ {[elem]})
              else mret modified_elem_ids
          | None => mret modified_elem_ids
          end
      | None => mret modified_elem_ids
      end
  | None => mret modified_elem_ids
  end.

(** Lines 250-255. *)
Definition distance_step (start_point : XYZ)
    (elements_with_distance : list (ElementId * Q)) (id : ElementId)
    : Script (list (ElementId * Q)) :=
  let elem := id in
  pt ← get_element_location elem;
  match pt with
  | Some pt =>
      distance ← call_DistanceTo pt start_point;
      mret (elements_with_distance ++ [(elem, distance)])
  | None => mret elements_with_distance
  end.

(** Lines 261-266. *)
Definition number_step (st : nat * gset ElementId) (x : ElementId * Q)
    : Script (nat * gset ElementId) :=
  let '(num, modified_elem_ids) := st in
  let '(elem, dist) := x in
  param ← attribute (LookupParameter "Number") elem;
  match param with
  | Some param =>
      if negb (IsReadOnly param) then
        Parameter_Set elem "Number" (str num);;
        mret (num + 1, modified_elem_ids ∪ {[elem]})
      else mret (num, modified_elem_ids)
  | None => mret (num, modified_elem_ids)
  end.

(** Lines 225-268: the assignment transaction. *)
Definition assign (initial_sel_ids : list ElementId) (start_point : XYZ)
    (intersections : list (XYZ * Grid * Grid)) : Script (gset ElementId) :=
  Transaction_Start "Assign Grid Square and Number";;
  modified_elem_ids ← for_each initial_sel_ids (grid_square_step intersections) ∅;
  elements_with_distance ← for_each initial_sel_ids (distance_step start_point) [];
  let elements_with_distance := sort_by_distance elements_with_distance in
  '(num, modified_elem_ids) ←
    for_each elements_with_distance number_step (1, modified_elem_ids);
  Transaction_Commit;;
  mret modified_elem_ids.

(** Lines 196-202. *)
Definition pick_start_element (selection_filter : InitialSelectionFilter)
    : Script (option ElementId) :=
  try_except
    (alert "Select the starting element for numbering." false;;
     start_ref ← PickObject selection_filter;
     mret (Some start_ref))
    (λ e, alert "No starting element selected" true;; mret None).

(** Lines 204-206. *)
Definition resolve_start_point (start_elem : option ElementId) : Script XYZ :=
  start_point ←
    match start_elem with
    | Some start_elem => get_element_location start_elem
    | None => raise AttributeError       (* [None.Location] *)
    end;
  match start_point with
  | Some start_point => mret start_point
  | None =>
      alert "The starting element does not have a valid location." true;;
      raise AttributeError               (* not reached: the alert exits *)
  end.

(** Lines 209-222. *)
Definition collect_intersections : Script (list (XYZ * Grid * Grid)) :=
  w ← get;
  let grids := Grids (doc w) in
  (* line 214: [curve.Direction] of a grid whose curve is not a line *)
  (if bool_decide (curved_grids (doc w) = []) then mret tt
   else raise AttributeError);;
  let '(vertical_grids, horizontal_grids) := classify_grids grids in
  intersections ← get_grid_intersections vertical_grids horizontal_grids;
  (if bool_decide (intersections = [])
   then alert "No grid intersections found. Ensure the model has both vertical and horizontal grids." true
   else mret tt);;
  mret intersections.

(** Lines 177-222: everything before the assignment transaction. *)
Definition prepare : Script (list ElementId * XYZ * list (XYZ * Grid * Grid)) :=
  w ← get;
  let initial_sel_ids := Selection (uidoc w) in
  (if bool_decide (initial_sel_ids = [])
   then alert "Please select one or more elements." true else mret tt);;
  selected_categories ← collect_categories initial_sel_ids;
  let selected_categories := elements selected_categories in
  let selection_filter := mkFilter initial_sel_ids in
  ensure_text_parameter "Grid Square" selected_categories;;
  ensure_text_parameter "Number" selected_categories;;
  start_elem ← pick_start_element selection_filter;
  start_point ← resolve_start_point start_elem;
  intersections ← collect_intersections;
  mret (initial_sel_ids, start_point, intersections).

Definition main : Script unit :=
  '(initial_sel_ids, start_point, intersections) ← prepare;
  modified_elem_ids ← assign initial_sel_ids start_point intersections;
  if bool_decide (size modified_elem_ids = length initial_sel_ids)
  then alert "Selected elements were successfully numbered." false
  else alert "Not all elements were numbered." false.

(** What the host is left with when the script stops: a transaction that
    was started and neither committed nor rolled back is rolled back. *)
Inductive Status := Completed | Exit | Error.

Definition close_world (w : World) : World :=
  match active w with
  | Some (name, snapshot) =>
      mkWorld snapshot (app w) (uidoc w) (alerts w) None
              (transactions w ++ [(name, RolledBack)]) (calls w)
  | None => w
  end.

Definition run (w : World) : Status * World :=
  match main w with
  | Done _ w' => (Completed, close_world w')
  | Exited w' => (Exit, close_world w')
  | Raised _ w' => (Error, close_world w')
  end.

End Host.

(** ** What a run is observed through *)

Definition result_world {A} (r : Result A) : World :=
  match r with Done _ w | Exited w | Raised _ w => w end.

Definition add_calls (cs : list HostCall) (w : World) : World :=
  mkWorld (doc w) (app w) (uidoc w) (alerts w) (active w) (transactions w)
          (calls w ++ cs).

(** The calls made since [w]. *)
Definition new_calls (w w' : World) : list HostCall :=
  drop (length (calls w)) (calls w').

Definition is_Set (c : HostCall) : bool :=
  match c with Call_Set _ _ _ => true | _ => false end.
Definition is_Set_of (name : string) (c : HostCall) : bool :=
  match c with Call_Set _ n _ => bool_decide (n = name) | _ => false end.
Definition is_DistanceTo (c : HostCall) : bool :=
  match c with Call_DistanceTo _ _ => true | _ => false end.
Definition is_Intersect (c : HostCall) : bool :=
  match c with Call_Intersect _ _ => true | _ => false end.
Definition is_transaction (c : HostCall) : bool :=
  match c with
  | Call_Start _ | Call_Commit _ | Call_RollBack _ => true
  | _ => false
  end.

(** The ids of the elements a list of calls wrote a parameter of. *)
Definition written_ids (cs : list HostCall) : gset ElementId :=
  list_to_set (omap (λ c, match c with Call_Set e _ _ => Some e | _ => None end) cs).

Definition is_horizontal (grid : Grid) : bool :=
  Qlt_bool (Qabs (Y (Direction (grid_Curve grid))))
           (Qabs (X (Direction (grid_Curve grid)))).

Definition param_value (name : string) (e : Element) : option string :=
  AsString <$> LookupParameter name e.

(** [LookupParameter(name)] gives a parameter that is not read-only. *)
Definition writable (name : string) (e : Element) : bool :=
  match LookupParameter name e with
  | Some param => negb (IsReadOnly param)
  | None => false
  end.

Definition elem_writable (w : World) (name : string) (eid : ElementId) : bool :=
  match doc_elements (doc w) !! eid with
  | Some e => writable name e
  | None => false
  end.

Section Observations.

Variable K : Kernel.

(** The intersection list in the words of the specification: one tuple
    for each (vertical, horizontal) pair whose curves overlap in at least
    one point. *)
Definition pair_intersection (v h : Grid) : list (XYZ * Grid * Grid) :=
  match Intersect K (grid_Curve v) (grid_Curve h) with
  | (Overlap, ip :: _) => [(ip, v, h)]
  | _ => []
  end.

Definition intersections_spec (grids : list Grid) : list (XYZ * Grid * Grid) :=
  v ← filter (λ g, is_horizontal g = false) grids;
  h ← filter (λ g, is_horizontal g = true) grids;
  pair_intersection v h.

(** One iteration of the scan, without the call log. *)
Definition scan_pure (pt : XYZ) (st : Float * option (Grid * Grid))
    (i : XYZ * Grid * Grid) : Float * option (Grid * Grid) :=
  if float_lt (DistanceTo K pt i.1.1) st.1
  then (Finite (DistanceTo K pt i.1.1), Some (i.1.2, i.2))
  else st.

(** Position [i] holds the first intersection at minimum distance from [pt]. *)
Definition first_nearest (pt : XYZ) (ints : list (XYZ * Grid * Grid)) (i : nat)
    (x : XYZ * Grid * Grid) : Prop :=
  ints !! i = Some x ∧
  (∀ j y, ints !! j = Some y → (DistanceTo K pt x.1.1 <= DistanceTo K pt y.1.1)%Q) ∧
  (∀ j y, (j < i)%nat → ints !! j = Some y →
          (DistanceTo K pt x.1.1 < DistanceTo K pt y.1.1)%Q).

Definition element_point (w : World) (eid : ElementId) : option XYZ :=
  e ← doc_elements (doc w) !! eid; location_point K (Location e).

(** The selected elements that have a location, with their distance from
    the start point, in selection order. *)
Definition located (w : World) (start_point : XYZ) (sel : list ElementId)
    : list (ElementId * Q) :=
  omap (λ eid, pt ← element_point w eid; Some (eid, DistanceTo K pt start_point)) sel.

(** The elements the numbering pass numbers, in the order it numbers them. *)
Definition numbered (w : World) (start_point : XYZ) (sel : list ElementId)
    : list (ElementId * Q) :=
  filter (λ x, elem_writable w "Number" x.1 = true)
         (sort_by_distance (located w start_point sel)).

(** The element the user ends up picking, if any. *)
Definition picked (w : World) : option ElementId :=
  find (λ c, bool_decide (is_Some (doc_elements (doc w) !! c))
             && AllowElement (mkFilter (Selection (uidoc w))) c)
       (clicks (uidoc w)).

(** The location of the element the user ends up picking. *)
Definition start_location (w : World) : option XYZ :=
  r ← picked w; element_point w r.

End Observations.

(** * A worked example *)

Module Example.

Local Open Scope Z_scope.

(** All points of the example lie on the x axis, where the distance between
    two points is the absolute difference of their abscissas. *)
Definition DistanceTo (p q : XYZ) : Q := Qabs (X p - X q)%Q.

(** The example's grids are axis-parallel lines: a line parallel to the y
    axis meets one parallel to the x axis in exactly one point. *)
Definition Intersect (c1 c2 : Curve) : SetComparisonResult * list XYZ :=
  if Qeq_bool (X (Direction c1)) 0 && Qeq_bool (Y (Direction c2)) 0
  then (Overlap, [mkXYZ (X (Origin c1)) (Y (Origin c2)) 0])
  else (Disjoint, []).

Definition Evaluate (c : Curve) (t : Q) (normalized : bool) : option XYZ :=
  Some (Origin c).

Definition kernel : Kernel := mkKernel DistanceTo Intersect Evaluate.

Definition pt (x : Z) : XYZ := mkXYZ (inject_Z x) 0 0.

Definition grid_A : Grid := mkGrid 1 "A" (mkCurve (pt 0) (mkXYZ 0 1 0)).
Definition grid_B : Grid := mkGrid 2 "B" (mkCurve (pt 10) (mkXYZ 0 1 0)).
Definition grid_1 : Grid := mkGrid 3 "1" (mkCurve (pt 0) (mkXYZ 1 0 0)).

Definition walls : Category := mkCategory 7 true.

Definition blank (name : string) : Param := mkParam name false "".

Definition wall (x : Z) : Element :=
  mkElement (Some walls) (Some (LocationPoint (pt x)))
            [blank "Grid Square"; blank "Number"].

Definition host_app : Application := mkApplication "" ∅ "/tmp" true "IOError(13, 'Permission denied')" 2024.

Definition world0 : World :=
  mkWorld (mkDocument (<[101 := wall 1]> (<[102 := wall 8]> (<[103 := wall 4]> ∅)))
                      [] [grid_A; grid_B; grid_1] [])
          host_app
          (mkUIDocument [101; 102; 103] [999; 103])
          [] None [] [].

Definition sel0 : list ElementId := [101; 102; 103].

(** The intersections of the three grids: A-1 at x = 0 and B-1 at x = 10. *)
Definition ints0 : list (XYZ * Grid * Grid) :=
  [(mkXYZ (inject_Z 0) 0 0, grid_A, grid_1);
   (mkXYZ (inject_Z 10) 0 0, grid_B, grid_1)].

(** The user clicks on something that is not selected, then gives up. *)
Definition world_cancel : World :=
  mkWorld (doc world0) host_app (mkUIDocument [101; 102; 103] [999])
          [] None [] [].

(** Both parameters are bound to walls already, and both walls have them;
    on element 102 the "Number" parameter is read-only. *)
Definition world_partial : World :=
  mkWorld (mkDocument
             (<[101 := wall 1]>
                (<[102 := mkElement (Some walls) (Some (LocationPoint (pt 8)))
                                    [blank "Grid Square";
                                     mkParam "Number" true ""]]> ∅))
             [(mkDefinition "Grid Square" SpecTypeId_String_Text,
               (mkBinding InstanceBinding {[walls]}, PG_DATA));
              (mkDefinition "Number" SpecTypeId_String_Text,
               (mkBinding InstanceBinding {[walls]}, PG_DATA))]
             [grid_A; grid_B; grid_1] [])
          host_app (mkUIDocument [101; 102] [101]) [] None [] [].

(** Element 104 has both parameters but no location. *)
Definition world_unlocated : World :=
  mkWorld (mkDocument
             (<[101 := wall 1]>
                (<[104 := mkElement (Some walls) None
                                    [blank "Grid Square"; blank "Number"]]> ∅))
             [] [grid_A; grid_B; grid_1] [])
          host_app (mkUIDocument [101; 104] [101]) [] None [] [].

(** The project already has an integer parameter called "Number", bound to
    walls. *)
Definition integer_number : ParamDefinition := mkDefinition "Number" (OtherSpec 0).

Definition world_integer_number : World :=
  mkWorld (mkDocument (doc_elements (doc world0))
             [(integer_number, (mkBinding InstanceBinding {[walls]}, PG_DATA))]
             [grid_A; grid_B; grid_1] [])
          host_app (mkUIDocument [101; 102; 103] [103]) [] None [] [].

End Example.

(** ** The assignment pass without the monad

    The loops of the assignment pass as folds over [(local variables,
    world)]; the facts below show that the script computes exactly these. *)

(** The world after [param.Set(value)] on the parameter [name] of [eid]. *)
Definition write_param (eid : ElementId) (name value : string) (w : World) : World :=
  with_doc (mkDocument (alter (set_param name value) eid (doc_elements (doc w)))
                       (ParameterBindings (doc w)) (Grids (doc w))
                       (curved_grids (doc w)))
           (log_call (Call_Set eid name value) w).

(** Every selected id names an element of the document. *)
Definition valid_ids (ids : list ElementId) (w : World) : Prop :=
  ∀ id, id ∈ ids → is_Some (doc_elements (doc w) !! id).

Section Folds.

Variable K : Kernel.

Definition closest_of (pt : XYZ) (ints : list (XYZ * Grid * Grid))
    : option (Grid * Grid) :=
  (foldl (scan_pure K pt) (Inf, None) ints).2.

(** The label the first loop computes for an element. *)
Definition grid_square (ints : list (XYZ * Grid * Grid)) (e : Element)
    : option string :=
  pt ← location_point K (Location e);
  closest ← closest_of pt ints;
  Some (grid_Name closest.1 +:+ "-" +:+ grid_Name closest.2).

Definition scan_calls (ints : list (XYZ * Grid * Grid)) (e : Element)
    : list HostCall :=
  match location_point K (Location e) with
  | Some pt => (λ i, Call_DistanceTo pt i.1.1) <$> ints
  | None => []
  end.

Definition grid_square_pure (ints : list (XYZ * Grid * Grid))
    (st : gset ElementId * World) (eid : ElementId) : gset ElementId * World :=
  match doc_elements (doc st.2) !! eid with
  | Some e =>
      let w1 := add_calls (scan_calls ints e) st.2 in
      match grid_square ints e with
      | Some label =>
          if writable "Grid Square" e
          then (st.1 ∪ {[eid]}, write_param eid "Grid Square" label w1)
          else (st.1, w1)
      | None => (st.1, w1)
      end
  | None => st
  end.

Definition distance_calls (w : World) (sp : XYZ) (sel : list ElementId)
    : list HostCall :=
  (λ x, Call_DistanceTo x.1 sp) <$>
    omap (λ eid, pt ← element_point K w eid; Some (pt, eid)) sel.

End Folds.

Definition number_pure (st : nat * gset ElementId * World) (x : ElementId * Q)
    : nat * gset ElementId * World :=
  if elem_writable st.2 "Number" x.1
  then (st.1.1 + 1, st.1.2 ∪ {[x.1]}, write_param x.1 "Number" (str st.1.1) st.2)
  else st.

(** Two states of an element that differ in parameter values only. *)
Definition same_shape (e e' : Element) : Prop :=
  elem_Category e = elem_Category e' ∧
  Location e = Location e' ∧
  (λ p, (param_Name p, IsReadOnly p)) <$> elem_Parameters e
  = (λ p, (param_Name p, IsReadOnly p)) <$> elem_Parameters e'.

(** [w'] is [w] after some parameter writes inside the open transaction. *)
Definition evolves (w w' : World) : Prop :=
  active w' = active w ∧ transactions w' = transactions w ∧
  alerts w' = alerts w ∧ app w' = app w ∧ uidoc w' = uidoc w ∧
  ParameterBindings (doc w') = ParameterBindings (doc w) ∧
  Grids (doc w') = Grids (doc w) ∧
  (∀ id, option_Forall2 same_shape (doc_elements (doc w) !! id)
                                   (doc_elements (doc w') !! id)) ∧
  ∃ cs, calls w' = calls w ++ cs.

Definition start_world (name : string) (w : World) : World :=
  mkWorld (doc w) (app w) (uidoc w) (alerts w) (Some (name, doc w))
          (transactions w) (calls w ++ [Call_Start name]).

Definition commit_world (name : string) (w : World) : World :=
  mkWorld (doc w) (app w) (uidoc w) (alerts w) None
          (transactions w ++ [(name, Committed)]) (calls w ++ [Call_Commit name]).

(** The value of parameter [name] of element [eid] in world [w]. *)
Definition elem_value (w : World) (name : string) (eid : ElementId) : option string :=
  e ← doc_elements (doc w) !! eid; param_value name e.

(** The parameter writes of the numbering loop on the list [l] it numbers,
    the counter starting at [num]. *)
Fixpoint number_calls (num : nat) (l : list (ElementId * Q)) : list HostCall :=
  match l with
  | [] => []
  | x :: l' => Call_Set x.1 "Number" (str num) :: number_calls (num + 1) l'
  end.

(** Ascending by distance. *)
Definition nearer_or_equal (x y : ElementId * Q) : Prop := (x.2 <= y.2)%Q.

Definition assign_name : string := "Assign Grid Square and Number".

(** [e'] is [e] with, possibly, new parameters behind the ones it had; the
    new ones are writable and have no value. *)
Definition gains (e e' : Element) : Prop :=
  elem_Category e' = elem_Category e ∧ Location e' = Location e ∧
  ∃ extra, elem_Parameters e' = elem_Parameters e ++ extra ∧
           Forall (λ p, IsReadOnly p = false ∧ AsString p = "") extra.

(** The same elements, each with what it may have gained. *)
Definition elements_gain (es es' : gmap ElementId Element) : Prop :=
  ∀ id, option_Forall2 gains (es !! id) (es' !! id).

(** What the part of the script before the assignment transaction may do
    to the world: the elements stay and keep what they have, but may gain
    parameters through the bindings; grids and selection are left alone, no
    parameter is written, no transaction is left open and at most [n]
    transactions are finished, none of them the assignment transaction. *)
Definition setup (n : nat) (w w' : World) : Prop :=
  elements_gain (doc_elements (doc w)) (doc_elements (doc w')) ∧
  (Grids (doc w') = Grids (doc w) ∧ curved_grids (doc w') = curved_grids (doc w)) ∧
  uidoc w' = uidoc w ∧
  active w' = None ∧
  (∃ cs, calls w' = calls w ++ cs ∧ Forall (λ c, is_Set c = false) cs) ∧
  (∃ ts, transactions w' = transactions w ++ ts ∧ length ts ≤ n ∧
         Forall (λ t, t.1 ≠ assign_name) ts) ∧
  (∃ al, alerts w' = alerts w ++ al).

Definition add_alert (msg : string) (w : World) : World :=
  mkWorld (doc w) (app w) (uidoc w) (alerts w ++ [msg]) (active w)
          (transactions w) (calls w).

(** The intersection queries of a run, in order. *)
Definition asked_intersections (grids : list Grid) : list HostCall :=
  v ← filter (λ g, is_horizontal g = false) grids;
  Call_Intersect v <$> filter (λ g, is_horizontal g = true) grids.

Definition success_message : string :=
  "Selected elements were successfully numbered.".
Definition failure_message : string := "Not all elements were numbered.".

(** ** Invariants used in the proofs *)

(** Outside the selection [sel], the elements of the document (and of the
    snapshot a roll-back would restore) are those of [x.1]; every parameter
    write logged after [x.2] is on an element of [sel]. *)
Definition frame_inv (sel : list ElementId)
    (x : gmap ElementId Element * list HostCall) (w : World) : Prop :=
  (∀ eid, eid ∉ sel → doc_elements (doc w) !! eid = x.1 !! eid) ∧
  (∀ name snapshot, active w = Some (name, snapshot) →
     ∀ eid, eid ∉ sel → doc_elements snapshot !! eid = x.1 !! eid) ∧
  (∃ cs, calls w = x.2 ++ cs ∧ ∀ e n v, Call_Set e n v ∈ cs → e ∈ sel).

Section TaggedInv.

Variable K : Kernel.

(** Element [eid] carries the label the scan computes for it. *)
Definition tagged (ints : list (XYZ * Grid * Grid)) (eid : ElementId)
    (label : string) (w0 : World) (st : gset ElementId * World) : Prop :=
  (∃ e, doc_elements (doc st.2) !! eid = Some e ∧
        param_value "Grid Square" e = Some label ∧
        grid_square K ints e = Some label) ∧
  eid ∈ st.1 ∧ Call_Set eid "Grid Square" label ∈ new_calls w0 st.2.

End TaggedInv.

(** [keeps I m]: whatever way [m] stops (normally, by exit or by an
    exception), an invariant [I x] that held before holds after. *)
Definition keeps {X A} (I : X → World → Prop) (m : Script A) : Prop :=
  ∀ x w, I x w → I x (result_world (m w)).

(** [bounded μ n m]: [m] only appends to the call log, and appends at most
    [n] calls of the kind [μ], whatever way it stops. *)
Definition bounded {A} (μ : HostCall → bool) (n : nat) (m : Script A) : Prop :=
  ∀ w, ∃ cs, calls (result_world (m w)) = calls w ++ cs ∧ length (filter μ cs) ≤ n.


(** ** More observations and cases *)

(** The type of a definition the script creates (lines 103-106). *)
Definition text_spec (version : Z) : SpecType :=
  if bool_decide (version < 2023)%Z then ParameterType_Text
  else SpecTypeId_String_Text.

Definition temp_file (a : Application) : string :=
  path_join (tempdir a) "TempSharedParameters.txt".

Definition add_name (name : string) : string := "Add Project Parameter: " +:+ name.
Definition update_name (name : string) : string := "Update binding for " +:+ name.
Definition creation_failed (name e : string) : string :=
  "Failed to create parameter: " +:+ name +:+ newline +:+ e.

(** The categories of the selected elements. *)
Definition selected_category (w : World) (c : Category) : Prop :=
  ∃ eid e, eid ∈ Selection (uidoc w) ∧ doc_elements (doc w) !! eid = Some e ∧
           elem_Category e = Some c.

(** Parameter [name] is bound to category [c] in the document of [w]. *)
Definition bound_to (w : World) (name : string) (c : Category) : Prop :=
  ∃ d b g, find (λ e, has_def_name name e.1) (ParameterBindings (doc w))
           = Some (d, (b, g)) ∧ c ∈ Categories b.

(** The parameter writes among [cs], applied in order to the elements [es]. *)
Definition apply_call (es : gmap ElementId Element) (c : HostCall)
    : gmap ElementId Element :=
  match c with
  | Call_Set e n v => alter (set_param n v) e es
  | _ => es
  end.

Definition replay (cs : list HostCall) (es : gmap ElementId Element)
    : gmap ElementId Element :=
  foldl apply_call es cs.

Section Guards.

Variable K : Kernel.

(** Lines 196-222 in terms of the world [w] the script started in, [w2]
    being the world after the two parameters have been ensured. *)
Definition guards_after_setup (w w2 : World)
    : Result (list ElementId * XYZ * list (XYZ * Grid * Grid)) :=
  let w3 := add_alert "Select the starting element for numbering." w2 in
  match picked w with
  | None => Exited (add_alert "No starting element selected" w3)
  | Some r =>
      match element_point K w r with
      | None =>
          Exited (add_alert "The starting element does not have a valid location." w3)
      | Some sp =>
          if bool_decide (curved_grids (doc w) = []) then
            let ints := intersections_spec K (Grids (doc w)) in
            let w4 := add_calls (asked_intersections (Grids (doc w))) w3 in
            if bool_decide (ints = [])
            then Exited (add_alert "No grid intersections found. Ensure the model has both vertical and horizontal grids." w4)
            else Done (Selection (uidoc w), sp, ints) w4
          else Raised AttributeError w3
      end
  end.

(** A parameter write the assignment pass can make in world [w]. *)
Definition possible_write (w : World) (sel : list ElementId) (c : HostCall) : Prop :=
  match c with
  | Call_Set e n v =>
      e ∈ sel ∧ (n = "Grid Square" ∨ n = "Number") ∧
      elem_writable w n e = true ∧ is_Some (element_point K w e)
  | _ => True
  end.

(** Since [w0], the pass has made the calls [cs]: each parameter write
    among them is a possible one, and the elements are those of [w0] with
    these writes applied. *)
Definition pass_inv (w0 : World) (sel : list ElementId) (w : World) : Prop :=
  ∃ cs, calls w = calls w0 ++ cs ∧
        doc_elements (doc w) = replay cs (doc_elements (doc w0)) ∧
        Forall (possible_write w0 sel) cs.

End Guards.

Module Cases.

Local Open Scope Z_scope.

Definition floors : Category := mkCategory 8 true.

(** A category that does not allow bound parameters. *)
Definition views : Category := mkCategory 9 false.

(** No shared parameter file is configured and the temp folder cannot be
    written. *)
Definition locked_app : Application := mkApplication "" ∅ "/tmp" false "IOError(13, 'Permission denied')" 2022.

Definition world_locked : World :=
  mkWorld (doc Example.world0) locked_app (uidoc Example.world0) [] None [] [].

(** A shared parameter file is configured; it has a group of its own. *)
Definition shared_app : Application :=
  mkApplication "shared.txt"
    {[ "shared.txt" := [mkGroup "Structure" [mkDefinition "Mark" (OtherSpec 1)]] ]}
    "/tmp" true "IOError(13, 'Permission denied')" 2022.

Definition world_shared : World :=
  mkWorld (doc Example.world0) shared_app (uidoc Example.world0) [] None [] [].

(** Both parameters are bound to walls already.  Element 105 has a
    read-only "Number" parameter and an unrelated "Comments" parameter. *)
Definition world_readonly : World :=
  mkWorld (mkDocument
             (<[101 := Example.wall 1]>
                (<[105 := mkElement (Some Example.walls)
                            (Some (LocationPoint (Example.pt 3)))
                            [Example.blank "Grid Square"; mkParam "Number" true "7";
                             mkParam "Comments" false "keep"]]> ∅))
             [(mkDefinition "Grid Square" SpecTypeId_String_Text,
               (mkBinding InstanceBinding {[Example.walls]}, PG_DATA));
              (mkDefinition "Number" SpecTypeId_String_Text,
               (mkBinding InstanceBinding {[Example.walls]}, PG_DATA))]
             [Example.grid_A; Example.grid_B; Example.grid_1] [])
          Example.host_app (mkUIDocument [101; 105] [101]) [] None [] [].

(** Both parameters are already bound to walls. *)
Definition world_bound : World :=
  mkWorld (mkDocument (doc_elements (doc Example.world0))
             [(mkDefinition "Grid Square" SpecTypeId_String_Text,
               (mkBinding InstanceBinding {[Example.walls]}, PG_DATA));
              (mkDefinition "Number" SpecTypeId_String_Text,
               (mkBinding InstanceBinding {[Example.walls]}, PG_DATA))]
             [Example.grid_A; Example.grid_B; Example.grid_1] [])
          Example.host_app (uidoc Example.world0) [] None [] [].

(** A project on which the script has not run yet: nothing is bound, and
    the two walls have no parameter.  Wall 101 is selected, wall 106 is
    not. *)
Definition world_bystander : World :=
  mkWorld (mkDocument
             (<[101 := mkElement (Some Example.walls)
                         (Some (LocationPoint (Example.pt 1))) []]>
                (<[106 := mkElement (Some Example.walls)
                            (Some (LocationPoint (Example.pt 6))) []]> ∅))
             [] [Example.grid_A; Example.grid_B; Example.grid_1] [])
          Example.host_app (mkUIDocument [101] [101]) [] None [] [].

(** "Number" is bound to walls only; element 107 is a floor and has no
    parameter yet. *)
Definition text_number : ParamDefinition :=
  mkDefinition "Number" SpecTypeId_String_Text.

Definition world_floor : World :=
  mkWorld (mkDocument
             (<[101 := Example.wall 1]>
                (<[107 := mkElement (Some floors)
                            (Some (LocationPoint (Example.pt 7))) []]> ∅))
             [(text_number, (mkBinding InstanceBinding {[Example.walls]}, PG_DATA))]
             [Example.grid_A; Example.grid_B; Example.grid_1] [])
          Example.host_app (mkUIDocument [101; 107] [101]) [] None [] [].

(** All grids run the same way. *)
Definition world_parallel : World :=
  mkWorld (mkDocument (doc_elements (doc Example.world0)) []
                      [Example.grid_A; Example.grid_B] [])
          Example.host_app (uidoc Example.world0) [] None [] [].

End Cases.

(** * Facts about the embedding *)

Lemma bind_unfold {A B} (m : Script A) (k : A → Script B) (w : World) :
  (m ≫= k) w = match m w with
               | Done a w' => k a w'
               | Exited w' => Exited w'
               | Raised e w' => Raised e w'
               end.
Proof. reflexivity. Qed.

Lemma add_calls_nil (w : World) : add_calls [] w = w.
Proof. destruct w. unfold add_calls. simpl. by rewrite app_nil_r. Qed.

Lemma add_calls_app (cs1 cs2 : list HostCall) (w : World) :
  add_calls cs2 (add_calls cs1 w) = add_calls (cs1 ++ cs2) w.
Proof. unfold add_calls. simpl. by rewrite app_assoc. Qed.

Lemma new_calls_add (cs : list HostCall) (w : World) :
  new_calls w (add_calls cs w) = cs.
Proof. unfold new_calls. simpl. by rewrite drop_app_length. Qed.

Lemma Qlt_bool_iff (x y : Q) : Qlt_bool x y = true ↔ (x < y)%Q.
Proof.
  unfold Qlt_bool. rewrite negb_true_iff, <- not_true_iff_false, Qle_bool_iff.
  split; [apply Qnot_le_lt | apply Qlt_not_le].
Qed.

Lemma Qlt_bool_false (x y : Q) : Qlt_bool x y = false ↔ (y <= x)%Q.
Proof. unfold Qlt_bool. by rewrite negb_false_iff, Qle_bool_iff. Qed.

(** ** Invariants of a script *)

Section Keeps.

Context {X : Type} (I : X → World → Prop).

Lemma keeps_ret {A} (a : A) : keeps I (mret a : Script A).
Proof. by intros x w Hw. Qed.

Lemma keeps_raise {A} (e : string) : keeps I (raise e : Script A).
Proof. by intros x w Hw. Qed.

Lemma keeps_get : keeps I get.
Proof. by intros x w Hw. Qed.

Lemma keeps_attribute {A} (f : Element → A) (elem : ElementId) :
  keeps I (attribute f elem).
Proof. intros x w Hw. unfold attribute. by destruct (_ !! _). Qed.

Lemma keeps_bind {A B} (m : Script A) (k : A → Script B) :
  keeps I m → (∀ a, keeps I (k a)) → keeps I (m ≫= k).
Proof.
  intros Hm Hk x w Hw. rewrite bind_unfold.
  specialize (Hm x w Hw). destruct (m w) as [a w'|w'|? w']; simpl in *; try done.
  by apply Hk.
Qed.

Lemma keeps_for_each {A S} (l : list A) (body : S → A → Script S) (s : S) :
  (∀ s x, keeps I (body s x)) → keeps I (for_each l body s).
Proof.
  intros Hbody. revert s. induction l as [|a l IH]; intros s; simpl.
  - apply keeps_ret.
  - apply keeps_bind; [apply Hbody | intros s'; apply IH].
Qed.

Lemma keeps_try_except {A} (body : Script A) (handler : string → Script A) :
  keeps I body → (∀ e, keeps I (handler e)) → keeps I (try_except body handler).
Proof.
  intros Hb Hh x w Hw. unfold try_except.
  specialize (Hb x w Hw). destruct (body w) as [a w'|w'|? w']; simpl in *; try done.
  by apply Hh.
Qed.

Lemma keeps_modify (f : World → World) :
  (∀ x w, I x w → I x (f w)) → keeps I (modify f).
Proof. intros Hf x w Hw. by apply Hf. Qed.

Lemma keeps_modify_doc (f : Document → Document) :
  (∀ x w, is_Some (active w) → I x w → I x (with_doc (f (doc w)) w)) →
  keeps I (modify_doc f).
Proof.
  intros Hf x w Hw. unfold modify_doc.
  destruct (active w) eqn:Ha; simpl; [|done]. apply Hf; [by rewrite Ha | done].
Qed.

(** The continuation may rely on a fact [Q] about the value [m] returns. *)
Lemma keeps_bind_result {A B} (Q : A → Prop) (m : Script A) (k : A → Script B) :
  keeps I m → (∀ w a w', m w = Done a w' → Q a) →
  (∀ a, Q a → keeps I (k a)) → keeps I (m ≫= k).
Proof.
  intros Hm HQ Hk x w Hw. rewrite bind_unfold.
  specialize (Hm x w Hw). specialize (HQ w).
  destruct (m w) as [a w'|w'|? w']; simpl in *; try done.
  apply Hk; eauto.
Qed.

Lemma keeps_for_each_in {A S} (l : list A) (body : S → A → Script S) (s : S) :
  (∀ s x, x ∈ l → keeps I (body s x)) → keeps I (for_each l body s).
Proof.
  revert s. induction l as [|a l IH]; intros s Hbody; simpl.
  - apply keeps_ret.
  - apply keeps_bind; [apply Hbody; left | intros s'; apply IH].
    intros s'' x Hx. apply Hbody. by right.
Qed.

End Keeps.

(** ** Counting host calls *)

Section Bounded.

Context (μ : HostCall → bool).

Lemma bounded_silent {A} (m : Script A) :
  (∀ w, calls (result_world (m w)) = calls w) → bounded μ 0 m.
Proof. intros Hm w. exists []. by rewrite app_nil_r, Hm. Qed.

Lemma bounded_weaken {A} (n n' : nat) (m : Script A) :
  n ≤ n' → bounded μ n m → bounded μ n' m.
Proof. intros Hle Hm w. destruct (Hm w) as (cs & ? & ?). exists cs. split; [done | lia]. Qed.

Lemma bounded_bind_result {A B} (Q : A → Prop) (n1 n2 : nat)
    (m : Script A) (k : A → Script B) :
  bounded μ n1 m → (∀ w a w', m w = Done a w' → Q a) →
  (∀ a, Q a → bounded μ n2 (k a)) → bounded μ (n1 + n2) (m ≫= k).
Proof.
  intros Hm HQ Hk w. rewrite bind_unfold.
  destruct (Hm w) as (cs1 & Hcs1 & Hn1). specialize (HQ w).
  destruct (m w) as [a w'|w'|? w']; simpl in *;
    try (exists cs1; split; [done | lia]).
  destruct (Hk a (HQ _ _ eq_refl) w') as (cs2 & Hcs2 & Hn2).
  exists (cs1 ++ cs2). rewrite Hcs2, Hcs1, app_assoc. split; [done|].
  rewrite filter_app, length_app. lia.
Qed.

Lemma bounded_bind {A B} (n1 n2 : nat) (m : Script A) (k : A → Script B) :
  bounded μ n1 m → (∀ a, bounded μ n2 (k a)) → bounded μ (n1 + n2) (m ≫= k).
Proof. intros Hm Hk. apply (bounded_bind_result (λ _, True)); auto. Qed.

Lemma bounded_ret {A} (a : A) : bounded μ 0 (mret a : Script A).
Proof. by apply bounded_silent. Qed.

Lemma bounded_for_each {A S} (n : nat) (l : list A) (body : S → A → Script S) (s : S) :
  (∀ s x, bounded μ n (body s x)) → bounded μ (length l * n) (for_each l body s).
Proof.
  intros Hbody. revert s. induction l as [|a l IH]; intros s; simpl.
  - apply bounded_ret.
  - apply bounded_bind; [apply Hbody | intros s'; apply IH].
Qed.

Lemma bounded_attribute {A} (f : Element → A) (elem : ElementId) :
  bounded μ 0 (attribute f elem).
Proof. apply bounded_silent. intros w. unfold attribute. by destruct (_ !! _). Qed.

Lemma bounded_log (c : HostCall) :
  bounded μ (if μ c then 1 else 0) (modify (log_call c)).
Proof.
  intros w. exists [c]. split; [done|].
  rewrite filter_cons, filter_nil. destruct (μ c); simpl; lia.
Qed.

Lemma bounded_modify_doc (f : Document → Document) : bounded μ 0 (modify_doc f).
Proof. apply bounded_silent. intros w. unfold modify_doc. by destruct (active w). Qed.

Lemma bounded_Start (name : string) :
  μ (Call_Start name) = false → bounded μ 0 (Transaction_Start name).
Proof.
  intros Hμ w. unfold Transaction_Start. destruct (active w); simpl.
  - exists []. by rewrite app_nil_r.
  - exists [Call_Start name]. split; [done|]. rewrite filter_cons, Hμ. done.
Qed.

Lemma bounded_Commit :
  (∀ name, μ (Call_Commit name) = false) → bounded μ 0 Transaction_Commit.
Proof.
  intros Hμ w. unfold Transaction_Commit. destruct (active w) as [[name snap]|]; simpl.
  - exists [Call_Commit name]. split; [done|]. rewrite filter_cons, Hμ. done.
  - exists []. by rewrite app_nil_r.
Qed.

Lemma bounded_Parameter_Set (elem : ElementId) (name value : string) :
  bounded μ (if μ (Call_Set elem name value) then 1 else 0)
          (Parameter_Set elem name value).
Proof.
  unfold Parameter_Set.
  apply (bounded_weaken ((if μ (Call_Set elem name value) then 1 else 0) + 0));
    [lia|].
  apply bounded_bind; [apply bounded_log | intros _; apply bounded_modify_doc].
Qed.

End Bounded.

(** Takes a [keeps] goal apart along the structure of the script. *)
Ltac keeps_step :=
  first
    [ apply keeps_ret | apply keeps_raise | apply keeps_get | apply keeps_attribute
    | apply keeps_bind; [|intros ?]
    | apply keeps_for_each; intros ? ?
    | apply keeps_try_except; [|intros ?]
    | match goal with
      | |- keeps _ (match ?x with _ => _ end) => destruct x
      end ].

(** ** The sort *)

Lemma insert_by_distance_perm (x : ElementId * Q) (l : list (ElementId * Q)) :
  insert_by_distance x l ≡ₚ x :: l.
Proof.
  induction l as [|y l IH]; simpl; [done|].
  destruct (Qle_bool x.2 y.2); [done|]. rewrite IH. apply Permutation_swap.
Qed.

Lemma sort_by_distance_perm (l : list (ElementId * Q)) : sort_by_distance l ≡ₚ l.
Proof.
  induction l as [|x l IH]; simpl; [done|].
  by rewrite insert_by_distance_perm, IH.
Qed.

Lemma sort_by_distance_length (l : list (ElementId * Q)) :
  length (sort_by_distance l) = length l.
Proof. apply Permutation_length, sort_by_distance_perm. Qed.

Lemma insert_by_distance_sorted (x : ElementId * Q) (l : list (ElementId * Q)) :
  StronglySorted nearer_or_equal l →
  StronglySorted nearer_or_equal (insert_by_distance x l).
Proof.
  induction 1 as [|y l Hl IH Hy]; simpl.
  - repeat constructor.
  - destruct (Qle_bool x.2 y.2) eqn:Hxy.
    + apply Qle_bool_iff in Hxy. constructor; [by constructor|].
      constructor; [done|]. eapply Forall_impl; [done|].
      intros z Hz. unfold nearer_or_equal in *. by eapply Qle_trans.
    + constructor; [done|]. rewrite insert_by_distance_perm. constructor; [|done].
      unfold nearer_or_equal. apply Qlt_le_weak, Qlt_bool_iff.
      unfold Qlt_bool. by rewrite Hxy.
Qed.

Lemma sort_by_distance_sorted (l : list (ElementId * Q)) :
  StronglySorted nearer_or_equal (sort_by_distance l).
Proof.
  induction l as [|x l IH]; simpl; [constructor|].
  by apply insert_by_distance_sorted.
Qed.

(** Stability: elements at equal distance keep their order. *)
Lemma insert_by_distance_stable (q : Q) (x : ElementId * Q) (l : list (ElementId * Q)) :
  filter (λ y, Qeq_bool y.2 q = true) (insert_by_distance x l)
  = filter (λ y, Qeq_bool y.2 q = true) (x :: l).
Proof.
  induction l as [|y l IH]; simpl; [done|].
  destruct (Qle_bool x.2 y.2) eqn:Hxy; [done|].
  rewrite (filter_cons _ y), IH, !(filter_cons _ x), (filter_cons _ y).
  destruct (decide (Qeq_bool y.2 q = true)) as [Hy|Hy]; [|done].
  destruct (decide (Qeq_bool x.2 q = true)) as [Hx|Hx]; [|done].
  apply Qeq_bool_iff in Hx, Hy. exfalso.
  assert (Qle_bool x.2 y.2 = true); [|congruence].
  apply Qle_bool_iff. rewrite Hx, Hy. apply Qle_refl.
Qed.

Lemma sort_by_distance_stable (q : Q) (l : list (ElementId * Q)) :
  filter (λ y, Qeq_bool y.2 q = true) (sort_by_distance l)
  = filter (λ y, Qeq_bool y.2 q = true) l.
Proof.
  induction l as [|x l IH]; simpl; [done|].
  by rewrite insert_by_distance_stable, !filter_cons, IH.
Qed.

Lemma StronglySorted_filter {A} (R : relation A) (P : A → Prop)
    `{!∀ x, Decision (P x)} (l : list A) :
  StronglySorted R l → StronglySorted R (filter P l).
Proof.
  induction 1 as [|x l Hl IH Hx]; [constructor|].
  rewrite filter_cons. destruct (decide (P x)); [|done].
  constructor; [done|]. apply Forall_forall. intros y [_ Hy]%list_elem_of_filter.
  rewrite Forall_forall in Hx. by apply Hx.
Qed.

Lemma StronglySorted_lookup_lt {A} (R : relation A) (l : list A) (i j : nat) (x y : A) :
  StronglySorted R l → i < j → l !! i = Some x → l !! j = Some y → R x y.
Proof.
  intros Hl. revert i j. induction Hl as [|z l Hl IH Hz]; intros i j Hij Hi Hj;
    [done|].
  destruct j as [|j]; [lia|]. destruct i as [|i]; simpl in *.
  - injection Hi as ->. rewrite Forall_forall in Hz. apply Hz.
    by eapply list_elem_of_lookup_2.
  - apply (IH i j); [lia | done | done].
Qed.

Lemma number_calls_lookup (num k : nat) (l : list (ElementId * Q)) :
  number_calls num l !! k = (λ x, Call_Set x.1 "Number" (str (num + k))) <$> l !! k.
Proof.
  revert num k. induction l as [|x l IH]; intros num k; [done|].
  destruct k as [|k]; simpl.
  - by rewrite Nat.add_0_r.
  - rewrite IH. by replace (num + 1 + k) with (num + S k) by lia.
Qed.

Lemma number_calls_are_number_sets (num : nat) (l : list (ElementId * Q)) :
  filter (is_Set_of "Number") (number_calls num l) = number_calls num l.
Proof.
  revert num. induction l as [|x l IH]; intros num; simpl; [done|].
  rewrite filter_cons. simpl. by rewrite IH.
Qed.

Lemma number_calls_written (num : nat) (l : list (ElementId * Q)) :
  written_ids (number_calls num l) = list_to_set l.*1.
Proof.
  unfold written_ids. revert num. induction l as [|x l IH]; intros num; csimpl; [done|].
  by rewrite IH.
Qed.

Lemma no_set_calls (cs : list HostCall) (name : string) :
  Forall (λ c, is_Set c = false) cs →
  filter (is_Set_of name) cs = [] ∧ written_ids cs = ∅.
Proof.
  unfold written_ids. induction 1 as [|c cs Hc Hcs [IH1 IH2]]; [done|].
  rewrite filter_cons. destruct c; simpl in *; try done.
Qed.

Lemma written_ids_app (cs1 cs2 : list HostCall) :
  written_ids (cs1 ++ cs2) = written_ids cs1 ∪ written_ids cs2.
Proof. unfold written_ids. by rewrite omap_app, list_to_set_app_L. Qed.

(** Unfolds the monad and the host primitives in the goal. *)
Ltac unfold_script :=
  unfold mbind, mret, Script_bind, Script_ret, bind, ret, modify, get, raise,
    try_except, alert, attribute, modify_doc, Transaction_Start,
    Transaction_Commit, Transaction_RollBack.

(** ** Before the assignment transaction *)

Lemma gains_refl (e : Element) : gains e e.
Proof. split_and!; [done | done |]. exists []. by rewrite app_nil_r. Qed.

Lemma gains_trans (e1 e2 e3 : Element) : gains e1 e2 → gains e2 e3 → gains e1 e3.
Proof.
  intros (Hc & Hl & x & Hx & Hxall) (Hc' & Hl' & y & Hy & Hyall).
  split_and!; [congruence | congruence |]. exists (x ++ y).
  split; [by rewrite Hy, Hx, app_assoc | by apply Forall_app].
Qed.

Lemma elements_gain_refl (es : gmap ElementId Element) : elements_gain es es.
Proof. intros id. destruct (es !! id); constructor. apply gains_refl. Qed.

Lemma elements_gain_trans (es1 es2 es3 : gmap ElementId Element) :
  elements_gain es1 es2 → elements_gain es2 es3 → elements_gain es1 es3.
Proof.
  intros H12 H23 id. specialize (H12 id). specialize (H23 id).
  destruct H12 as [e1 e2 H|]; inversion H23 as [e2' e3 H'|]; subst; constructor.
  by eapply gains_trans.
Qed.

Lemma gains_give_parameter (d : ParamDefinition) (b : Binding) (e : Element) :
  gains e (give_parameter d b e).
Proof.
  unfold give_parameter. destruct (binding_Kind b); [|apply gains_refl].
  destruct (elem_Category e) eqn:Hc; [|apply gains_refl].
  destruct (_ && _); [|apply gains_refl].
  split_and!; [done | done |]. eexists. split; [done|]. by repeat constructor.
Qed.

Lemma elements_gain_give (d : ParamDefinition) (b : Binding)
    (es : gmap ElementId Element) :
  elements_gain es (give_parameter d b <$> es).
Proof.
  intros id. rewrite lookup_fmap. destruct (es !! id); constructor.
  apply gains_give_parameter.
Qed.

Lemma Insert_gain (key : ParamDefinition) (b : Binding) (g : BuiltInParameterGroup)
    (d : Document) :
  elements_gain (doc_elements d) (doc_elements (ParameterBindings_Insert key b g d)).
Proof.
  simpl. case_bool_decide; [apply elements_gain_refl | apply elements_gain_give].
Qed.

Lemma ReInsert_gain (key : ParamDefinition) (b : Binding) (d : Document) :
  elements_gain (doc_elements d) (doc_elements (ParameterBindings_ReInsert key b d)).
Proof.
  simpl. case_bool_decide; [apply elements_gain_give | apply elements_gain_refl].
Qed.

Lemma gains_lookup (name : string) (e e' : Element) (p : Param) :
  gains e e' → LookupParameter name e = Some p → LookupParameter name e' = Some p.
Proof.
  intros (_ & _ & extra & Hx & _). unfold LookupParameter. rewrite Hx.
  generalize (elem_Parameters e). intros l.
  induction l as [|q l IH]; simpl; [done|]. by destruct (has_param_name name q).
Qed.

Lemma elements_gain_lookup (es es' : gmap ElementId Element) (id : ElementId)
    (e : Element) :
  elements_gain es es' → es !! id = Some e →
  ∃ e', es' !! id = Some e' ∧ gains e e'.
Proof. intros Hg He. specialize (Hg id). rewrite He in Hg. inversion Hg. eauto. Qed.

Lemma elements_gain_is_Some (es es' : gmap ElementId Element) (id : ElementId) :
  elements_gain es es' → is_Some (es' !! id) ↔ is_Some (es !! id).
Proof.
  intros Hg. specialize (Hg id). destruct Hg; split; intros [? ?]; by eauto.
Qed.

Lemma setup_refl (w : World) : active w = None → setup 0 w w.
Proof.
  intros Ha. split_and!; try done.
  - apply elements_gain_refl.
  - exists []. by rewrite app_nil_r.
  - exists []. by rewrite app_nil_r.
  - exists []. by rewrite app_nil_r.
Qed.

Lemma setup_trans (n1 n2 : nat) (w1 w2 w3 : World) :
  setup n1 w1 w2 → setup n2 w2 w3 → setup (n1 + n2) w1 w3.
Proof.
  intros (He & [Hg Hcg] & Hu & Ha & (cs & Hcs & Hset) & (ts & Hts & Hn & Hnm)
            & al & Hal)
         (He' & [Hg' Hcg'] & Hu' & Ha' & (cs' & Hcs' & Hset') & (ts' & Hts' & Hn' & Hnm')
            & al' & Hal').
  split_and!; try congruence.
  - by eapply elements_gain_trans.
  - exists (cs ++ cs'). rewrite Hcs', Hcs, app_assoc. split; [done|].
    by apply Forall_app.
  - exists (ts ++ ts'). rewrite Hts', Hts, app_assoc, length_app.
    split_and!; [done | lia | by apply Forall_app].
  - exists (al ++ al'). by rewrite Hal', Hal, app_assoc.
Qed.

Lemma setup_weaken (n n' : nat) (w w' : World) : n ≤ n' → setup n w w' → setup n' w w'.
Proof.
  intros Hle (He & Hg & Hu & Ha & Hcs & (ts & Hts & Hn & Hnm) & Hal).
  split_and!; try done; [apply Hg | apply Hg|]. exists ts. split_and!; [done | lia | done].
Qed.

Lemma update_name_ne (name : string) : "Update binding for " +:+ name ≠ assign_name.
Proof. done. Qed.

Lemma add_name_ne (name : string) : "Add Project Parameter: " +:+ name ≠ assign_name.
Proof. done. Qed.

Lemma create_parameter_outcome (name : string) (cat_set : CategorySet)
    (group : BuiltInParameterGroup) (tx : string) (snapshot : Document) (w : World) :
  active w = Some (tx, snapshot) →
  match create_parameter name cat_set group w with
  | Done _ w' =>
      active w' = None ∧ transactions w' = transactions w ++ [(tx, Committed)] ∧
      elements_gain (doc_elements (doc w)) (doc_elements (doc w')) ∧
      Grids (doc w') = Grids (doc w) ∧
      curved_grids (doc w') = curved_grids (doc w) ∧
      uidoc w' = uidoc w ∧ calls w' = calls w ++ [Call_Commit tx] ∧
      alerts w' = alerts w
  | Raised e w' =>
      active w' = Some (tx, snapshot) ∧ transactions w' = transactions w ∧
      uidoc w' = uidoc w ∧ calls w' = calls w ∧ alerts w' = alerts w
  | Exited _ => False
  end.
Proof.
  intros Ha.
  unfold create_parameter, update_shared_file, set_SharedParametersFilename,
    write_empty_file.
  unfold_script. simpl.
  destruct (OpenSharedParameterFile (app w)) as [file|] eqn:Hopen.
  - destruct (find (has_group_name group_name) file) as [g|]; simpl.
    + destruct (find (has_def_name name) (Definitions g)) as [d|]; simpl;
        repeat (rewrite Ha; simpl); split_and!; try done;
        (case_bool_decide; [apply elements_gain_refl | apply elements_gain_give]).
    + repeat (rewrite Ha; simpl). split_and!; try done.
      case_bool_decide; [apply elements_gain_refl | apply elements_gain_give].
  - destruct (tempdir_writable (app w)) eqn:Htmp; simpl; [|done].
    unfold OpenSharedParameterFile. simpl. rewrite lookup_insert_eq. simpl.
    repeat (rewrite Ha; simpl). split_and!; try done.
    case_bool_decide; [apply elements_gain_refl | apply elements_gain_give].
Qed.

Lemma ensure_text_parameter_outcome (name : string) (categories : list Category)
    (w : World) :
  active w = None →
  match ensure_text_parameter name categories w with
  | Done _ w' => setup 1 w w' ∧ alerts w' = alerts w
  | Exited w' => setup 1 w w' ∧ length (alerts w) < length (alerts w') ∧ doc w' = doc w
  | Raised _ _ => False
  end.
Proof.
  intros Ha. unfold ensure_text_parameter. rewrite bind_unfold. simpl.
  destruct (find _ (ParameterBindings (doc w))) as [[definition [binding g]]|].
  - unfold update_binding. destruct (bool_decide _).
    + unfold_script. rewrite Ha. simpl.
      split; [|done]. split_and!; try done.
      * apply ReInsert_gain.
      * eexists [_; _]. split; [by rewrite <- app_assoc | by repeat constructor].
      * eexists [_]. split_and!; [done | done |].
        constructor; [apply update_name_ne | constructor].
      * exists []. by rewrite app_nil_r.
    + split; [|done]. apply (setup_weaken 0); [lia|]. by apply setup_refl.
  - rewrite bind_unfold. unfold Transaction_Start. rewrite Ha. simpl.
    unfold try_except.
    match goal with |- context [create_parameter ?n ?c ?g ?w0] =>
      pose proof (create_parameter_outcome n c g _ _ w0 eq_refl) as Hc;
      destruct (create_parameter n c g w0) as [[] w'|w'|e w'] end; [|done|].
    + destruct Hc as (Ha' & Ht & He & Hg & Hcg & Hu & Hcs & Hal). simpl in *.
      split; [|done]. split_and!; try done.
      * eexists [_; _]. rewrite Hcs.
        split; [by rewrite <- app_assoc | by repeat constructor].
      * eexists [_]. split_and!; [done | done |].
        constructor; [apply add_name_ne | constructor].
      * exists []. by rewrite app_nil_r.
    + destruct Hc as (Ha' & Ht & Hu & Hcs & Hal). simpl in *.
      rewrite bind_unfold. unfold Transaction_RollBack. rewrite Ha'. simpl.
      split_and!; try done.
      * split_and!; try done.
        -- apply elements_gain_refl.
        -- eexists [_; _]. rewrite Hcs.
           split; [by rewrite <- app_assoc | by repeat constructor].
        -- eexists [_]. rewrite Ht. split_and!; [done | done |].
           constructor; [apply add_name_ne | constructor].
        -- eexists [_]. by rewrite Hal.
      * rewrite Hal, length_app. simpl. lia.
Qed.

Section HostFacts.

Variable K : Kernel.

(** ** Grid intersections *)

Lemma classify_grids_acc (grids vs hs : list Grid) :
  foldl (λ '(vertical_grids, horizontal_grids) grid,
           let curve := grid_Curve grid in
           let direction := Direction curve in
           if Qlt_bool (Qabs (Y direction)) (Qabs (X direction))
           then (vertical_grids, horizontal_grids ++ [grid])
           else (vertical_grids ++ [grid], horizontal_grids))
        (vs, hs) grids
  = (vs ++ filter (λ g, is_horizontal g = false) grids,
     hs ++ filter (λ g, is_horizontal g = true) grids).
Proof.
  revert vs hs. induction grids as [|g grids IH]; intros vs hs; simpl.
  - by rewrite !app_nil_r.
  - rewrite !filter_cons. fold (is_horizontal g).
    destruct (is_horizontal g) eqn:Hg; rewrite IH; simpl;
      by rewrite <- app_assoc.
Qed.

Lemma classify_grids_filter (grids : list Grid) :
  classify_grids grids
  = (filter (λ g, is_horizontal g = false) grids,
     filter (λ g, is_horizontal g = true) grids).
Proof. unfold classify_grids. by rewrite classify_grids_acc. Qed.

Lemma intersect_step_eq (v h : Grid) (acc : list (XYZ * Grid * Grid)) (w : World) :
  intersect_step K v acc h w
  = Done (acc ++ pair_intersection K v h) (add_calls [Call_Intersect v h] w).
Proof.
  unfold intersect_step, pair_intersection, call_Intersect.
  rewrite !bind_unfold. simpl.
  destruct (Intersect K (grid_Curve v) (grid_Curve h)) as [res results].
  destruct res, results; simpl; try by rewrite app_nil_r.
  reflexivity.
Qed.

Lemma intersect_row_eq (v : Grid) (h_grids : list Grid)
    (acc : list (XYZ * Grid * Grid)) (w : World) :
  for_each h_grids (intersect_step K v) acc w
  = Done (acc ++ (h ← h_grids; pair_intersection K v h))
         (add_calls (Call_Intersect v <$> h_grids) w).
Proof.
  revert acc w. induction h_grids as [|h hs IH]; intros acc w; simpl.
  - by rewrite app_nil_r, add_calls_nil.
  - rewrite bind_unfold, intersect_step_eq, IH, add_calls_app.
    by rewrite <- app_assoc.
Qed.

Lemma intersect_rows_eq (v_grids h_grids : list Grid)
    (acc : list (XYZ * Grid * Grid)) (w : World) :
  for_each v_grids (λ intersections v,
    for_each h_grids (intersect_step K v) intersections) acc w
  = Done (acc ++ (v ← v_grids; h ← h_grids; pair_intersection K v h))
         (add_calls (v ← v_grids; Call_Intersect v <$> h_grids) w).
Proof.
  revert acc w. induction v_grids as [|v vs IH]; intros acc w; simpl.
  - by rewrite app_nil_r, add_calls_nil.
  - rewrite bind_unfold, intersect_row_eq, IH, add_calls_app.
    by rewrite <- app_assoc.
Qed.

Lemma get_grid_intersections_eq (v_grids h_grids : list Grid) (w : World) :
  get_grid_intersections K v_grids h_grids w
  = Done (v ← v_grids; h ← h_grids; pair_intersection K v h)
         (add_calls (v ← v_grids; Call_Intersect v <$> h_grids) w).
Proof. unfold get_grid_intersections. by rewrite intersect_rows_eq. Qed.

Lemma elem_of_pair_intersection (v h v' h' : Grid) (ip : XYZ) :
  (ip, v', h') ∈ pair_intersection K v h ↔
  v' = v ∧ h' = h ∧
  ∃ rest, Intersect K (grid_Curve v) (grid_Curve h) = (Overlap, ip :: rest).
Proof.
  unfold pair_intersection.
  destruct (Intersect K (grid_Curve v) (grid_Curve h)) as [res results].
  destruct res, results as [|ip0 rest];
    try (split; [intros Hin; by apply elem_of_nil in Hin
                | intros (_ & _ & rest' & Heq); congruence]).
  rewrite list_elem_of_singleton. split.
  - intros [= -> -> ->]. eauto.
  - intros (-> & -> & rest' & [= -> _]). reflexivity.
Qed.

(** C4. The intersection list is, in order, one tuple (first result
    point, v, h) for every vertical grid v and horizontal grid h whose
    curves the host reports as overlapping in at least one point, a grid
    being horizontal when |direction.X| > |direction.Y| and vertical
    otherwise; the host is asked about (vertical, horizontal) pairs only. *)
Theorem grid_intersections_exact (grids : list Grid) (w : World) :
  let vh := classify_grids grids in
  let asked := v ← vh.1; Call_Intersect v <$> vh.2 in
  (∀ g, is_horizontal g = true ↔
        (Qabs (Y (Direction (grid_Curve g))) < Qabs (X (Direction (grid_Curve g))))%Q) ∧
  (∀ g, g ∈ vh.1 ↔ g ∈ grids ∧ is_horizontal g = false) ∧
  (∀ g, g ∈ vh.2 ↔ g ∈ grids ∧ is_horizontal g = true) ∧
  get_grid_intersections K vh.1 vh.2 w
    = Done (intersections_spec K grids) (add_calls asked w) ∧
  (∀ ip v h, (ip, v, h) ∈ intersections_spec K grids ↔
     v ∈ vh.1 ∧ h ∈ vh.2 ∧
     ∃ rest, Intersect K (grid_Curve v) (grid_Curve h) = (Overlap, ip :: rest)) ∧
  (∀ v h, Call_Intersect v h ∈ asked →
     is_horizontal v = false ∧ is_horizontal h = true).
Proof.
  intros vh asked. subst vh asked. rewrite classify_grids_filter. simpl.
  split_and!.
  - intros g. apply Qlt_bool_iff.
  - intros g. by rewrite list_elem_of_filter, (comm and).
  - intros g. by rewrite list_elem_of_filter, (comm and).
  - apply get_grid_intersections_eq.
  - intros ip v h. unfold intersections_spec. rewrite list_elem_of_bind. split.
    + intros (v' & Hin & Hv'). apply list_elem_of_bind in Hin as (h' & Hin & Hh').
      apply elem_of_pair_intersection in Hin as (-> & -> & Hrest). eauto.
    + intros (Hv & Hh & Hrest). exists v. split; [|done].
      apply list_elem_of_bind. exists h. split; [|done].
      apply elem_of_pair_intersection. eauto.
  - intros v h Hin. apply list_elem_of_bind in Hin as (v' & Hin & Hv').
    apply list_elem_of_fmap in Hin as (h' & [= -> ->] & Hh').
    apply list_elem_of_filter in Hv' as [Hv' _].
    apply list_elem_of_filter in Hh' as [Hh' _]. done.
Qed.

(** ** The steps before the assignment transaction *)

Lemma setup_add_alert (msg : string) (w : World) :
  active w = None → setup 0 w (add_alert msg w).
Proof.
  intros Ha. split_and!; try done.
  - apply elements_gain_refl.
  - exists []. by rewrite app_nil_r.
  - exists []. by rewrite app_nil_r.
  - by exists [msg].
Qed.

Lemma setup_add_calls (cs : list HostCall) (w : World) :
  active w = None → Forall (λ c, is_Set c = false) cs → setup 0 w (add_calls cs w).
Proof.
  intros Ha Hcs. split_and!; try done.
  - apply elements_gain_refl.
  - by exists cs.
  - exists []. by rewrite app_nil_r.
  - exists []. by rewrite app_nil_r.
Qed.

Lemma setup_alerts_le (n : nat) (w w' : World) :
  setup n w w' → length (alerts w) ≤ length (alerts w').
Proof.
  intros (_ & _ & _ & _ & _ & _ & al & ->). rewrite length_app. lia.
Qed.

Lemma setup_element_point (n : nat) (w w' : World) (id : ElementId) :
  setup n w w' → element_point K w' id = element_point K w id.
Proof.
  intros (He & _). unfold element_point. specialize (He id).
  destruct He as [e e' (_ & Hl & _)|]; simpl; [|done]. by rewrite Hl.
Qed.

Lemma setup_elem_value (n : nat) (w w' : World) (name : string) (eid : ElementId)
    (v : string) :
  setup n w w' → elem_value w name eid = Some v → elem_value w' name eid = Some v.
Proof.
  intros (He & _). unfold elem_value. specialize (He eid).
  destruct He as [e e' Hg|]; simpl; [|done]. unfold param_value.
  destruct (LookupParameter name e) as [p|] eqn:Hp; simpl; [|done].
  by rewrite (gains_lookup name e e' p Hg Hp).
Qed.

Lemma setup_valid (n : nat) (ids : list ElementId) (w w' : World) :
  setup n w w' → valid_ids ids w → valid_ids ids w'.
Proof.
  intros (He & _) Hv id Hid. apply (elements_gain_is_Some _ _ id He). by apply Hv.
Qed.

Lemma setup_picked (n : nat) (w w' : World) :
  setup n w w' →
  find (λ c, bool_decide (is_Some (doc_elements (doc w') !! c))
             && AllowElement (mkFilter (Selection (uidoc w))) c)
       (clicks (uidoc w'))
  = picked w.
Proof.
  intros (He & _ & Hu & _). unfold picked. rewrite Hu.
  induction (clicks (uidoc w)) as [|c l IH]; simpl; [done|].
  rewrite (bool_decide_ext _ _ (elements_gain_is_Some _ _ c He)), IH. done.
Qed.

Lemma collect_categories_outcome (sel : list ElementId) (acc : gset Category)
    (w : World) :
  match for_each sel (λ selected_categories eid,
          Category ← attribute elem_Category eid;
          match Category with
          | Some c => mret (selected_categories ∪ {[c]})
          | None => mret selected_categories
          end) acc w with
  | Done _ w' => w' = w ∧ valid_ids sel w
  | Raised _ w' => w' = w ∧ ¬ valid_ids sel w
  | Exited _ => False
  end.
Proof.
  revert acc. induction sel as [|eid sel IH]; intros acc; simpl.
  - split; [done|]. by intros id Hid%elem_of_nil.
  - rewrite bind_unfold. unfold attribute at 1. rewrite bind_unfold.
    destruct (doc_elements (doc w) !! eid) as [e|] eqn:He.
    + assert (valid_ids (eid :: sel) w ↔ valid_ids sel w) as Hiff.
      { split; intros Hv id Hid.
        - apply Hv. by right.
        - apply elem_of_cons in Hid as [->|Hid]; [by rewrite He | by apply Hv]. }
      destruct (elem_Category e) as [c|]; simpl.
      * specialize (IH (acc ∪ {[c]})).
        destruct (for_each sel _ _ w); rewrite ?Hiff; done.
      * specialize (IH acc). destruct (for_each sel _ _ w); rewrite ?Hiff; done.
    + split; [done|]. intros Hv. destruct (Hv eid) as [e He']; [left|]. congruence.
Qed.

Lemma pick_start_element_eq (sel : list ElementId) (w : World) :
  pick_start_element (mkFilter sel) w
  = match find (λ c, bool_decide (is_Some (doc_elements (doc w) !! c))
                     && AllowElement (mkFilter sel) c) (clicks (uidoc w)) with
    | Some r =>
        Done (Some r) (add_alert "Select the starting element for numbering." w)
    | None =>
        Exited (add_alert "No starting element selected"
                  (add_alert "Select the starting element for numbering." w))
    end.
Proof.
  unfold pick_start_element, PickObject. unfold_script. simpl.
  by destruct (find _ _).
Qed.

Lemma resolve_start_point_eq (r : ElementId) (e : Element) (w : World) :
  doc_elements (doc w) !! r = Some e →
  resolve_start_point K (Some r) w
  = match location_point K (Location e) with
    | Some sp => Done sp w
    | None =>
        Exited (add_alert "The starting element does not have a valid location." w)
    end.
Proof.
  intros He. unfold resolve_start_point, get_element_location. unfold_script.
  rewrite He. by destruct (location_point K (Location e)).
Qed.

Lemma asked_intersections_no_set (grids : list Grid) :
  Forall (λ c, is_Set c = false) (asked_intersections grids).
Proof.
  apply Forall_forall. intros c Hc.
  apply list_elem_of_bind in Hc as (v & Hc & _).
  by apply list_elem_of_fmap in Hc as (h & -> & _).
Qed.

Lemma collect_intersections_eq (w : World) :
  collect_intersections K w
  = if bool_decide (curved_grids (doc w) = []) then
      let intersections := intersections_spec K (Grids (doc w)) in
      let w' := add_calls (asked_intersections (Grids (doc w))) w in
      if bool_decide (intersections = [])
      then Exited (add_alert "No grid intersections found. Ensure the model has both vertical and horizontal grids." w')
      else Done intersections w'
    else Raised AttributeError w.
Proof.
  unfold collect_intersections. rewrite bind_unfold. simpl.
  destruct (bool_decide (curved_grids (doc w) = [])); rewrite bind_unfold; simpl;
    [|done].
  rewrite classify_grids_filter, bind_unfold, get_grid_intersections_eq.
  fold (intersections_spec K (Grids (doc w))).
  fold (asked_intersections (Grids (doc w))).
  simpl. by destruct (bool_decide _).
Qed.

Lemma picked_in_selection (w : World) (r : ElementId) :
  picked w = Some r →
  r ∈ Selection (uidoc w) ∧ r ∈ clicks (uidoc w) ∧
  is_Some (doc_elements (doc w) !! r).
Proof.
  unfold picked. intros [Hin Hr]%find_some.
  apply andb_true_iff in Hr as [Hr1 Hr2].
  apply bool_decide_eq_true in Hr1. apply bool_decide_eq_true in Hr2.
  split_and!; [done | by apply list_elem_of_In | done].
Qed.

Lemma prepare_outcome (w : World) :
  active w = None →
  match prepare K w with
  | Done (sel, sp, ints) w' =>
      sel = Selection (uidoc w) ∧ sel ≠ [] ∧ valid_ids sel w ∧
      (∃ r, picked w = Some r ∧ element_point K w r = Some sp) ∧
      ints = intersections_spec K (Grids (doc w)) ∧ ints ≠ [] ∧
      setup 2 w w'
  | Exited w' => setup 2 w w' ∧ length (alerts w) < length (alerts w')
  | Raised _ w' =>
      (w' = w ∧ Selection (uidoc w) ≠ [] ∧ ¬ valid_ids (Selection (uidoc w)) w) ∨
      (setup 2 w w' ∧ curved_grids (doc w) ≠ [] ∧
       length (alerts w) < length (alerts w') ∧
       Selection (uidoc w) ≠ [] ∧ valid_ids (Selection (uidoc w)) w ∧
       is_Some (start_location K w))
  end.
Proof.
  intros Ha. unfold prepare. rewrite bind_unfold. simpl.
  destruct (bool_decide (Selection (uidoc w) = [])) eqn:Hsel.
  { (* nothing selected *)
    rewrite bind_unfold. simpl. split.
    - apply (setup_weaken 0); [lia | by apply (setup_add_alert _ w)].
    - rewrite length_app. simpl. lia. }
  apply bool_decide_eq_false in Hsel.
  rewrite bind_unfold. simpl. rewrite bind_unfold. unfold collect_categories.
  pose proof (collect_categories_outcome (Selection (uidoc w)) ∅ w) as Hcat.
  destruct (for_each (Selection (uidoc w)) _ ∅ w) as [cats w1|w1|? w1];
    [|done|destruct Hcat as [-> Hnv]; left; by split_and!].
  destruct Hcat as [-> Hv]. rewrite bind_unfold.
  pose proof (ensure_text_parameter_outcome "Grid Square" (elements cats) w Ha) as H1.
  destruct (ensure_text_parameter "Grid Square" (elements cats) w) as [[] w1|w1|? w1];
    [|split; [by apply (setup_weaken 1); [lia|apply H1] | apply H1]|done].
  destruct H1 as [H1 Hal1]. rewrite bind_unfold.
  assert (active w1 = None) as Ha1 by apply H1.
  pose proof (ensure_text_parameter_outcome "Number" (elements cats) w1 Ha1) as H2.
  destruct (ensure_text_parameter "Number" (elements cats) w1) as [[] w2|w2|? w2];
    [| |done].
  2:{ destruct H2 as (H2 & Hlen & _). split.
      - by apply (setup_trans 1 1 w w1 w2).
      - rewrite <- Hal1. done. }
  destruct H2 as [H2 Hal2].
  pose proof (setup_trans 1 1 _ _ _ H1 H2) as H12. simpl in H12.
  assert (active w2 = None) as Ha2 by apply H2.
  assert (Grids (doc w2) = Grids (doc w)) as Hg by apply H12.
  assert (curved_grids (doc w2) = curved_grids (doc w)) as Hcg by apply H12.
  rewrite bind_unfold, pick_start_element_eq, (setup_picked 2 w w2 H12).
  set (w3 := add_alert "Select the starting element for numbering." w2).
  assert (setup 2 w w3) as H3.
  { apply (setup_trans 2 0 w w2 w3); [done | by apply setup_add_alert]. }
  destruct (picked w) as [r|] eqn:Hpick.
  2:{ (* the user gave up *)
      split.
      - apply (setup_trans 2 0 w w3 _); [done | by apply setup_add_alert].
      - simpl. rewrite !length_app. simpl.
        pose proof (setup_alerts_le _ _ _ H12). lia. }
  destruct (picked_in_selection w r Hpick) as (Hrsel & _ & e & Hre).
  destruct (elements_gain_lookup _ _ r e (proj1 H3) Hre)
    as (e3 & Hre3 & (_ & Hl3 & _)).
  rewrite bind_unfold, (resolve_start_point_eq r e3 w3 Hre3), Hl3.
  destruct (location_point K (Location e)) as [sp|] eqn:Hsp.
  2:{ (* the start element has no location *)
      split.
      - apply (setup_trans 2 0 w w3 _); [done | by apply setup_add_alert].
      - simpl. rewrite !length_app. simpl.
        pose proof (setup_alerts_le _ _ _ H12). lia. }
  rewrite bind_unfold, collect_intersections_eq. simpl. rewrite Hg, Hcg.
  destruct (bool_decide (curved_grids (doc w) = [])) eqn:Hcurved.
  2:{ (* a grid that is not a line *)
      apply bool_decide_eq_false in Hcurved. right.
      split_and!; [done | done | | done | done |].
      - simpl. rewrite !length_app. simpl.
        pose proof (setup_alerts_le _ _ _ H12). lia.
      - unfold start_location, element_point. rewrite Hpick. simpl.
        rewrite Hre. simpl. by rewrite Hsp. }
  set (w4 := add_calls (asked_intersections (Grids (doc w))) w3).
  assert (setup 2 w w4) as H4.
  { apply (setup_trans 2 0 w w3 w4); [done|].
    apply setup_add_calls; [done | apply asked_intersections_no_set]. }
  destruct (bool_decide (intersections_spec K (Grids (doc w)) = [])) eqn:Hints.
  { (* no intersections *)
    split.
    - apply (setup_trans 2 0 w w4 _); [done | by apply setup_add_alert].
    - simpl. rewrite !length_app. simpl.
      pose proof (setup_alerts_le _ _ _ H12). lia. }
  apply bool_decide_eq_false in Hints. simpl.
  split_and!; try done.
  exists r. split; [done|]. unfold element_point. by rewrite Hre.
Qed.

(** ** The assignment pass: what it touches and how much it calls *)

Lemma distance_step_eq (sp : XYZ) (acc : list (ElementId * Q)) (id : ElementId)
    (w : World) :
  distance_step K sp acc id w
  = match doc_elements (doc w) !! id with
    | None => Raised AttributeError w
    | Some e =>
        match location_point K (Location e) with
        | Some pt => Done (acc ++ [(id, DistanceTo K pt sp)])
                          (add_calls [Call_DistanceTo pt sp] w)
        | None => Done acc w
        end
    end.
Proof.
  unfold distance_step, get_element_location, attribute. rewrite !bind_unfold.
  destruct (doc_elements (doc w) !! id) as [e|]; [|done]. simpl.
  by destruct (location_point K (Location e)).
Qed.

Lemma distance_loop_done (sp : XYZ) (sel : list ElementId)
    (acc r : list (ElementId * Q)) (w w' : World) :
  for_each sel (distance_step K sp) acc w = Done r w' →
  r = acc ++ located K w sp sel ∧
  w' = add_calls ((λ x, Call_DistanceTo x.1 sp) <$>
                    omap (λ eid, pt ← element_point K w eid; Some (pt, eid)) sel) w.
Proof.
  revert acc w. induction sel as [|id sel IH]; intros acc w; simpl.
  - intros [= <- <-]. by rewrite app_nil_r, add_calls_nil.
  - rewrite bind_unfold, distance_step_eq. unfold located, element_point. simpl.
    destruct (doc_elements (doc w) !! id) as [e|] eqn:He; [|done]. simpl.
    destruct (location_point K (Location e)) as [pt|] eqn:Hpt; simpl.
    + intros Hloop. apply IH in Hloop as [-> ->].
      rewrite add_calls_app, <- app_assoc. done.
    + intros Hloop. by apply IH in Hloop as [-> ->].
Qed.

Lemma located_ids (w : World) (sp : XYZ) (sel : list ElementId) (x : ElementId * Q) :
  x ∈ located K w sp sel → x.1 ∈ sel.
Proof.
  unfold located. rewrite list_elem_of_omap. intros (eid & Hin & Hx).
  destruct (element_point K w eid); simpl in Hx; [|done].
  by injection Hx as <-.
Qed.

Lemma located_length (w : World) (sp : XYZ) (sel : list ElementId) :
  length (located K w sp sel) ≤ length sel.
Proof.
  unfold located. induction sel as [|eid sel IH]; csimpl; [done|].
  destruct (_ ≫= _); simpl; lia.
Qed.

(** *** Writing a parameter *)

Lemma set_first_lookup (name value : string) (ps : list Param) :
  find (has_param_name name) (set_first name value ps)
  = (λ p, mkParam (param_Name p) (IsReadOnly p) value)
      <$> find (has_param_name name) ps.
Proof.
  induction ps as [|p ps IH]; simpl; [done|].
  destruct (has_param_name name p) eqn:Hp; simpl.
  - unfold has_param_name in *. simpl. by rewrite Hp.
  - by rewrite Hp.
Qed.

Lemma set_first_lookup_ne (name name' value : string) (ps : list Param) :
  name ≠ name' →
  find (has_param_name name') (set_first name value ps)
  = find (has_param_name name') ps.
Proof.
  intros Hne. induction ps as [|p ps IH]; simpl; [done|].
  destruct (has_param_name name p) eqn:Hp; simpl.
  - unfold has_param_name in *. simpl. apply bool_decide_eq_true in Hp.
    rewrite bool_decide_eq_false_2; [done | congruence].
  - destruct (has_param_name name' p); [done | apply IH].
Qed.

Lemma set_first_shape (name value : string) (ps : list Param) :
  (λ p, (param_Name p, IsReadOnly p)) <$> set_first name value ps
  = (λ p, (param_Name p, IsReadOnly p)) <$> ps.
Proof.
  induction ps as [|p ps IH]; csimpl; [done|].
  destruct (has_param_name name p); csimpl; [done | by rewrite IH].
Qed.

Lemma param_value_set (name value : string) (e : Element) :
  is_Some (LookupParameter name e) →
  param_value name (set_param name value e) = Some value.
Proof.
  intros [p Hp]. unfold param_value, LookupParameter in *. simpl.
  by rewrite set_first_lookup, Hp.
Qed.

Lemma param_value_set_ne (name name' value : string) (e : Element) :
  name ≠ name' → param_value name' (set_param name value e) = param_value name' e.
Proof.
  intros Hne. unfold param_value, LookupParameter. simpl.
  by rewrite set_first_lookup_ne.
Qed.

Lemma same_shape_refl (e : Element) : same_shape e e.
Proof. by split_and!. Qed.

Lemma same_shape_trans (e1 e2 e3 : Element) :
  same_shape e1 e2 → same_shape e2 e3 → same_shape e1 e3.
Proof. intros (? & ? & ?) (? & ? & ?). split_and!; congruence. Qed.

Lemma same_shape_set_param (name value : string) (e : Element) :
  same_shape e (set_param name value e).
Proof. split_and!; [done | done |]. symmetry. apply set_first_shape. Qed.

Lemma same_shape_lookup (name : string) (e e' : Element) :
  same_shape e e' →
  (λ p, (param_Name p, IsReadOnly p)) <$> LookupParameter name e
  = (λ p, (param_Name p, IsReadOnly p)) <$> LookupParameter name e'.
Proof.
  intros (_ & _ & Hps). unfold LookupParameter.
  generalize dependent (elem_Parameters e'). 
  induction (elem_Parameters e) as [|p ps IH]; intros [|p' ps'] Hps; try done.
  simpl in *. injection Hps as Hn Hr Hps. unfold has_param_name at 1 3.
  rewrite Hn. destruct (bool_decide (param_Name p' = name)); simpl.
  - by rewrite Hn, Hr.
  - by apply IH.
Qed.

Lemma same_shape_writable (name : string) (e e' : Element) :
  same_shape e e' → writable name e = writable name e'.
Proof.
  intros Hs%(same_shape_lookup name). unfold writable.
  destruct (LookupParameter name e), (LookupParameter name e'); simpl in *;
    congruence.
Qed.

(** *** How the world evolves during the pass *)

Lemma evolves_refl (w : World) : evolves w w.
Proof.
  split_and!; try done.
  - intros id. destruct (_ !! id); constructor. apply same_shape_refl.
  - exists []. by rewrite app_nil_r.
Qed.

Lemma evolves_trans (w1 w2 w3 : World) : evolves w1 w2 → evolves w2 w3 → evolves w1 w3.
Proof.
  intros (Ha & Ht & Hal & Hap & Hu & Hb & Hg & Hs & cs & Hcs)
         (Ha' & Ht' & Hal' & Hap' & Hu' & Hb' & Hg' & Hs' & cs' & Hcs').
  split_and!; try congruence.
  - intros id. specialize (Hs id). specialize (Hs' id).
    destruct Hs as [e1 e2 H12|]; inversion Hs' as [e2' e3 H23|]; subst;
      constructor. by eapply same_shape_trans.
  - exists (cs ++ cs'). by rewrite Hcs', Hcs, app_assoc.
Qed.

Lemma evolves_add_calls (cs : list HostCall) (w : World) : evolves w (add_calls cs w).
Proof.
  split_and!; try done.
  - intros id. simpl. destruct (_ !! id); constructor. apply same_shape_refl.
  - by exists cs.
Qed.

Lemma evolves_write_param (eid : ElementId) (name value : string) (w : World) :
  evolves w (write_param eid name value w).
Proof.
  split_and!; try done.
  - intros id. simpl. destruct (decide (eid = id)) as [->|Hne].
    + rewrite lookup_alter_eq. destruct (_ !! id); constructor.
      apply same_shape_set_param.
    + rewrite lookup_alter_ne by done. destruct (_ !! id); constructor.
      apply same_shape_refl.
  - by exists [Call_Set eid name value].
Qed.

Lemma evolves_active (w w' : World) :
  evolves w w' → is_Some (active w) → is_Some (active w').
Proof. intros (Ha & _) Hw. by rewrite Ha. Qed.

Lemma evolves_valid (ids : list ElementId) (w w' : World) :
  evolves w w' → valid_ids ids w → valid_ids ids w'.
Proof.
  intros (_ & _ & _ & _ & _ & _ & _ & Hs & _) Hv id Hid.
  destruct (Hv id Hid) as [e He]. specialize (Hs id). rewrite He in Hs.
  inversion Hs. eauto.
Qed.

Lemma evolves_shape (w w' : World) (id : ElementId) (e : Element) :
  evolves w w' → doc_elements (doc w) !! id = Some e →
  ∃ e', doc_elements (doc w') !! id = Some e' ∧ same_shape e e'.
Proof.
  intros (_ & _ & _ & _ & _ & _ & _ & Hs & _) He.
  specialize (Hs id). rewrite He in Hs. inversion Hs. eauto.
Qed.

Lemma evolves_element_point (w w' : World) (id : ElementId) :
  evolves w w' → element_point K w' id = element_point K w id.
Proof.
  intros (_ & _ & _ & _ & _ & _ & _ & Hs & _). unfold element_point.
  specialize (Hs id). destruct Hs as [e e' (_ & Hl & _)|]; simpl; [|done].
  by rewrite Hl.
Qed.

Lemma evolves_elem_writable (w w' : World) (name : string) (id : ElementId) :
  evolves w w' → elem_writable w' name id = elem_writable w name id.
Proof.
  intros (_ & _ & _ & _ & _ & _ & _ & Hs & _). unfold elem_writable.
  specialize (Hs id). destruct Hs as [e e' Hee|]; [|done].
  symmetry. by apply same_shape_writable.
Qed.

(** *** The loops compute the folds *)

Lemma Parameter_Set_eq (eid : ElementId) (name value : string) (w : World) :
  is_Some (active w) →
  Parameter_Set eid name value w = Done () (write_param eid name value w).
Proof.
  intros [a Ha]. unfold Parameter_Set, modify_doc, modify. rewrite bind_unfold.
  simpl. by rewrite Ha.
Qed.

Lemma scan_step_eq (pt : XYZ) (st : Float * option (Grid * Grid))
    (i : XYZ * Grid * Grid) (w : World) :
  scan_step K pt st i w
  = Done (scan_pure K pt st i) (add_calls [Call_DistanceTo pt i.1.1] w).
Proof.
  unfold scan_step, scan_pure, call_DistanceTo. destruct st as [md cl], i as [[ip v] h].
  rewrite !bind_unfold. simpl. by destruct (float_lt _ _).
Qed.

Lemma scan_loop_eq (pt : XYZ) (ints : list (XYZ * Grid * Grid))
    (st : Float * option (Grid * Grid)) (w : World) :
  for_each ints (scan_step K pt) st w
  = Done (foldl (scan_pure K pt) st ints)
         (add_calls ((λ i, Call_DistanceTo pt i.1.1) <$> ints) w).
Proof.
  revert st w. induction ints as [|i ints IH]; intros st w; simpl.
  - by rewrite add_calls_nil.
  - by rewrite bind_unfold, scan_step_eq, IH, add_calls_app.
Qed.

Lemma grid_square_step_eq (ints : list (XYZ * Grid * Grid)) (m : gset ElementId)
    (eid : ElementId) (w : World) :
  is_Some (active w) → is_Some (doc_elements (doc w) !! eid) →
  grid_square_step K ints m eid w
  = Done (grid_square_pure K ints (m, w) eid).1 (grid_square_pure K ints (m, w) eid).2.
Proof.
  intros Ha [e He].
  unfold grid_square_step, grid_square_pure, get_element_location, attribute,
    grid_square, scan_calls, closest_of.
  rewrite !bind_unfold. simpl. rewrite He. simpl.
  destruct (location_point K (Location e)) as [pt|]; simpl;
    [|by rewrite add_calls_nil].
  rewrite bind_unfold, scan_loop_eq.
  destruct (foldl (scan_pure K pt) (Inf, None) ints) as [md [closest|]]; simpl;
    [|done].
  rewrite bind_unfold. simpl. rewrite He. unfold writable.
  destruct (LookupParameter "Grid Square" e) as [param|]; [|done].
  destruct (negb (IsReadOnly param)); [|done].
  rewrite bind_unfold, Parameter_Set_eq by done. done.
Qed.

Lemma grid_square_pure_evolves (ints : list (XYZ * Grid * Grid))
    (st : gset ElementId * World) (eid : ElementId) :
  evolves st.2 (grid_square_pure K ints st eid).2.
Proof.
  unfold grid_square_pure. destruct (_ !! eid) as [e|]; [|apply evolves_refl].
  destruct (grid_square K ints e); [|apply evolves_add_calls].
  destruct (writable _ e); [|apply evolves_add_calls]. simpl.
  eapply evolves_trans; [apply evolves_add_calls | apply evolves_write_param].
Qed.

Lemma grid_loop_evolves (ints : list (XYZ * Grid * Grid)) (sel : list ElementId)
    (st : gset ElementId * World) :
  evolves st.2 (foldl (grid_square_pure K ints) st sel).2.
Proof.
  revert st. induction sel as [|eid sel IH]; intros st; simpl.
  - apply evolves_refl.
  - eapply evolves_trans; [apply grid_square_pure_evolves | apply IH].
Qed.

Lemma grid_loop_eq (ints : list (XYZ * Grid * Grid)) (sel : list ElementId)
    (m : gset ElementId) (w : World) :
  is_Some (active w) → valid_ids sel w →
  for_each sel (grid_square_step K ints) m w
  = Done (foldl (grid_square_pure K ints) (m, w) sel).1
         (foldl (grid_square_pure K ints) (m, w) sel).2.
Proof.
  revert m w. induction sel as [|eid sel IH]; intros m w Ha Hv; simpl; [done|].
  rewrite bind_unfold, grid_square_step_eq; [|done|apply Hv; left].
  pose proof (grid_square_pure_evolves ints (m, w) eid) as He.
  destruct (grid_square_pure K ints (m, w) eid) as [m' w'] eqn:Hstep. simpl in *.
  apply IH.
  - by eapply evolves_active.
  - eapply evolves_valid; [done|]. intros id Hid. apply Hv. by right.
Qed.

Lemma distance_loop_eq (sp : XYZ) (sel : list ElementId)
    (acc : list (ElementId * Q)) (w : World) :
  valid_ids sel w →
  for_each sel (distance_step K sp) acc w
  = Done (acc ++ located K w sp sel) (add_calls (distance_calls K w sp sel) w).
Proof.
  revert acc w. induction sel as [|id sel IH]; intros acc w Hv; simpl.
  - by rewrite app_nil_r, add_calls_nil.
  - rewrite bind_unfold, distance_step_eq.
    destruct (Hv id) as [e He]; [left|]. rewrite He.
    assert (valid_ids sel w) as Hv' by (intros i Hi; apply Hv; by right).
    unfold located, distance_calls, element_point. csimpl. rewrite He. simpl.
    destruct (location_point K (Location e)) as [pt|] eqn:Hpt; simpl.
    + rewrite IH by done. rewrite add_calls_app, <- app_assoc. done.
    + by rewrite IH.
Qed.

Lemma number_step_eq (st : nat * gset ElementId) (x : ElementId * Q) (w : World) :
  is_Some (active w) → is_Some (doc_elements (doc w) !! x.1) →
  number_step st x w
  = Done (number_pure (st, w) x).1 (number_pure (st, w) x).2.
Proof.
  intros Ha [e He]. destruct st as [num m], x as [elem dist].
  unfold number_step, number_pure, attribute, elem_writable, writable.
  rewrite bind_unfold. simpl in *. rewrite He.
  destruct (LookupParameter "Number" e) as [param|]; [|done].
  destruct (negb (IsReadOnly param)); [|done].
  rewrite bind_unfold, Parameter_Set_eq by done. done.
Qed.

Lemma number_pure_evolves (st : nat * gset ElementId * World) (x : ElementId * Q) :
  evolves st.2 (number_pure st x).2.
Proof.
  unfold number_pure. destruct (elem_writable _ _ _); [|apply evolves_refl].
  apply evolves_write_param.
Qed.

Lemma number_loop_evolves (l : list (ElementId * Q))
    (st : nat * gset ElementId * World) :
  evolves st.2 (foldl number_pure st l).2.
Proof.
  revert st. induction l as [|x l IH]; intros st; simpl.
  - apply evolves_refl.
  - eapply evolves_trans; [apply number_pure_evolves | apply IH].
Qed.

Lemma number_loop_eq (l : list (ElementId * Q)) (st : nat * gset ElementId)
    (w : World) :
  is_Some (active w) → valid_ids l.*1 w →
  for_each l number_step st w
  = Done (foldl number_pure (st, w) l).1 (foldl number_pure (st, w) l).2.
Proof.
  revert st w. induction l as [|x l IH]; intros st w Ha Hv; simpl; [done|].
  rewrite bind_unfold, number_step_eq; [|done|apply Hv; left].
  pose proof (number_pure_evolves (st, w) x) as He.
  destruct (number_pure (st, w) x) as [st' w'] eqn:Hstep. simpl in *.
  apply IH.
  - by eapply evolves_active.
  - eapply evolves_valid; [done|]. intros id Hid. apply Hv. by right.
Qed.

(** *** The scan finds the first nearest intersection *)

Lemma scan_finds_first_nearest (pt : XYZ) (ints : list (XYZ * Grid * Grid)) :
  (ints = [] ∧ foldl (scan_pure K pt) (Inf, None) ints = (Inf, None)) ∨
  (∃ i x, first_nearest K pt ints i x ∧
          foldl (scan_pure K pt) (Inf, None) ints
          = (Finite (DistanceTo K pt x.1.1), Some (x.1.2, x.2))).
Proof.
  induction ints as [|y ints IH] using rev_ind; [by left|]. right.
  rewrite foldl_app. simpl.
  destruct IH as [[-> ->]|(i & x & (Hi & Hmin & Hfirst) & ->)].
  - (* the first entry always beats infinity *)
    exists 0, y. unfold scan_pure. simpl. split; [|done]. split_and!; [done| |].
    + intros [|j] z Hz; simpl in Hz; [|done]. injection Hz as <-. apply Qle_refl.
    + intros j z Hj. lia.
  - unfold scan_pure. simpl.
    destruct (Qlt_bool (DistanceTo K pt y.1.1) (DistanceTo K pt x.1.1)) eqn:Hlt.
    + (* strictly nearer than everything before: the new entry wins *)
      apply Qlt_bool_iff in Hlt. exists (length ints), y. split; [|done].
      split_and!.
      * by rewrite lookup_app_r, Nat.sub_diag.
      * intros j z Hz. apply lookup_app_Some in Hz as [Hz|[_ Hz]].
        -- apply Qlt_le_weak. eapply Qlt_le_trans; [done | by eapply Hmin].
        -- destruct (j - length ints); simpl in Hz; [|done].
           injection Hz as <-. apply Qle_refl.
      * intros j z Hj Hz. rewrite lookup_app_l in Hz by done.
        eapply Qlt_le_trans; [done | by eapply Hmin].
    + (* not strictly nearer: the earlier entry stays *)
      apply Qlt_bool_false in Hlt. exists i, x. split; [|done].
      split_and!.
      * by apply lookup_app_l_Some.
      * intros j z Hz. apply lookup_app_Some in Hz as [Hz|[_ Hz]].
        -- by eapply Hmin.
        -- destruct (j - length ints); simpl in Hz; [|done]. by injection Hz as <-.
      * intros j z Hj Hz. apply lookup_app_Some in Hz as [Hz|[Hge Hz]].
        -- by eapply Hfirst.
        -- apply lookup_lt_Some in Hi. lia.
Qed.

Lemma closest_of_first_nearest (pt : XYZ) (ints : list (XYZ * Grid * Grid)) :
  ints ≠ [] →
  ∃ i x, first_nearest K pt ints i x ∧ closest_of K pt ints = Some (x.1.2, x.2).
Proof.
  intros Hne. unfold closest_of.
  destruct (scan_finds_first_nearest pt ints) as [[? _]|(i & x & Hfn & ->)]; [done|].
  eauto.
Qed.

(** *** The whole pass *)

Lemma located_evolves (w w' : World) (sp : XYZ) (sel : list ElementId) :
  evolves w w' → located K w' sp sel = located K w sp sel.
Proof.
  intros Hev. unfold located. apply list_omap_ext, Forall2_same_length_lookup_2; [done|].
  intros i x y Hx Hy. assert (x = y) as -> by congruence.
  by rewrite (evolves_element_point w w' y Hev).
Qed.

Lemma sorted_located_valid (w w' : World) (sp : XYZ) (sel : list ElementId) :
  valid_ids sel w' → valid_ids (sort_by_distance (located K w sp sel)).*1 w'.
Proof.
  intros Hv id Hid. apply Hv.
  apply list_elem_of_fmap in Hid as (x & -> & Hx).
  rewrite sort_by_distance_perm in Hx. by eapply located_ids.
Qed.

Lemma assign_eq (sel : list ElementId) (sp : XYZ) (ints : list (XYZ * Grid * Grid))
    (w : World) :
  active w = None → valid_ids sel w →
  let w0 := start_world "Assign Grid Square and Number" w in
  let st1 := foldl (grid_square_pure K ints) (∅, w0) sel in
  let w2 := add_calls (distance_calls K st1.2 sp sel) st1.2 in
  let st3 := foldl number_pure (1, st1.1, w2)
                   (sort_by_distance (located K st1.2 sp sel)) in
  assign K sel sp ints w
  = Done st3.1.2 (commit_world "Assign Grid Square and Number" st3.2).
Proof.
  intros Ha Hv w0 st1 w2 st3. unfold assign.
  rewrite bind_unfold. unfold Transaction_Start. rewrite Ha. fold (start_world "Assign Grid Square and Number" w). fold w0.
  assert (is_Some (active w0)) as Ha0 by (by eexists).
  assert (valid_ids sel w0) as Hv0 by done.
  pose proof (grid_loop_evolves ints sel (∅, w0)) as Hev1. fold st1 in Hev1. simpl in Hev1.
  rewrite bind_unfold, grid_loop_eq by done. fold st1.
  assert (valid_ids sel st1.2) as Hv1 by (by eapply evolves_valid).
  rewrite bind_unfold, distance_loop_eq by done. fold w2. simpl.
  assert (evolves w0 w2) as Hev2
    by (eapply evolves_trans; [done | apply evolves_add_calls]).
  pose proof (number_loop_evolves (sort_by_distance (located K st1.2 sp sel))
                (1, st1.1, w2)) as Hev3. fold st3 in Hev3. simpl in Hev3.
  rewrite bind_unfold, number_loop_eq;
    [|by eapply evolves_active|apply sorted_located_valid; by eapply evolves_valid].
  fold st3. destruct st3 as [[num m3] w3] eqn:Hst3. simpl in *.
  rewrite bind_unfold. unfold Transaction_Commit.
  assert (active w3 = Some ("Assign Grid Square and Number", doc w)) as ->.
  { destruct Hev3 as (-> & _). by destruct Hev2 as (-> & _). }
  done.
Qed.

Lemma new_calls_transaction (name : string) (w w3 : World) :
  evolves (start_world name w) w3 →
  new_calls w (commit_world name w3)
  = [Call_Start name] ++ new_calls (start_world name w) w3 ++ [Call_Commit name].
Proof.
  intros (_ & _ & _ & _ & _ & _ & _ & _ & cs & Hcs). unfold new_calls. simpl in *.
  rewrite Hcs, drop_app_length, <- !app_assoc, drop_app_length. done.
Qed.

(** *** Grid squares *)

Lemma grid_square_shape (ints : list (XYZ * Grid * Grid)) (e e' : Element) :
  same_shape e e' → grid_square K ints e = grid_square K ints e'.
Proof. intros (_ & Hl & _). unfold grid_square. by rewrite Hl. Qed.

Lemma evolves_new_calls (w0 w w' : World) (c : HostCall) :
  evolves w0 w → evolves w w' → c ∈ new_calls w0 w → c ∈ new_calls w0 w'.
Proof.
  intros (_ & _ & _ & _ & _ & _ & _ & _ & cs & Hcs)
         (_ & _ & _ & _ & _ & _ & _ & _ & cs' & Hcs').
  unfold new_calls. rewrite Hcs', Hcs, <- app_assoc, !drop_app_length.
  intros Hin. apply elem_of_app. by left.
Qed.

Lemma grid_square_pure_tags (ints : list (XYZ * Grid * Grid)) (eid : ElementId)
    (label : string) (e : Element) (w0 : World) (st : gset ElementId * World) :
  evolves w0 st.2 →
  doc_elements (doc st.2) !! eid = Some e →
  grid_square K ints e = Some label → writable "Grid Square" e = true →
  tagged K ints eid label w0 (grid_square_pure K ints st eid).
Proof.
  intros Hev He Hg Hw. unfold grid_square_pure. rewrite He, Hg, Hw.
  split_and!; simpl.
  - exists (set_param "Grid Square" label e). rewrite lookup_alter_eq, He.
    split_and!; [done| |].
    + apply param_value_set. unfold writable in Hw.
      by destruct (LookupParameter "Grid Square" e).
    + rewrite <- Hg. symmetry. apply grid_square_shape, same_shape_set_param.
  - set_solver.
  - destruct Hev as (_ & _ & _ & _ & _ & _ & _ & _ & cs & Hcs).
    unfold new_calls. simpl. rewrite Hcs, <- !app_assoc, drop_app_length.
    rewrite !elem_of_app. right. right. by left.
Qed.

Lemma grid_square_pure_keeps_tag (ints : list (XYZ * Grid * Grid))
    (eid x : ElementId) (label : string) (w0 : World) (st : gset ElementId * World) :
  evolves w0 st.2 →
  tagged K ints eid label w0 st → tagged K ints eid label w0 (grid_square_pure K ints st x).
Proof.
  intros Hev ((e & He & Hval & Hg) & Hm & Hc).
  pose proof (grid_square_pure_evolves ints st x) as Hstep.
  split_and!.
  - unfold grid_square_pure.
    destruct (doc_elements (doc st.2) !! x) as [ex|] eqn:Hx; [|by eauto].
    destruct (grid_square K ints ex) as [lx|] eqn:Hgx; [|by eauto].
    destruct (writable "Grid Square" ex) eqn:Hwx; [|by eauto].
    simpl. destruct (decide (x = eid)) as [->|Hne].
    + assert (ex = e) as -> by congruence. assert (lx = label) as -> by congruence.
      exists (set_param "Grid Square" label e). rewrite lookup_alter_eq, He.
      split_and!; [done| |].
      * apply param_value_set. unfold writable in Hwx.
        by destruct (LookupParameter "Grid Square" e).
      * rewrite <- Hg. symmetry. apply grid_square_shape, same_shape_set_param.
    + exists e. by rewrite lookup_alter_ne.
  - unfold grid_square_pure.
    destruct (doc_elements (doc st.2) !! x) as [ex|]; [|done].
    destruct (grid_square K ints ex); [|done].
    destruct (writable "Grid Square" ex); [|done].
    simpl. set_solver.
  - by eapply evolves_new_calls.
Qed.

Lemma grid_loop_keeps_tag (ints : list (XYZ * Grid * Grid)) (sel : list ElementId)
    (eid : ElementId) (label : string) (w0 : World) (st : gset ElementId * World) :
  evolves w0 st.2 →
  tagged K ints eid label w0 st →
  tagged K ints eid label w0 (foldl (grid_square_pure K ints) st sel).
Proof.
  revert st. induction sel as [|x sel IH]; intros st Hev Ht; simpl; [done|].
  apply IH.
  - eapply evolves_trans; [done | apply grid_square_pure_evolves].
  - by apply grid_square_pure_keeps_tag.
Qed.

Lemma grid_loop_tags (ints : list (XYZ * Grid * Grid)) (sel : list ElementId)
    (eid : ElementId) (label : string) (e : Element) (w0 : World)
    (st : gset ElementId * World) :
  evolves w0 st.2 → eid ∈ sel →
  doc_elements (doc st.2) !! eid = Some e →
  grid_square K ints e = Some label → writable "Grid Square" e = true →
  tagged K ints eid label w0 (foldl (grid_square_pure K ints) st sel).
Proof.
  revert st e. induction sel as [|x sel IH]; intros st e Hev Hin He Hg Hw;
    [by apply elem_of_nil in Hin|]. simpl.
  pose proof (grid_square_pure_evolves ints st x) as Hstep.
  destruct (decide (x = eid)) as [->|Hne].
  - apply grid_loop_keeps_tag.
    + by eapply evolves_trans.
    + by eapply grid_square_pure_tags.
  - apply elem_of_cons in Hin as [->|Hin]; [done|].
    destruct (evolves_shape _ _ eid e Hstep He) as (e' & He' & Hs).
    apply (IH _ e'); [by eapply evolves_trans | done | done | |].
    + by rewrite <- (grid_square_shape ints e e').
    + by rewrite <- (same_shape_writable "Grid Square" e e').
Qed.

Lemma number_pure_elem_value (st : nat * gset ElementId * World)
    (x : ElementId * Q) (name : string) (id : ElementId) :
  name ≠ "Number" →
  elem_value (number_pure st x).2 name id = elem_value st.2 name id.
Proof.
  intros Hne. unfold number_pure. destruct (elem_writable _ _ _); [|done].
  unfold elem_value. simpl. destruct (decide (x.1 = id)) as [->|Hx].
  - rewrite lookup_alter_eq. destruct (_ !! id); simpl; [|done].
    by apply param_value_set_ne.
  - by rewrite lookup_alter_ne.
Qed.

Lemma number_loop_elem_value (l : list (ElementId * Q))
    (st : nat * gset ElementId * World) (name : string) (id : ElementId) :
  name ≠ "Number" →
  elem_value (foldl number_pure st l).2 name id = elem_value st.2 name id.
Proof.
  intros Hne. revert st. induction l as [|x l IH]; intros st; simpl; [done|].
  by rewrite IH, number_pure_elem_value.
Qed.

Lemma number_pure_modified (st : nat * gset ElementId * World) (x : ElementId * Q) :
  st.1.2 ⊆ (number_pure st x).1.2.
Proof. unfold number_pure. destruct (elem_writable _ _ _); simpl; set_solver. Qed.

Lemma number_loop_modified (l : list (ElementId * Q))
    (st : nat * gset ElementId * World) :
  st.1.2 ⊆ (foldl number_pure st l).1.2.
Proof.
  revert st. induction l as [|x l IH]; intros st; simpl; [done|].
  etrans; [apply number_pure_modified | apply IH].
Qed.

(** C1. A selected element whose location resolves to a point and whose
    "Grid Square" parameter exists and is not read-only ends the pass with
    that parameter set to "{V.Name}-{H.Name}", (V, H) being the pair of the
    first entry of the (non-empty) intersection list at minimum distance from
    the element's location. *)
Theorem grid_square_is_first_nearest (sel : list ElementId) (sp : XYZ)
    (ints : list (XYZ * Grid * Grid)) (w : World) (eid : ElementId)
    (e : Element) (pt : XYZ) (param : Param) :
  active w = None → valid_ids sel w → eid ∈ sel →
  doc_elements (doc w) !! eid = Some e →
  location_point K (Location e) = Some pt →
  ints ≠ [] →
  LookupParameter "Grid Square" e = Some param → IsReadOnly param = false →
  ∃ m w' i x,
    assign K sel sp ints w = Done m w' ∧
    first_nearest K pt ints i x ∧
    let label := grid_Name x.1.2 +:+ "-" +:+ grid_Name x.2 in
    elem_value w' "Grid Square" eid = Some label ∧
    Call_Set eid "Grid Square" label ∈ new_calls w w' ∧
    eid ∈ m ∧
    transactions w'
    = transactions w ++ [("Assign Grid Square and Number", Committed)].
Proof.
  intros Ha Hv Hin He Hpt Hne Hparam Hro.
  pose proof (assign_eq sel sp ints w Ha Hv) as Heq. simpl in Heq.
  destruct (closest_of_first_nearest pt ints Hne) as (i & x & Hfn & Hclosest).
  set (label := grid_Name x.1.2 +:+ "-" +:+ grid_Name x.2).
  set (w0 := start_world "Assign Grid Square and Number" w) in *.
  set (st1 := foldl (grid_square_pure K ints) (∅, w0) sel) in *.
  set (w2 := add_calls (distance_calls K st1.2 sp sel) st1.2) in *.
  set (st3 := foldl number_pure (1, st1.1, w2)
                (sort_by_distance (located K st1.2 sp sel))) in *.
  assert (grid_square K ints e = Some label) as Hg.
  { unfold grid_square. rewrite Hpt. simpl. by rewrite Hclosest. }
  assert (writable "Grid Square" e = true) as Hw.
  { unfold writable. by rewrite Hparam, Hro. }
  assert (tagged K ints eid label w0 st1) as ((e1 & He1 & Hval & _) & Hm & Hc).
  { eapply grid_loop_tags; [apply evolves_refl | done | done | done | done]. }
  pose proof (grid_loop_evolves ints sel (∅, w0)) as Hev1. fold st1 in Hev1.
  pose proof (number_loop_evolves (sort_by_distance (located K st1.2 sp sel))
                (1, st1.1, w2)) as Hev3. fold st3 in Hev3. simpl in Hev1, Hev3.
  assert (evolves st1.2 st3.2) as Hev13
    by (eapply evolves_trans; [apply evolves_add_calls | done]).
  exists st3.1.2, (commit_world "Assign Grid Square and Number" st3.2), i, x.
  split_and!; [done | done |]. cbv zeta. fold label. split_and!.
  - change (elem_value st3.2 "Grid Square" eid = Some label). subst st3.
    rewrite number_loop_elem_value by done. unfold elem_value. simpl.
    by rewrite He1.
  - rewrite new_calls_transaction by (by eapply evolves_trans).
    rewrite !elem_of_app. right. left. by eapply evolves_new_calls.
  - apply (number_loop_modified _ (1, st1.1, w2)). done.
  - simpl. destruct Hev13 as (_ & -> & _). by destruct Hev1 as (_ & -> & _).
Qed.

(** *** Numbering *)

Lemma write_param_elem_value_ne (eid id : ElementId) (name name' value : string)
    (w : World) :
  name ≠ name' →
  elem_value (write_param eid name value w) name' id = elem_value w name' id.
Proof.
  intros Hne. unfold elem_value. simpl. destruct (decide (eid = id)) as [->|Hx].
  - rewrite lookup_alter_eq. destruct (_ !! id); simpl; [|done].
    by apply param_value_set_ne.
  - by rewrite lookup_alter_ne.
Qed.

Lemma grid_loop_elem_value (ints : list (XYZ * Grid * Grid)) (sel : list ElementId)
    (st : gset ElementId * World) (name : string) (id : ElementId) :
  name ≠ "Grid Square" →
  elem_value (foldl (grid_square_pure K ints) st sel).2 name id
  = elem_value st.2 name id.
Proof.
  intros Hne. revert st. induction sel as [|x sel IH]; intros st; simpl; [done|].
  rewrite IH. unfold grid_square_pure.
  destruct (doc_elements (doc st.2) !! x) as [ex|]; [|done].
  destruct (grid_square K ints ex); [|done].
  destruct (writable "Grid Square" ex); [|done].
  simpl. by rewrite write_param_elem_value_ne.
Qed.

Lemma scan_calls_no_set (ints : list (XYZ * Grid * Grid)) (e : Element)
    (name : string) :
  filter (is_Set_of name) (scan_calls K ints e) = [] ∧
  written_ids (scan_calls K ints e) = ∅.
Proof.
  apply no_set_calls. unfold scan_calls.
  destruct (location_point K (Location e)); [|constructor].
  apply Forall_fmap, Forall_true. done.
Qed.

Lemma scan_calls_quiet (ints : list (XYZ * Grid * Grid)) (e : Element) :
  Forall (λ c, is_transaction c = false) (scan_calls K ints e).
Proof.
  unfold scan_calls. destruct (location_point K (Location e)); [|constructor].
  apply Forall_fmap, Forall_true. done.
Qed.

Lemma grid_loop_calls (ints : list (XYZ * Grid * Grid)) (sel : list ElementId)
    (st : gset ElementId * World) :
  ∃ cs, calls (foldl (grid_square_pure K ints) st sel).2 = calls st.2 ++ cs ∧
        filter (is_Set_of "Number") cs = [] ∧
        (foldl (grid_square_pure K ints) st sel).1 = st.1 ∪ written_ids cs ∧
        Forall (λ c, is_transaction c = false) cs.
Proof.
  revert st. induction sel as [|x sel IH]; intros st; simpl.
  - exists []. rewrite app_nil_r. split_and!; [done | done | | done].
    unfold written_ids. simpl. set_solver.
  - destruct (IH (grid_square_pure K ints st x)) as (cs & -> & Hn & -> & Hq).
    assert (∀ e, filter (is_Set_of "Number") (scan_calls K ints e) = []) as Hscan
      by (intros e; apply scan_calls_no_set).
    unfold grid_square_pure.
    destruct (doc_elements (doc st.2) !! x) as [ex|].
    2:{ exists cs. by split_and!. }
    destruct (scan_calls_no_set ints ex "Number") as [_ Hw].
    pose proof (scan_calls_quiet ints ex) as Hsq.
    destruct (grid_square K ints ex) as [label|].
    2:{ exists (scan_calls K ints ex ++ cs). simpl.
        rewrite app_assoc, filter_app, Hscan, Hn, written_ids_app, Hw.
        split_and!; [done | done | set_solver | by apply Forall_app]. }
    destruct (writable "Grid Square" ex).
    2:{ exists (scan_calls K ints ex ++ cs). simpl.
        rewrite app_assoc, filter_app, Hscan, Hn, written_ids_app, Hw.
        split_and!; [done | done | set_solver | by apply Forall_app]. }
    exists (scan_calls K ints ex ++ [Call_Set x "Grid Square" label] ++ cs). simpl.
    rewrite <- !app_assoc. split_and!; [done | | |].
    + rewrite filter_app, Hscan, filter_cons. simpl. by rewrite Hn.
    + rewrite (written_ids_app _ (_ :: cs)), Hw.
      change (Call_Set x "Grid Square" label :: cs)
        with ([Call_Set x "Grid Square" label] ++ cs).
      rewrite written_ids_app. unfold written_ids at 1. simpl. set_solver.
    + apply Forall_app. split; [done|]. by constructor.
Qed.

Lemma number_calls_quiet (num : nat) (l : list (ElementId * Q)) :
  Forall (λ c, is_transaction c = false) (number_calls num l).
Proof. revert num. induction l as [|x l IH]; intros num; simpl; by constructor. Qed.

Lemma distance_calls_quiet (w : World) (sp : XYZ) (sel : list ElementId) :
  Forall (λ c, is_transaction c = false) (distance_calls K w sp sel).
Proof. unfold distance_calls. apply Forall_fmap, Forall_true. done. Qed.

Lemma filter_writable_evolves (w w' : World) (name : string)
    (l : list (ElementId * Q)) :
  evolves w w' →
  filter (λ x, elem_writable w' name x.1 = true) l
  = filter (λ x, elem_writable w name x.1 = true) l.
Proof.
  intros Hev. apply list_filter_iff. intros x.
  by rewrite (evolves_elem_writable w w').
Qed.

Lemma number_loop_spec (l : list (ElementId * Q)) (num : nat)
    (m : gset ElementId) (w : World) :
  let st' := foldl number_pure (num, m, w) l in
  let wl := filter (λ x, elem_writable w "Number" x.1 = true) l in
  calls st'.2 = calls w ++ number_calls num wl ∧
  st'.1.1 = num + length wl ∧
  st'.1.2 = m ∪ list_to_set wl.*1 ∧
  (∀ id, id ∉ wl.*1 → doc_elements (doc st'.2) !! id = doc_elements (doc w) !! id) ∧
  (NoDup l.*1 → ∀ k x, wl !! k = Some x →
     elem_value st'.2 "Number" x.1 = Some (str (num + k))).
Proof.
  revert num m w. induction l as [|x l IH]; intros num m w; simpl.
  - split_and!; [by rewrite app_nil_r | lia | set_solver | done | done].
  - rewrite filter_cons.
    destruct (elem_writable w "Number" x.1) eqn:Hwx.
    + set (w' := write_param x.1 "Number" (str num) w).
      assert (number_pure (num, m, w) x = (num + 1, m ∪ {[x.1]}, w')) as ->
        by (unfold number_pure; simpl; by rewrite Hwx).
      destruct (IH (num + 1) (m ∪ {[x.1]}) w') as (Hc & Hn & Hm & Hf & Hv).
      rewrite (filter_writable_evolves w w') in Hc, Hn, Hm, Hf, Hv
        by apply evolves_write_param.
      rewrite decide_True by done. split_and!.
      * rewrite Hc. simpl. by rewrite <- app_assoc.
      * rewrite Hn. simpl. lia.
      * rewrite Hm. csimpl. set_solver.
      * intros id Hid. csimpl in Hid. apply not_elem_of_cons in Hid as [Hne Hid].
        rewrite Hf by done. simpl. by rewrite lookup_alter_ne.
      * intros Hnd k y Hy. csimpl in Hnd. apply NoDup_cons in Hnd as [Hx Hnd].
        destruct k as [|k]; simpl in Hy.
        -- injection Hy as <-. unfold elem_value. rewrite Hf.
           ++ simpl. rewrite lookup_alter_eq. unfold elem_writable in Hwx.
              destruct (doc_elements (doc w) !! x.1) as [e|]; [|done]. simpl.
              rewrite Nat.add_0_r. apply param_value_set. unfold writable in Hwx.
              by destruct (LookupParameter "Number" e).
           ++ intros Hin. apply Hx.
              apply list_elem_of_fmap in Hin as (z & -> & Hz%list_elem_of_filter).
              apply list_elem_of_fmap. exists z. by destruct Hz.
        -- rewrite (Hv Hnd k y Hy). do 2 f_equal. lia.
    + assert (number_pure (num, m, w) x = (num, m, w)) as ->
        by (unfold number_pure; simpl; by rewrite Hwx).
      rewrite decide_False by done.
      destruct (IH num m w) as (Hc & Hn & Hm & Hf & Hv).
      split_and!; try done. intros Hnd. csimpl in Hnd.
      apply NoDup_cons in Hnd as [_ Hnd]. by apply Hv.
Qed.

Lemma located_fst_sublist (w : World) (sp : XYZ) (sel : list ElementId) :
  (located K w sp sel).*1 `sublist_of` sel.
Proof.
  unfold located. induction sel as [|id sel IH]; csimpl; [done|].
  destruct (element_point K w id); csimpl.
  - by apply sublist_skip.
  - by apply sublist_cons.
Qed.

Lemma distance_calls_no_set (w : World) (sp : XYZ) (sel : list ElementId)
    (name : string) :
  filter (is_Set_of name) (distance_calls K w sp sel) = [] ∧
  written_ids (distance_calls K w sp sel) = ∅.
Proof.
  apply no_set_calls. unfold distance_calls. apply Forall_fmap, Forall_true. done.
Qed.

(** C2 (amended). The elements that get a number are the selected
    elements whose location resolves to a point and whose "Number" parameter
    exists and is not read-only; taken in ascending order of distance from
    the start point (elements at equal distance in selection order) they
    receive "1", "2", ... without gap or repetition, so a strictly nearer
    one gets the smaller number; every other element keeps the "Number"
    value it had. *)
Theorem numbering_follows_distance (sel : list ElementId) (sp : XYZ)
    (ints : list (XYZ * Grid * Grid)) (w : World) :
  active w = None → valid_ids sel w →
  ∃ m w',
    assign K sel sp ints w = Done m w' ∧
    let ranked := sort_by_distance (located K w sp sel) in
    let chosen := numbered K w sp sel in
    ranked ≡ₚ located K w sp sel ∧
    StronglySorted nearer_or_equal ranked ∧
    (∀ q, filter (λ y, Qeq_bool y.2 q = true) ranked
          = filter (λ y, Qeq_bool y.2 q = true) (located K w sp sel)) ∧
    filter (is_Set_of "Number") (new_calls w w') = number_calls 1 chosen ∧
    (NoDup sel → ∀ k x, chosen !! k = Some x →
       elem_value w' "Number" x.1 = Some (str (1 + k))) ∧
    (∀ k1 k2 x1 x2, chosen !! k1 = Some x1 → chosen !! k2 = Some x2 →
       (x1.2 < x2.2)%Q → k1 < k2) ∧
    (∀ eid, eid ∉ chosen.*1 → elem_value w' "Number" eid = elem_value w "Number" eid) ∧
    (∀ j k, str j = str k → j = k).
Proof.
  intros Ha Hv.
  pose proof (assign_eq sel sp ints w Ha Hv) as Heq. simpl in Heq.
  set (w0 := start_world "Assign Grid Square and Number" w) in *.
  set (st1 := foldl (grid_square_pure K ints) (∅, w0) sel) in *.
  set (w2 := add_calls (distance_calls K st1.2 sp sel) st1.2) in *.
  pose proof (grid_loop_evolves ints sel (∅, w0)) as Hev1. fold st1 in Hev1.
  simpl in Hev1.
  assert (evolves w0 w2) as Hev2
    by (eapply evolves_trans; [done | apply evolves_add_calls]).
  assert (located K st1.2 sp sel = located K w sp sel) as Hloc
    by (by rewrite (located_evolves w0 st1.2)).
  rewrite Hloc in Heq.
  set (ranked := sort_by_distance (located K w sp sel)) in *.
  pose proof (number_loop_spec ranked 1 st1.1 w2) as (Hc & _ & _ & Hf & Hval).
  rewrite (filter_writable_evolves w0 w2 "Number" ranked Hev2) in Hc, Hf, Hval.
  change (filter (λ x, elem_writable w0 "Number" x.1 = true) ranked)
    with (numbered K w sp sel) in Hc, Hf, Hval.
  set (st3 := foldl number_pure (1, st1.1, w2) ranked) in *.
  set (chosen := numbered K w sp sel) in *.
  assert (StronglySorted nearer_or_equal chosen) as Hsorted
    by apply StronglySorted_filter, sort_by_distance_sorted.
  exists st3.1.2, (commit_world "Assign Grid Square and Number" st3.2).
  split; [done|]. cbv zeta. split_and!.
  - apply sort_by_distance_perm.
  - apply sort_by_distance_sorted.
  - intros q. apply sort_by_distance_stable.
  - assert (evolves w0 st3.2) as Hev3
      by (eapply evolves_trans;
            [exact Hev2 | apply (number_loop_evolves ranked (1, st1.1, w2))]).
    rewrite new_calls_transaction by done.
    rewrite filter_app, filter_cons, filter_nil. simpl.
    rewrite filter_app, (filter_cons _ (Call_Commit _)), filter_nil. simpl.
    rewrite app_nil_r.
    destruct (grid_loop_calls ints sel (∅, w0)) as (cs1 & Hcs1 & Hn1 & _).
    fold st1 in Hcs1. unfold new_calls. rewrite Hc. unfold w2. simpl.
    rewrite Hcs1, <- !app_assoc, drop_app_length, !filter_app, Hn1.
    destruct (distance_calls_no_set st1.2 sp sel "Number") as [-> _].
    simpl. apply number_calls_are_number_sets.
  - intros Hnd k x Hk. apply (Hval); [|done].
    eapply NoDup_Permutation_proper; [apply fmap_Permutation, sort_by_distance_perm|].
    apply (sublist_NoDup _ sel); [done | apply located_fst_sublist].
  - intros k1 k2 x1 x2 H1 H2 Hlt.
    destruct (decide (k1 < k2)) as [|Hge]; [done|]. exfalso.
    destruct (decide (k1 = k2)) as [->|Hne].
    + assert (x1 = x2) as -> by congruence. by apply Qlt_irrefl in Hlt.
    + apply (Qlt_not_le _ _ Hlt).
      apply (StronglySorted_lookup_lt nearer_or_equal chosen k2 k1 x2 x1);
        [done | lia | done | done].
  - intros eid Hout.
    change (elem_value st3.2 "Number" eid = elem_value w0 "Number" eid).
    transitivity (elem_value st1.2 "Number" eid).
    + unfold elem_value. by rewrite (Hf eid Hout).
    + unfold st1. by rewrite grid_loop_elem_value.
  - intros j k Hjk. by apply (inj pretty) in Hjk.
Qed.

(** *** The pass and the run as a whole *)

Lemma assign_summary (sel : list ElementId) (sp : XYZ)
    (ints : list (XYZ * Grid * Grid)) (w : World) :
  active w = None → valid_ids sel w →
  ∃ m w',
    assign K sel sp ints w = Done m w' ∧
    active w' = None ∧
    transactions w' = transactions w ++ [(assign_name, Committed)] ∧
    alerts w' = alerts w ∧ uidoc w' = uidoc w ∧
    ∃ cs, calls w' = calls w ++ [Call_Start assign_name] ++ cs
                      ++ [Call_Commit assign_name] ∧
          m = written_ids cs ∧
          Forall (λ c, is_transaction c = false) cs.
Proof.
  intros Ha Hv.
  pose proof (assign_eq sel sp ints w Ha Hv) as Heq. simpl in Heq.
  set (w0 := start_world "Assign Grid Square and Number" w) in *.
  set (st1 := foldl (grid_square_pure K ints) (∅, w0) sel) in *.
  set (w2 := add_calls (distance_calls K st1.2 sp sel) st1.2) in *.
  set (ranked := sort_by_distance (located K st1.2 sp sel)) in *.
  pose proof (grid_loop_evolves ints sel (∅, w0)) as Hev1. fold st1 in Hev1.
  simpl in Hev1.
  pose proof (number_loop_evolves ranked (1, st1.1, w2)) as Hev3. simpl in Hev3.
  pose proof (number_loop_spec ranked 1 st1.1 w2) as (Hc & _ & Hm & _ & _).
  destruct (grid_loop_calls ints sel (∅, w0)) as (cs1 & Hcs1 & _ & Hm1 & Hq1).
  fold st1 in Hcs1, Hm1. simpl in Hcs1, Hm1.
  set (st3 := foldl number_pure (1, st1.1, w2) ranked) in *.
  assert (evolves w0 st3.2) as Hev.
  { eapply evolves_trans; [done|].
    eapply evolves_trans; [apply evolves_add_calls | done]. }
  destruct Hev as (_ & Ht & Hal & _ & Hu & _).
  eexists _, _. split; [done|]. simpl. split_and!; [done | by rewrite Ht | done | done |].
  exists (cs1 ++ distance_calls K st1.2 sp sel
            ++ number_calls 1 (filter (λ x, elem_writable w2 "Number" x.1 = true)
                                      ranked)).
  split_and!.
  - rewrite Hc. unfold w2. simpl. rewrite Hcs1. simpl.
    by rewrite <- !app_assoc.
  - rewrite !written_ids_app, number_calls_written, Hm, Hm1.
    destruct (distance_calls_no_set st1.2 sp sel "Number") as [_ ->].
    set_solver.
  - repeat apply Forall_app_2;
      [done | apply distance_calls_quiet | apply number_calls_quiet].
Qed.

Lemma main_outcome (w : World) :
  active w = None →
  match prepare K w with
  | Done (sel, sp, ints) w1 =>
      ∃ m w2,
        assign K sel sp ints w1 = Done m w2 ∧
        main K w
        = Done () (add_alert (if bool_decide (size m = length sel)
                              then success_message else failure_message) w2)
  | Exited w1 => main K w = Exited w1
  | Raised e w1 => main K w = Raised e w1
  end.
Proof.
  intros Ha. pose proof (prepare_outcome w Ha) as Hp. unfold main.
  rewrite bind_unfold.
  destruct (prepare K w) as [[[sel sp] ints] w1|w1|? w1]; [|done|done].
  destruct Hp as (-> & _ & Hv & _ & _ & _ & Hs).
  destruct (assign_summary (Selection (uidoc w)) sp ints w1) as (m & w2 & Heq & _);
    [apply Hs | by eapply setup_valid|].
  exists m, w2. split; [done|]. rewrite bind_unfold, Heq.
  by destruct (bool_decide _).
Qed.

(** *** The frame *)

Lemma frame_log (sel : list ElementId) (c : HostCall) :
  (∀ e n v, c = Call_Set e n v → e ∈ sel) →
  keeps (frame_inv sel) (modify (log_call c)).
Proof.
  intros Hc. apply keeps_modify. intros [es old] w (He & Hs & cs & Hcs & Hsel).
  split_and!; [done | done |]. exists (cs ++ [c]). simpl in *. split.
  - by rewrite Hcs, app_assoc.
  - intros e n v [Hin|Hin%list_elem_of_singleton]%elem_of_app; eauto.
Qed.

Lemma frame_Parameter_Set (sel : list ElementId) (elem : ElementId)
    (name value : string) :
  elem ∈ sel → keeps (frame_inv sel) (Parameter_Set elem name value).
Proof.
  intros Hin. unfold Parameter_Set. apply keeps_bind.
  - apply frame_log. by intros e n v [= <- _ _].
  - intros _. apply keeps_modify_doc.
    intros [es old] w _ (He & Hs & Hcs). split_and!; [|done|done].
    intros eid Heid. simpl. rewrite lookup_alter_ne; [by apply He|].
    by intros ->.
Qed.

Lemma frame_calls_snoc (sel : list ElementId) (old cs0 : list HostCall) (c : HostCall) :
  is_Set c = false →
  (∃ cs, cs0 = old ++ cs ∧ ∀ e n v, Call_Set e n v ∈ cs → e ∈ sel) →
  ∃ cs, cs0 ++ [c] = old ++ cs ∧ ∀ e n v, Call_Set e n v ∈ cs → e ∈ sel.
Proof.
  intros Hc (cs & -> & Hsel). exists (cs ++ [c]). split; [by rewrite app_assoc|].
  intros e n v [Hin|Hin%list_elem_of_singleton]%elem_of_app; [eauto|].
  by subst c.
Qed.

Lemma frame_Start (sel : list ElementId) (name : string) :
  keeps (frame_inv sel) (Transaction_Start name).
Proof.
  intros [es old] w Hinv. unfold Transaction_Start.
  destruct (active w) eqn:Ha; simpl; [done|].
  destruct Hinv as (He & Hs & Hcs).
  split_and!; [done| |by apply frame_calls_snoc]. simpl. by intros ? ? [= _ <-].
Qed.

Lemma frame_Commit (sel : list ElementId) :
  keeps (frame_inv sel) Transaction_Commit.
Proof.
  intros [es old] w Hinv. unfold Transaction_Commit.
  destruct (active w) as [[name snap]|] eqn:Ha; simpl; [|done].
  destruct Hinv as (He & Hs & Hcs).
  split_and!; [done | done | by apply frame_calls_snoc].
Qed.

Lemma frame_call_DistanceTo (sel : list ElementId) (p q : XYZ) :
  keeps (frame_inv sel) (call_DistanceTo K p q).
Proof.
  unfold call_DistanceTo. apply keeps_bind; [|intros; apply keeps_ret].
  by apply frame_log.
Qed.

Lemma frame_get_element_location (sel : list ElementId) (elem : ElementId) :
  keeps (frame_inv sel) (get_element_location K elem).
Proof. unfold get_element_location. repeat keeps_step. Qed.

Lemma frame_scan_step (sel : list ElementId) (pt : XYZ)
    (st : Float * option (Grid * Grid)) (i : XYZ * Grid * Grid) :
  keeps (frame_inv sel) (scan_step K pt st i).
Proof.
  unfold scan_step. destruct st as [min_dist closest], i as [[ip v] h].
  apply keeps_bind; [apply frame_call_DistanceTo|].
  intros dist. destruct (float_lt dist min_dist); apply keeps_ret.
Qed.

Lemma frame_grid_square_step (sel : list ElementId)
    (ints : list (XYZ * Grid * Grid)) (m : gset ElementId) (eid : ElementId) :
  eid ∈ sel → keeps (frame_inv sel) (grid_square_step K ints m eid).
Proof.
  intros Hin. unfold grid_square_step.
  apply keeps_bind; [apply frame_get_element_location|].
  intros [pt|]; [|apply keeps_ret].
  apply keeps_bind; [apply keeps_for_each; intros; apply frame_scan_step|].
  intros [min_dist [closest|]]; [|apply keeps_ret].
  apply keeps_bind; [apply keeps_attribute|].
  intros [param|]; [|apply keeps_ret].
  destruct (negb (IsReadOnly param)); [|apply keeps_ret].
  apply keeps_bind; [by apply frame_Parameter_Set | intros; apply keeps_ret].
Qed.

Lemma frame_distance_step (sel : list ElementId) (sp : XYZ)
    (acc : list (ElementId * Q)) (id : ElementId) :
  keeps (frame_inv sel) (distance_step K sp acc id).
Proof.
  unfold distance_step. apply keeps_bind; [apply frame_get_element_location|].
  intros [pt|]; [|apply keeps_ret].
  apply keeps_bind; [apply frame_call_DistanceTo | intros; apply keeps_ret].
Qed.

Lemma frame_number_step (sel : list ElementId) (st : nat * gset ElementId)
    (x : ElementId * Q) :
  x.1 ∈ sel → keeps (frame_inv sel) (number_step st x).
Proof.
  intros Hin. unfold number_step. destruct st as [num m], x as [elem dist].
  apply keeps_bind; [apply keeps_attribute|].
  intros [param|]; [|apply keeps_ret].
  destruct (negb (IsReadOnly param)); [|apply keeps_ret].
  apply keeps_bind; [by apply frame_Parameter_Set | intros; apply keeps_ret].
Qed.

Lemma frame_assign (sel : list ElementId) (sp : XYZ)
    (ints : list (XYZ * Grid * Grid)) :
  keeps (frame_inv sel) (assign K sel sp ints).
Proof.
  unfold assign. apply keeps_bind; [apply frame_Start | intros _].
  apply keeps_bind.
  { apply keeps_for_each_in. intros m eid Hin. by apply frame_grid_square_step. }
  intros m.
  apply (keeps_bind_result _ (λ r, ∀ x, x ∈ sort_by_distance r → x.1 ∈ sel)).
  { apply keeps_for_each. intros. apply frame_distance_step. }
  { intros w r w' Hloop x Hx. apply distance_loop_done in Hloop as [-> _].
    rewrite sort_by_distance_perm in Hx. simpl in Hx. by eapply located_ids. }
  intros ewd Hewd. apply keeps_bind.
  { apply keeps_for_each_in. intros st x Hx. apply frame_number_step; auto. }
  intros [num m']. apply keeps_bind; [apply frame_Commit | intros; apply keeps_ret].
Qed.

Lemma frame_inv_init (sel : list ElementId) (w : World) :
  active w = None → frame_inv sel (doc_elements (doc w), calls w) w.
Proof.
  intros Ha. split_and!; [done | by rewrite Ha |].
  exists []. split; [by rewrite app_nil_r|]. by intros e n v Hin%elem_of_nil.
Qed.

(** C6. The assignment pass leaves every element outside the selection
    exactly as it was and writes no parameter of such an element, whatever
    way the pass ends. *)
Theorem assign_touches_selection_only (sel : list ElementId) (sp : XYZ)
    (ints : list (XYZ * Grid * Grid)) (w : World) (eid : ElementId) :
  eid ∉ sel →
  let w' := result_world (assign K sel sp ints w) in
  doc_elements (doc w') !! eid = doc_elements (doc w) !! eid ∧
  ∀ name value, Call_Set eid name value ∉ new_calls w w'.
Proof.
  intros Hout w'. subst w'. destruct (active w) eqn:Ha.
  - (* a transaction is open already: Start raises at once *)
    unfold assign. rewrite bind_unfold. unfold Transaction_Start. rewrite Ha. simpl.
    split; [done|]. unfold new_calls. rewrite drop_all. intros ? ?. apply not_elem_of_nil.
  - destruct (frame_assign sel sp ints _ w (frame_inv_init sel w Ha))
      as (He & _ & cs & Hcs & Hsel). simpl in *.
    split; [by apply He|]. unfold new_calls. rewrite Hcs, drop_app_length.
    intros n v Hin. apply Hout. eauto.
Qed.

(** For a whole run of the script: an element outside the selection keeps
    what it has; the bindings of the run may give it new, empty parameters. *)
Lemma run_touches_selection_only (w : World) (eid : ElementId) :
  active w = None → eid ∉ Selection (uidoc w) →
  option_Forall2 gains (doc_elements (doc w) !! eid)
                       (doc_elements (doc (run K w).2) !! eid).
Proof.
  intros Ha Hout.
  pose proof (prepare_outcome w Ha) as Hp. pose proof (main_outcome w Ha) as Hm.
  unfold run. destruct (prepare K w) as [[[sel sp] ints] w1|w1|? w1].
  - destruct Hp as (-> & _ & Hv & _ & _ & _ & Hs).
    destruct Hm as (m & w2 & Hassign & ->).
    assert (active w1 = None) as Ha1 by apply Hs.
    destruct (assign_summary (Selection (uidoc w)) sp ints w1 Ha1)
      as (m' & w2' & Heq & Ha2 & _); [by eapply setup_valid|].
    rewrite Hassign in Heq. injection Heq as <- <-.
    destruct (frame_assign (Selection (uidoc w)) sp ints _ w1
                (frame_inv_init _ w1 Ha1)) as (He & _).
    rewrite Hassign in He. simpl in He.
    unfold close_world. simpl. rewrite Ha2. simpl. rewrite He by done.
    apply (proj1 Hs).
  - rewrite Hm. destruct Hp as [Hs _].
    assert (active w1 = None) as Ha1 by apply Hs.
    unfold close_world. rewrite Ha1. simpl. apply (proj1 Hs).
  - rewrite Hm. destruct Hp as [(-> & _)|(Hs & _)].
    + unfold close_world. rewrite Ha. simpl. apply elements_gain_refl.
    + assert (active w1 = None) as Ha1 by apply Hs.
      unfold close_world. rewrite Ha1. simpl. apply (proj1 Hs).
Qed.

(** *** Call counts *)

Section Counts.

Context (μ : HostCall → bool).

Lemma bounded_get_element_location (elem : ElementId) :
  bounded μ 0 (get_element_location K elem).
Proof.
  unfold get_element_location. apply (bounded_bind μ 0 0).
  - apply bounded_attribute.
  - intros loc. apply bounded_ret.
Qed.

Lemma bounded_call_DistanceTo (p q : XYZ) :
  bounded μ (if μ (Call_DistanceTo p q) then 1 else 0) (call_DistanceTo K p q).
Proof.
  unfold call_DistanceTo.
  apply (bounded_weaken μ ((if μ (Call_DistanceTo p q) then 1 else 0) + 0)); [lia|].
  apply bounded_bind; [apply bounded_log | intros _; apply bounded_ret].
Qed.

End Counts.

Lemma scan_step_distance_calls (pt : XYZ) (st : Float * option (Grid * Grid))
    (i : XYZ * Grid * Grid) :
  bounded is_DistanceTo 1 (scan_step K pt st i).
Proof.
  unfold scan_step. destruct st as [min_dist closest], i as [[ip v] h].
  apply (bounded_bind is_DistanceTo 1 0).
  - apply (bounded_call_DistanceTo is_DistanceTo).
  - intros dist. destruct (float_lt dist min_dist); apply bounded_ret.
Qed.

Lemma scan_step_set_calls (pt : XYZ) (st : Float * option (Grid * Grid))
    (i : XYZ * Grid * Grid) :
  bounded is_Set 0 (scan_step K pt st i).
Proof.
  unfold scan_step. destruct st as [min_dist closest], i as [[ip v] h].
  apply (bounded_bind is_Set 0 0).
  - apply (bounded_call_DistanceTo is_Set).
  - intros dist. destruct (float_lt dist min_dist); apply bounded_ret.
Qed.

Lemma grid_square_step_distance_calls (ints : list (XYZ * Grid * Grid))
    (m : gset ElementId) (eid : ElementId) :
  bounded is_DistanceTo (length ints) (grid_square_step K ints m eid).
Proof.
  unfold grid_square_step.
  apply (bounded_weaken _ (0 + (length ints * 1 + (0 + 0)))); [lia|].
  apply bounded_bind; [apply bounded_get_element_location|].
  intros [pt|]; [|apply (bounded_weaken _ 0); [lia | apply bounded_ret]].
  apply bounded_bind;
    [apply bounded_for_each; intros; apply scan_step_distance_calls|].
  intros [min_dist [closest|]]; [|apply (bounded_weaken _ 0); [lia | apply bounded_ret]].
  apply bounded_bind; [apply bounded_attribute|].
  intros [param|]; [|apply bounded_ret].
  destruct (negb (IsReadOnly param)); [|apply bounded_ret].
  apply (bounded_bind _ 0 0); [|intros; apply bounded_ret].
  apply (bounded_Parameter_Set is_DistanceTo).
Qed.

Lemma grid_square_step_set_calls (ints : list (XYZ * Grid * Grid))
    (m : gset ElementId) (eid : ElementId) :
  bounded is_Set 1 (grid_square_step K ints m eid).
Proof.
  unfold grid_square_step.
  apply (bounded_weaken _ (0 + (length ints * 0 + (0 + 1)))); [lia|].
  apply bounded_bind; [apply bounded_get_element_location|].
  intros [pt|]; [|apply (bounded_weaken _ 0); [lia | apply bounded_ret]].
  apply bounded_bind;
    [apply bounded_for_each; intros; apply scan_step_set_calls|].
  intros [min_dist [closest|]]; [|apply (bounded_weaken _ 0); [lia | apply bounded_ret]].
  apply bounded_bind; [apply bounded_attribute|].
  intros [param|]; [|apply (bounded_weaken _ 0); [lia | apply bounded_ret]].
  destruct (negb (IsReadOnly param));
    [|apply (bounded_weaken _ 0); [lia | apply bounded_ret]].
  apply (bounded_bind _ 1 0); [|intros; apply bounded_ret].
  apply (bounded_Parameter_Set is_Set).
Qed.

Lemma distance_step_distance_calls (sp : XYZ) (acc : list (ElementId * Q))
    (id : ElementId) :
  bounded is_DistanceTo 1 (distance_step K sp acc id).
Proof.
  unfold distance_step. apply (bounded_bind _ 0 1).
  - apply bounded_get_element_location.
  - intros [pt|]; [|apply (bounded_weaken _ 0); [lia | apply bounded_ret]].
    apply (bounded_bind _ 1 0); [|intros; apply bounded_ret].
    apply (bounded_call_DistanceTo is_DistanceTo).
Qed.

Lemma distance_step_set_calls (sp : XYZ) (acc : list (ElementId * Q))
    (id : ElementId) :
  bounded is_Set 0 (distance_step K sp acc id).
Proof.
  unfold distance_step. apply (bounded_bind _ 0 0).
  - apply bounded_get_element_location.
  - intros [pt|]; [|apply bounded_ret].
    apply (bounded_bind _ 0 0); [|intros; apply bounded_ret].
    apply (bounded_call_DistanceTo is_Set).
Qed.

Lemma number_step_distance_calls (st : nat * gset ElementId) (x : ElementId * Q) :
  bounded is_DistanceTo 0 (number_step st x).
Proof.
  unfold number_step. destruct st as [num m], x as [elem dist].
  apply (bounded_bind _ 0 0); [apply bounded_attribute|].
  intros [param|]; [|apply bounded_ret].
  destruct (negb (IsReadOnly param)); [|apply bounded_ret].
  apply (bounded_bind _ 0 0); [|intros; apply bounded_ret].
  apply (bounded_Parameter_Set is_DistanceTo).
Qed.

Lemma number_step_set_calls (st : nat * gset ElementId) (x : ElementId * Q) :
  bounded is_Set 1 (number_step st x).
Proof.
  unfold number_step. destruct st as [num m], x as [elem dist].
  apply (bounded_bind _ 0 1); [apply bounded_attribute|].
  intros [param|]; [|apply (bounded_weaken _ 0); [lia | apply bounded_ret]].
  destruct (negb (IsReadOnly param));
    [|apply (bounded_weaken _ 0); [lia | apply bounded_ret]].
  apply (bounded_bind _ 1 0); [|intros; apply bounded_ret].
  apply (bounded_Parameter_Set is_Set).
Qed.

Lemma distance_loop_length (sp : XYZ) (sel : list ElementId) (w w' : World)
    (r : list (ElementId * Q)) :
  for_each sel (distance_step K sp) [] w = Done r w' →
  length (sort_by_distance r) ≤ length sel.
Proof.
  intros Hloop. apply distance_loop_done in Hloop as [-> _]. simpl.
  rewrite sort_by_distance_length. apply located_length.
Qed.

Lemma assign_distance_calls (sel : list ElementId) (sp : XYZ)
    (ints : list (XYZ * Grid * Grid)) :
  bounded is_DistanceTo (length sel * length ints + length sel) (assign K sel sp ints).
Proof.
  unfold assign.
  apply (bounded_weaken _ (0 + (length sel * length ints + (length sel * 1 + 0))));
    [lia|].
  apply bounded_bind; [by apply bounded_Start | intros _].
  apply bounded_bind;
    [apply bounded_for_each; intros; apply grid_square_step_distance_calls|].
  intros m. apply bounded_bind;
    [apply bounded_for_each; intros; apply distance_step_distance_calls|].
  intros ewd. apply (bounded_bind _ 0 0).
  - apply (bounded_weaken _ (length (sort_by_distance ewd) * 0)); [lia|].
    apply bounded_for_each. intros. apply number_step_distance_calls.
  - intros [num m']. apply (bounded_bind _ 0 0); [by apply bounded_Commit|].
    intros _. apply bounded_ret.
Qed.

Lemma assign_set_calls (sel : list ElementId) (sp : XYZ)
    (ints : list (XYZ * Grid * Grid)) :
  bounded is_Set (2 * length sel) (assign K sel sp ints).
Proof.
  unfold assign.
  apply (bounded_weaken _ (0 + (length sel * 1 + (length sel * 0 + (length sel + 0)))));
    [lia|].
  apply bounded_bind; [by apply bounded_Start | intros _].
  apply bounded_bind;
    [apply bounded_for_each; intros; apply grid_square_step_set_calls|].
  intros m.
  apply (bounded_bind_result _ (λ r, length (sort_by_distance r) ≤ length sel)).
  - apply bounded_for_each. intros. apply distance_step_set_calls.
  - intros w a w'. apply distance_loop_length.
  - intros ewd Hlen. apply (bounded_bind _ _ 0).
    + apply (bounded_weaken _ (length (sort_by_distance ewd) * 1)); [lia|].
      apply bounded_for_each. intros. apply number_step_set_calls.
    + intros [num m']. apply (bounded_bind _ 0 0); [by apply bounded_Commit|].
      intros _. apply bounded_ret.
Qed.

Lemma bounded_new_calls {A} (μ : HostCall → bool) (n : nat) (m : Script A) (w : World) :
  bounded μ n m → length (filter μ (new_calls w (result_world (m w)))) ≤ n.
Proof.
  intros Hm. destruct (Hm w) as (cs & Hcs & Hn).
  unfold new_calls. by rewrite Hcs, drop_app_length.
Qed.

(** C7. Every pass is a total function of its (finite) inputs, so it
    returns; the nearest-intersection search asks the host for at most one
    distance per entry of the intersection list for each selected element,
    the whole assignment pass for at most n*m + n distances and 2n
    parameter writes (n selected elements, m intersections), and the
    intersection pass asks for exactly one intersection per (vertical,
    horizontal) pair. *)
Theorem passes_are_linear_scans (sel : list ElementId) (sp : XYZ)
    (ints : list (XYZ * Grid * Grid)) (v_grids h_grids : list Grid) (w : World) :
  (∀ m eid,
     length (filter is_DistanceTo
               (new_calls w (result_world (grid_square_step K ints m eid w))))
     ≤ length ints) ∧
  (let cs := new_calls w (result_world (assign K sel sp ints w)) in
   length (filter is_DistanceTo cs) ≤ length sel * length ints + length sel ∧
   length (filter is_Set cs) ≤ 2 * length sel) ∧
  (∃ r w', get_grid_intersections K v_grids h_grids w = Done r w' ∧
     length (filter is_Intersect (new_calls w w')) = length v_grids * length h_grids ∧
     length r ≤ length v_grids * length h_grids).
Proof.
  split_and!.
  - intros m eid. apply bounded_new_calls, grid_square_step_distance_calls.
  - simpl. split; apply bounded_new_calls;
      [apply assign_distance_calls | apply assign_set_calls].
  - rewrite get_grid_intersections_eq. eexists _, _. split; [done|].
    rewrite new_calls_add. split.
    + induction v_grids as [|v vs IH]; [done|]. rewrite bind_cons.
      rewrite filter_app, length_app, IH. simpl. f_equal.
      clear. induction h_grids as [|h hs IH]; [done|]. simpl.
      f_equal. exact IH.
    + induction v_grids as [|v vs IH]; [done|]. rewrite bind_cons, length_app.
      simpl. apply Nat.add_le_mono; [|done].
      clear. induction h_grids as [|h hs IH]; [done|]. rewrite bind_cons, length_app.
      assert (length (pair_intersection K v h) ≤ 1); [|simpl; lia].
      unfold pair_intersection. destruct (Intersect K _ _) as [[] []]; simpl; lia.
Qed.

(** ** The run *)

Lemma setup_written (n : nat) (w w' : World) :
  setup n w w' →
  ∃ cs, calls w' = calls w ++ cs ∧ filter is_Set cs = [] ∧ written_ids cs = ∅.
Proof.
  intros (_ & _ & _ & _ & (cs & Hcs & Hno) & _). exists cs. split; [done|].
  split; [|by apply (no_set_calls cs "")].
  clear Hcs. induction Hno as [|c cs Hc Hcs IH]; [done|].
  rewrite filter_cons. by destruct c.
Qed.

(** C10. The selection filter accepts exactly the elements whose id is in
    the initial selection and refuses every reference; whenever the script
    gets as far as the assignment transaction, its start point is the
    location of the element the user picked, and that element is one of the
    initially selected ones. *)
Theorem start_point_is_a_selected_location (w w' : World) (sel : list ElementId)
    (sp : XYZ) (ints : list (XYZ * Grid * Grid)) :
  active w = None → prepare K w = Done (sel, sp, ints) w' →
  (∀ element, AllowElement (mkFilter sel) element = true ↔ element ∈ sel) ∧
  (∀ ref point, AllowReference (mkFilter sel) ref point = false) ∧
  sel = Selection (uidoc w) ∧
  ∃ start_elem,
    picked w = Some start_elem ∧ start_elem ∈ sel ∧
    element_point K w start_elem = Some sp ∧
    element_point K w' start_elem = Some sp.
Proof.
  intros Ha Hprep. pose proof (prepare_outcome w Ha) as Hp. rewrite Hprep in Hp.
  destruct Hp as (-> & _ & _ & (r & Hpick & Hsp) & _ & _ & Hs).
  split_and!; [|done|done|].
  - intros element. unfold AllowElement. simpl. apply bool_decide_eq_true.
  - exists r. destruct (picked_in_selection w r Hpick) as (Hin & _).
    split_and!; [done | done | done |]. by rewrite (setup_element_point 2 w w').
Qed.

(** C8. With nothing selected, no start element picked, a start element
    without a location, or grids (all lines) that give no intersection, the
    script shows
    an alert and exits; no parameter has been written, every element still
    has what it had with the values it had (the bindings made before may
    have given elements new, empty parameters), and the assignment
    transaction has not been opened. *)
Theorem early_exit_writes_nothing (w : World) :
  active w = None → valid_ids (Selection (uidoc w)) w →
  Selection (uidoc w) = [] ∨ picked w = None ∨ start_location K w = None ∨
    (curved_grids (doc w) = [] ∧ intersections_spec K (Grids (doc w)) = []) →
  ∃ w',
    main K w = Exited w' ∧ run K w = (Exit, w') ∧
    length (alerts w) < length (alerts w') ∧
    filter is_Set (new_calls w w') = [] ∧
    elements_gain (doc_elements (doc w)) (doc_elements (doc w')) ∧
    (∀ eid name v, elem_value w name eid = Some v →
                   elem_value w' name eid = Some v) ∧
    Forall (λ t, t.1 ≠ assign_name)
           (drop (length (transactions w)) (transactions w')).
Proof.
  intros Ha Hv Hcond.
  pose proof (prepare_outcome w Ha) as Hp. pose proof (main_outcome w Ha) as Hm.
  destruct (prepare K w) as [[[sel sp] ints] w1|w1|? w1].
  - (* the script cannot get through *)
    exfalso. destruct Hp as (-> & Hne & _ & (r & Hpick & Hsp) & -> & Hints & _).
    destruct Hcond as [Hc|[Hc|[Hc|[_ Hc]]]]; [done | congruence | | done].
    unfold start_location in Hc. rewrite Hpick in Hc. simpl in Hc. congruence.
  - destruct Hp as [Hs Hlen]. exists w1.
    assert (active w1 = None) as Ha1 by apply Hs.
    destruct (setup_written 2 w w1 Hs) as (cs & Hcs & Hno & _).
    pose proof Hs as (He & _ & _ & _ & _ & (ts & Hts & _ & Hnm) & _).
    split_and!; [done | | done | | done | |].
    + unfold run. rewrite Hm. unfold close_world. by rewrite Ha1.
    + unfold new_calls. by rewrite Hcs, drop_app_length.
    + intros eid name v. by apply (setup_elem_value 2).
    + by rewrite Hts, drop_app_length.
  - exfalso. destruct Hp as [(_ & _ & Hnv)|(_ & Hcurved & _ & Hne & _ & Hloc)]; [done|].
    destruct Hcond as [Hc|[Hc|[Hc|[Hc _]]]]; [done | | | done].
    + unfold start_location in Hloc. rewrite Hc in Hloc. by destruct Hloc.
    + rewrite Hc in Hloc. by destruct Hloc.
Qed.

(** *** The assignment transaction is all or nothing *)









Lemma success_report_iff (w w' : World) :
  active w = None → main K w = Done () w' →
  ∃ msg,
    last (alerts w') = Some msg ∧
    (msg = success_message ↔
     size (written_ids (new_calls w w')) = length (Selection (uidoc w))).
Proof.
  intros Ha Hmain.
  pose proof (prepare_outcome w Ha) as Hp. pose proof (main_outcome w Ha) as Hm.
  destruct (prepare K w) as [[[sel sp] ints] w1|w1|? w1]; [|congruence|congruence].
  destruct Hp as (-> & _ & Hv & _ & _ & _ & Hs).
  destruct Hm as (m & w2 & Hassign & Hm). rewrite Hm in Hmain.
  injection Hmain as <-.
  destruct (assign_summary (Selection (uidoc w)) sp ints w1)
    as (m' & w2' & Heq & _ & _ & _ & _ & cs & Hcs & -> & _);
    [apply Hs | by eapply setup_valid|].
  rewrite Hassign in Heq. injection Heq as -> <-.
  destruct (setup_written 2 w w1 Hs) as (pcs & Hpcs & _ & Hpw).
  assert (written_ids (new_calls w w2) = written_ids cs) as Hw.
  { unfold new_calls. rewrite Hcs, Hpcs, <- app_assoc, drop_app_length.
    rewrite !written_ids_app, Hpw. unfold written_ids at 1 3. simpl. set_solver. }
  eexists. split; [apply last_snoc|]. simpl.
  change (new_calls w (add_alert _ w2)) with (new_calls w w2). rewrite Hw.
  destruct (bool_decide (size (written_ids cs) = length (Selection (uidoc w))))
    eqn:Hsize.
  - apply bool_decide_eq_true in Hsize. done.
  - apply bool_decide_eq_false in Hsize. split; [done | tauto].
Qed.

End HostFacts.

(** ** [ensure_text_parameter] *)

Lemma build_cat_set_acc (categories : list Category) (acc : CategorySet) :
  foldl (λ cat_set cat,
           if AllowsBoundParameters cat then cat_set ∪ {[cat]} else cat_set)
        acc categories
  = acc ∪ list_to_set (filter (λ c, AllowsBoundParameters c = true) categories).
Proof.
  revert acc. induction categories as [|c cs IH]; intros acc; simpl.
  - set_solver.
  - rewrite IH, filter_cons. destruct (AllowsBoundParameters c); simpl;
      [set_solver | done].
Qed.

Lemma elem_of_build_cat_set (categories : list Category) (c : Category) :
  c ∈ build_cat_set categories ↔ c ∈ categories ∧ AllowsBoundParameters c = true.
Proof.
  unfold build_cat_set. rewrite build_cat_set_acc.
  rewrite elem_of_union, elem_of_list_to_set, list_elem_of_filter. set_solver.
Qed.

Lemma missing_categories_acc (l : list Category) (existingCats acc : CategorySet) :
  foldl (λ missingCats cat,
           if bool_decide (cat ∈ existingCats) then missingCats
           else missingCats ∪ {[cat]})
        acc l
  = acc ∪ (list_to_set l ∖ existingCats).
Proof.
  revert acc. induction l as [|c l IH]; intros acc; simpl.
  - set_solver.
  - rewrite IH. case_bool_decide; set_solver.
Qed.

Lemma missing_categories_difference (cat_set existingCats : CategorySet) :
  missing_categories cat_set existingCats = cat_set ∖ existingCats.
Proof.
  unfold missing_categories. rewrite missing_categories_acc.
  rewrite list_to_set_elements_L. set_solver.
Qed.

Lemma insert_missing_acc (l : list Category) (acc : CategorySet) :
  foldl (λ existingCats missingCat,
           if AllowsBoundParameters missingCat then existingCats ∪ {[missingCat]}
           else existingCats)
        acc l
  = acc ∪ list_to_set (filter (λ c, AllowsBoundParameters c = true) l).
Proof. apply build_cat_set_acc. Qed.

Lemma insert_missing_union (categories : list Category) (existingCats : CategorySet) :
  insert_missing (missing_categories (build_cat_set categories) existingCats)
                 existingCats
  = existingCats ∪ build_cat_set categories.
Proof.
  unfold insert_missing. rewrite insert_missing_acc, missing_categories_difference.
  apply set_eq. intros c.
  rewrite !elem_of_union, elem_of_list_to_set, list_elem_of_filter,
    elem_of_elements, elem_of_difference, elem_of_build_cat_set.
  destruct (decide (c ∈ existingCats)); tauto.
Qed.

Lemma find_ReInsert (name : string) (key : ParamDefinition) (b : Binding)
    (m : BindingMap) :
  find (λ e, has_def_name name e.1) (BindingMap_ReInsert key b m)
  = (λ e, if bool_decide (e.1 = key) then (e.1, (b, e.2.2)) else e)
      <$> find (λ e, has_def_name name e.1) m.
Proof.
  unfold BindingMap_ReInsert. induction m as [|e m IH]; csimpl; [done|].
  assert ((if bool_decide (e.1 = key) then (e.1, (b, e.2.2)) else e).1 = e.1) as ->
    by (by case_bool_decide).
  destruct (has_def_name name e.1); [done | apply IH].
Qed.

Lemma find_Insert_new (name : string) (key : ParamDefinition) (b : Binding)
    (g : BuiltInParameterGroup) (m : BindingMap) :
  find (λ e, has_def_name name e.1) m = None → def_Name key = name →
  BindingMap_Insert key b g m = m ++ [(key, (b, g))] ∧
  find (λ e, has_def_name name e.1) (BindingMap_Insert key b g m)
  = Some (key, (b, g)).
Proof.
  intros Hnone Hkey. unfold BindingMap_Insert.
  assert (key ∉ m.*1) as Hnot.
  { intros (e & -> & He)%list_elem_of_fmap.
    apply list_elem_of_In in He. eapply find_none in Hnone; [|done].
    simpl in Hnone. unfold has_def_name in Hnone.
    by rewrite bool_decide_eq_true_2 in Hnone. }
  rewrite bool_decide_eq_false_2 by done. split; [done|].
  clear Hnot. induction m as [|e m IH]; simpl in *.
  - unfold has_def_name. by rewrite bool_decide_eq_true_2.
  - destruct (has_def_name name e.1); [done | by apply IH].
Qed.

(** What a normal return of [ensure_text_parameter] guarantees: a parameter
    of that name is bound, and its binding covers every given category that
    allows bound parameters.  A parameter that was already there keeps its
    definition (whatever its type), its group and its kind of binding, and
    gains the missing categories only; one that was not there is appended as
    an instance binding of exactly those categories and, unless the shared
    parameter file already had a definition of that name in the "Grid Tools"
    group, its definition is a new text definition. *)
Lemma ensure_text_parameter_binds (name : string) (categories : list Category)
    (w w' : World) :
  active w = None → ensure_text_parameter name categories w = Done () w' →
  ∃ d b g,
    find (λ e, has_def_name name e.1) (ParameterBindings (doc w')) = Some (d, (b, g)) ∧
    def_Name d = name ∧
    build_cat_set categories ⊆ Categories b ∧
    match find (λ e, has_def_name name e.1) (ParameterBindings (doc w)) with
    | Some (d0, (b0, g0)) =>
        d = d0 ∧ g = g0 ∧ binding_Kind b = binding_Kind b0 ∧
        Categories b = Categories b0 ∪ build_cat_set categories ∧
        (ParameterBindings (doc w') = ParameterBindings (doc w) ∨
         ParameterBindings (doc w')
         = BindingMap_ReInsert d b (ParameterBindings (doc w)))
    | None =>
        b = mkBinding InstanceBinding (build_cat_set categories) ∧ g = PG_DATA ∧
        ParameterBindings (doc w') = ParameterBindings (doc w) ++ [(d, (b, g))] ∧
        (is_text (def_Type d) = true ∨
         ∃ file grp, OpenSharedParameterFile (app w) = Some file ∧
                     find (has_group_name group_name) file = Some grp ∧
                     find (has_def_name name) (Definitions grp) = Some d)
    end.
Proof.
  intros Ha. unfold ensure_text_parameter. rewrite bind_unfold. simpl.
  destruct (find _ (ParameterBindings (doc w))) as [[d0 [b0 g0]]|] eqn:Hfind.
  - (* the parameter exists *)
    assert (def_Name d0 = name) as Hname.
    { apply find_some in Hfind as [_ Hn]. by apply bool_decide_eq_true in Hn. }
    unfold update_binding. rewrite missing_categories_difference.
    case_bool_decide as Hsize.
    + unfold_script. rewrite Ha. simpl. intros [= <-]. simpl.
      rewrite find_ReInsert, Hfind. simpl. rewrite bool_decide_eq_true_2 by done.
      rewrite <- missing_categories_difference, insert_missing_union.
      eexists _, _, _. split; [done|]. simpl.
      split_and!; try done; [set_solver | by right].
    + intros [= <-]. rewrite Hfind. exists d0, b0, g0.
      assert (build_cat_set categories ⊆ Categories b0) as Hsub.
      { apply elem_of_subseteq. intros c Hc.
        destruct (decide (c ∈ Categories b0)) as [|Hnot]; [done|]. exfalso.
        apply Hsize.
        assert (c ∈ build_cat_set categories ∖ Categories b0) as Hin by set_solver.
        destruct (decide (size (build_cat_set categories ∖ Categories b0) = 0))
          as [Hz%size_empty_inv|]; [set_solver | lia]. }
      split_and!; try done; [set_solver | by left].
  - (* it is created *)
    rewrite bind_unfold. unfold Transaction_Start. rewrite Ha. simpl.
    unfold try_except, create_parameter, update_shared_file,
      set_SharedParametersFilename, write_empty_file.
    unfold_script. simpl.
    assert (∀ ty b g m,
              find (λ e, has_def_name name e.1) m = None →
              find (λ e, has_def_name name e.1)
                   (BindingMap_Insert (mkDefinition name ty) b g m)
              = Some (mkDefinition name ty, (b, g)) ∧
              BindingMap_Insert (mkDefinition name ty) b g m
              = m ++ [(mkDefinition name ty, (b, g))]) as Hnew.
    { intros ty b g m Hm.
      destruct (find_Insert_new name (mkDefinition name ty) b g m Hm eq_refl).
      done. }
    destruct (OpenSharedParameterFile (app w)) as [file|] eqn:Hopen.
    + destruct (find (has_group_name group_name) file) as [grp|] eqn:Hgrp; simpl.
      * destruct (find (has_def_name name) (Definitions grp)) as [d|] eqn:Hd; simpl.
        -- intros [= <-]. simpl.
           assert (def_Name d = name) as Hname.
           { apply find_some in Hd as [_ Hn]. by apply bool_decide_eq_true in Hn. }
           destruct (find_Insert_new name d
                       (mkBinding InstanceBinding (build_cat_set categories))
                       PG_DATA _ Hfind Hname) as [Hins Hfound].
           eexists _, _, _. split; [done|]. simpl.
           split_and!; try done. right. eauto.
        -- intros [= <-]. simpl.
           destruct (Hnew (if bool_decide (revitVersion (app w) < 2023)%Z
                           then ParameterType_Text else SpecTypeId_String_Text)
                       (mkBinding InstanceBinding (build_cat_set categories))
                       PG_DATA _ Hfind) as [Hfound Hins].
           case_bool_decide; simpl in *; eexists _, _, _;
             (split; [done|]); simpl; split_and!; try done; by left.
      * intros [= <-]. simpl.
        destruct (Hnew (if bool_decide (revitVersion (app w) < 2023)%Z
                        then ParameterType_Text else SpecTypeId_String_Text)
                    (mkBinding InstanceBinding (build_cat_set categories))
                    PG_DATA _ Hfind) as [Hfound Hins].
        case_bool_decide; simpl in *; eexists _, _, _;
          (split; [done|]); simpl; split_and!; try done; by left.
    + simpl. destruct (tempdir_writable (app w)); simpl; [|done].
      unfold OpenSharedParameterFile. simpl. rewrite lookup_insert_eq. simpl.
      intros [= <-]. simpl.
      destruct (Hnew (if bool_decide (revitVersion (app w) < 2023)%Z
                      then ParameterType_Text else SpecTypeId_String_Text)
                  (mkBinding InstanceBinding (build_cat_set categories))
                  PG_DATA _ Hfind) as [Hfound Hins].
      case_bool_decide; simpl in *; eexists _, _, _;
        (split; [done|]); simpl; split_and!; try done; by left.
Qed.

(** A second call with the same arguments changes nothing. *)
Lemma ensure_text_parameter_idempotent (name : string) (categories : list Category)
    (w w' : World) :
  active w = None → ensure_text_parameter name categories w = Done () w' →
  ensure_text_parameter name categories w' = Done () w'.
Proof.
  intros Ha Hrun.
  destruct (ensure_text_parameter_binds name categories w w' Ha Hrun)
    as (d & b & g & Hfind & _ & Hsub & _).
  unfold ensure_text_parameter. rewrite bind_unfold. simpl. rewrite Hfind.
  unfold update_binding. rewrite missing_categories_difference.
  rewrite bool_decide_eq_false_2; [done|].
  assert (build_cat_set categories ∖ Categories b = ∅) as -> by set_solver.
  rewrite size_empty. lia.
Qed.

(** * The example, evaluated *)

Lemma valid_ids_Forall (ids : list ElementId) (w : World) :
  Forall (λ id, is_Some (doc_elements (doc w) !! id)) ids → valid_ids ids w.
Proof. intros Hall id Hid. rewrite Forall_forall in Hall. by apply Hall. Qed.

Example example_intersections :
  intersections_spec Example.kernel (Grids (doc Example.world0)) = Example.ints0.
Proof. vm_compute. reflexivity. Qed.

Example example_run :
  (run Example.kernel Example.world0).1 = Completed ∧
  filter is_Set (calls (run Example.kernel Example.world0).2)
  = [Call_Set 101 "Grid Square" "A-1"; Call_Set 102 "Grid Square" "B-1";
     Call_Set 103 "Grid Square" "A-1"; Call_Set 103 "Number" "1";
     Call_Set 101 "Number" "2"; Call_Set 102 "Number" "3"].
Proof. vm_compute. done. Qed.

Lemma example_valid : valid_ids Example.sel0 Example.world0.
Proof. apply valid_ids_Forall. apply (bool_decide_unpack _). by vm_compute. Defined.

(** C1 at the example: wall 102 stands at x = 8, nearest to B-1. *)
Lemma grid_square_is_first_nearest_witness :
  ∃ m w' i x,
    assign Example.kernel Example.sel0 (Example.pt 4) Example.ints0 Example.world0
    = Done m w' ∧
    first_nearest Example.kernel (Example.pt 8) Example.ints0 i x ∧
    let label := grid_Name x.1.2 +:+ "-" +:+ grid_Name x.2 in
    elem_value w' "Grid Square" 102%Z = Some label ∧
    Call_Set 102%Z "Grid Square" label ∈ new_calls Example.world0 w' ∧
    102%Z ∈ m ∧
    transactions w'
    = transactions Example.world0 ++ [("Assign Grid Square and Number", Committed)].
Proof.
  apply (grid_square_is_first_nearest Example.kernel Example.sel0 (Example.pt 4)
           Example.ints0 Example.world0 102%Z (Example.wall 8) (Example.pt 8)
           (Example.blank "Grid Square")).
  - reflexivity.
  - exact example_valid.
  - by apply (bool_decide_unpack _).
  - reflexivity.
  - reflexivity.
  - discriminate.
  - reflexivity.
  - reflexivity.
Defined.

(** C2 (amended) at the example. *)
Lemma numbering_follows_distance_witness :
  ∃ m w',
    assign Example.kernel Example.sel0 (Example.pt 4) Example.ints0 Example.world0
    = Done m w' ∧
    filter (is_Set_of "Number") (new_calls Example.world0 w')
    = number_calls 1 (numbered Example.kernel Example.world0 (Example.pt 4)
                               Example.sel0).
Proof.
  destruct (numbering_follows_distance Example.kernel Example.sel0 (Example.pt 4)
              Example.ints0 Example.world0 eq_refl example_valid)
    as (m & w' & Heq & _ & _ & _ & Hcalls & _).
  exists m, w'. split; [exact Heq | exact Hcalls].
Defined.

(** C2 as stated fails: element 104 is selected but has no location, so
    it gets no number; only element 101 is numbered. *)
Lemma unlocated_element_gets_no_number :
  ∃ m w',
    assign Example.kernel [101%Z; 104%Z]%Z (Example.pt 1) Example.ints0
           Example.world_unlocated = Done m w' ∧
    104%Z ∈ Selection (uidoc Example.world_unlocated) ∧
    filter (is_Set_of "Number") (new_calls Example.world_unlocated w')
    = [Call_Set 101%Z "Number" "1"] ∧
    elem_value w' "Number" 104%Z = Some "".
Proof.
  eexists _, _. split; [vm_compute; reflexivity|].
  split; [by apply (bool_decide_unpack _)|]. split; by vm_compute.
Qed.

(** C6 at the example, the pass running on elements 101 and 102 only:
    element 103, a wall of the document, is not selected. *)
Lemma assign_touches_selection_only_witness :
  doc_elements (doc Example.world0) !! 103%Z = Some (Example.wall 4) ∧
  let w' := result_world (assign Example.kernel [101%Z; 102%Z] (Example.pt 4)
                            Example.ints0 Example.world0) in
  doc_elements (doc w') !! 103%Z = doc_elements (doc Example.world0) !! 103%Z ∧
  ∀ name value, Call_Set 103%Z name value ∉ new_calls Example.world0 w'.
Proof.
  split; [reflexivity|].
  apply (assign_touches_selection_only Example.kernel [101%Z; 102%Z]
           (Example.pt 4) Example.ints0 Example.world0 103%Z).
  by apply (bool_decide_unpack _).
Defined.



(** C8 at the example: the user gives up picking. *)
Lemma early_exit_writes_nothing_witness :
  ∃ w',
    main Example.kernel Example.world_cancel = Exited w' ∧
    run Example.kernel Example.world_cancel = (Exit, w') ∧
    length (alerts Example.world_cancel) < length (alerts w') ∧
    filter is_Set (new_calls Example.world_cancel w') = [] ∧
    elements_gain (doc_elements (doc Example.world_cancel))
                  (doc_elements (doc w')) ∧
    (∀ eid name v, elem_value Example.world_cancel name eid = Some v →
                   elem_value w' name eid = Some v) ∧
    Forall (λ t, t.1 ≠ assign_name)
           (drop (length (transactions Example.world_cancel)) (transactions w')).
Proof.
  apply (early_exit_writes_nothing Example.kernel Example.world_cancel).
  - reflexivity.
  - exact example_valid.
  - right. left. by vm_compute.
Defined.

(** C10 at the example: the user ends up picking wall 103, at x = 4. *)
Lemma start_point_is_a_selected_location_witness :
  let w' := result_world (prepare Example.kernel Example.world0) in
  (∀ element, AllowElement (mkFilter Example.sel0) element = true
              ↔ element ∈ Example.sel0) ∧
  (∀ ref point, AllowReference (mkFilter Example.sel0) ref point = false) ∧
  Example.sel0 = Selection (uidoc Example.world0) ∧
  ∃ start_elem,
    picked Example.world0 = Some start_elem ∧ start_elem ∈ Example.sel0 ∧
    element_point Example.kernel Example.world0 start_elem = Some (Example.pt 4) ∧
    element_point Example.kernel w' start_elem = Some (Example.pt 4).
Proof.
  apply (start_point_is_a_selected_location Example.kernel Example.world0 _
           Example.sel0 (Example.pt 4) Example.ints0).
  - reflexivity.
  - by vm_compute.
Defined.

(** C5 fails on a project that already has a non-text parameter of the
    requested name: the call returns normally, changes nothing, and the only
    parameter called "Number" in the binding map is still the integer one. *)
Theorem ensure_text_parameter_accepts_non_text :
  ensure_text_parameter "Number" [Example.walls] Example.world_integer_number
  = Done () Example.world_integer_number ∧
  ParameterBindings (doc Example.world_integer_number)
  = [(Example.integer_number, (mkBinding InstanceBinding {[Example.walls]}, PG_DATA))] ∧
  is_text (def_Type Example.integer_number) = false.
Proof. split_and!; by vm_compute. Qed.

(** C9. The closing report says "successfully numbered" exactly when the
    number of distinct elements that received at least one parameter write
    equals the number of selected elements; an element that received only
    one of the two parameters counts, so the success report can appear
    although a selected element got no "Number". *)
Theorem success_report_counts_any_write :
  (∀ K w w', active w = None → main K w = Done () w' →
     ∃ msg,
       last (alerts w') = Some msg ∧
       (msg = success_message ↔
        size (written_ids (new_calls w w')) = length (Selection (uidoc w)))) ∧
  (∃ w',
     main Example.kernel Example.world_partial = Done () w' ∧
     last (alerts w') = Some success_message ∧
     102%Z ∈ Selection (uidoc Example.world_partial) ∧
     filter is_Set (new_calls Example.world_partial w')
     = [Call_Set 101 "Grid Square" "A-1"; Call_Set 102 "Grid Square" "B-1";
        Call_Set 101 "Number" "1"]).
Proof.
  split.
  - intros K w w'. apply success_report_iff.
  - eexists. split; [vm_compute; reflexivity|].
    split_and!; [by vm_compute | by apply (bool_decide_unpack _) | by vm_compute].
Qed.

(** C9 at the example. *)
Lemma success_report_counts_any_write_witness :
  ∃ msg,
    last (alerts (result_world (main Example.kernel Example.world0))) = Some msg ∧
    (msg = success_message ↔
     size (written_ids (new_calls Example.world0
                          (result_world (main Example.kernel Example.world0))))
     = length (Selection (uidoc Example.world0))).
Proof.
  apply (proj1 success_report_counts_any_write Example.kernel Example.world0).
  - reflexivity.
  - by vm_compute.
Defined.

(** * Further properties of the script *)

(** ** [ensure_text_parameter]: a parameter that is already bound *)

Lemma ReInsert_keys (key : ParamDefinition) (b : Binding) (m : BindingMap) :
  (BindingMap_ReInsert key b m).*1 = m.*1.
Proof.
  unfold BindingMap_ReInsert. rewrite <- list_fmap_compose. apply list_fmap_ext.
  intros i e _. simpl. by case_bool_decide.
Qed.

Lemma ReInsert_lookup_ne (key : ParamDefinition) (b : Binding) (m : BindingMap)
    (i : nat) (e : ParamDefinition * (Binding * BuiltInParameterGroup)) :
  m !! i = Some e → e.1 ≠ key → BindingMap_ReInsert key b m !! i = Some e.
Proof.
  intros Hi Hne. unfold BindingMap_ReInsert. rewrite list_lookup_fmap, Hi. simpl.
  by rewrite bool_decide_eq_false_2.
Qed.

Lemma missing_size (cat_set existingCats : CategorySet) :
  0 < size (missing_categories cat_set existingCats) ↔ ¬ cat_set ⊆ existingCats.
Proof.
  rewrite missing_categories_difference. split.
  - intros Hs Hsub. assert (cat_set ∖ existingCats = ∅) as Hz by set_solver.
    rewrite Hz, size_empty in Hs. lia.
  - intros Hn.
    destruct (decide (size (cat_set ∖ existingCats) = 0)) as [Hz%size_empty_inv|];
      [|lia].
    exfalso. apply Hn. set_solver.
Qed.

(** The parameter is already bound: what the call does. *)
Lemma ensure_widens (name : string)
    (categories : list Category) (w : World) (d0 : ParamDefinition) (b0 : Binding)
    (g0 : BuiltInParameterGroup) :
  active w = None →
  find (λ e, has_def_name name e.1) (ParameterBindings (doc w)) = Some (d0, (b0, g0)) →
  ∃ w',
    ensure_text_parameter name categories w = Done () w' ∧
    find (λ e, has_def_name name e.1) (ParameterBindings (doc w'))
    = Some (d0, (mkBinding (binding_Kind b0)
                           (Categories b0 ∪ build_cat_set categories), g0)) ∧
    (ParameterBindings (doc w')).*1 = (ParameterBindings (doc w)).*1 ∧
    (∀ i e, ParameterBindings (doc w) !! i = Some e → e.1 ≠ d0 →
            ParameterBindings (doc w') !! i = Some e) ∧
    doc_elements (doc w')
    = (if bool_decide (build_cat_set categories ⊆ Categories b0)
       then doc_elements (doc w)
       else give_parameter d0
              (mkBinding (binding_Kind b0)
                         (Categories b0 ∪ build_cat_set categories))
            <$> doc_elements (doc w)) ∧
    app w' = app w ∧ alerts w' = alerts w ∧ active w' = None ∧
    transactions w'
    = transactions w ++
        (if bool_decide (build_cat_set categories ⊆ Categories b0) then []
         else [(update_name name, Committed)]).
Proof.
  intros Ha Hfind. unfold ensure_text_parameter. rewrite bind_unfold. simpl.
  rewrite Hfind. unfold update_binding.
  assert (def_Name d0 = name) as Hname.
  { apply find_some in Hfind as [_ Hn]. by apply bool_decide_eq_true in Hn. }
  destruct (decide (build_cat_set categories ⊆ Categories b0)) as [Hsub|Hnsub].
  - rewrite (bool_decide_eq_false_2 (0 < _)) by (rewrite missing_size; tauto).
    exists w. rewrite (bool_decide_eq_true_2 (_ ⊆ _)) by done.
    split_and!; try done; [|by rewrite app_nil_r].
    rewrite Hfind. destruct b0 as [kind cats]. simpl in *.
    do 4 f_equal. set_solver.
  - rewrite (bool_decide_eq_true_2 (0 < _)) by (by apply missing_size).
    unfold_script. rewrite Ha. simpl. eexists. split; [done|]. simpl.
    rewrite find_ReInsert, Hfind. simpl. rewrite bool_decide_eq_true_2 by done.
    rewrite insert_missing_union.
    rewrite (bool_decide_eq_false_2 (_ ⊆ _)) by done.
    split_and!; try done.
    + apply ReInsert_keys.
    + intros i e Hi Hne. by apply ReInsert_lookup_ne.
    + rewrite bool_decide_eq_true_2; [done|].
      apply find_some in Hfind as [Hin _]. apply list_elem_of_In in Hin.
      apply list_elem_of_fmap. by exists (d0, (b0, g0)).
Qed.

(** X1. When a parameter of the requested name is already bound, the call
    returns normally; the parameter keeps its definition, its group and its
    kind of binding, and its categories become the old ones together with
    the given categories that allow bound parameters.  Every other entry of
    the binding map, the application and the alerts are left alone; a
    transaction "Update binding for <name>" is committed exactly when a
    category was missing, and none is opened otherwise.  When no category
    was missing the elements are as they were; otherwise the widened binding
    is inserted again, and the elements are what the host makes of them
    then: an element of one of the binding's categories that has no
    parameter of this name gets one. *)
Theorem existing_parameter_is_only_widened (name : string)
    (categories : list Category) (w : World) (d0 : ParamDefinition) (b0 : Binding)
    (g0 : BuiltInParameterGroup) :
  active w = None →
  find (λ e, has_def_name name e.1) (ParameterBindings (doc w)) = Some (d0, (b0, g0)) →
  ∃ w',
    ensure_text_parameter name categories w = Done () w' ∧
    find (λ e, has_def_name name e.1) (ParameterBindings (doc w'))
    = Some (d0, (mkBinding (binding_Kind b0)
                           (Categories b0 ∪ build_cat_set categories), g0)) ∧
    (ParameterBindings (doc w')).*1 = (ParameterBindings (doc w)).*1 ∧
    (∀ i e, ParameterBindings (doc w) !! i = Some e → e.1 ≠ d0 →
            ParameterBindings (doc w') !! i = Some e) ∧
    doc_elements (doc w')
    = (if bool_decide (build_cat_set categories ⊆ Categories b0)
       then doc_elements (doc w)
       else give_parameter d0
              (mkBinding (binding_Kind b0)
                         (Categories b0 ∪ build_cat_set categories))
            <$> doc_elements (doc w)) ∧
    app w' = app w ∧ alerts w' = alerts w ∧ active w' = None ∧
    transactions w'
    = transactions w ++
        (if bool_decide (build_cat_set categories ⊆ Categories b0) then []
         else [(update_name name, Committed)]).
Proof. apply ensure_widens. Qed.

(** X1 where "Number" is bound to walls and the call asks for walls,
    floors and views: floors are added, views are not, and the floor 107,
    which had no parameter, gets an empty "Number". *)
Lemma existing_parameter_is_only_widened_witness :
  doc_elements
    (doc (result_world
            (ensure_text_parameter "Number"
               [Example.walls; Cases.floors; Cases.views] Cases.world_floor)))
    !! 107%Z
  = Some (mkElement (Some Cases.floors)
            (Some (LocationPoint (Example.pt 7))) [Example.blank "Number"]) ∧
  ∃ w',
    ensure_text_parameter "Number" [Example.walls; Cases.floors; Cases.views]
      Cases.world_floor = Done () w' ∧
    find (λ e, has_def_name "Number" e.1) (ParameterBindings (doc w'))
    = Some (Cases.text_number,
            (mkBinding InstanceBinding
               ({[Example.walls]}
                ∪ build_cat_set [Example.walls; Cases.floors; Cases.views]),
             PG_DATA)) ∧
    (ParameterBindings (doc w')).*1
    = (ParameterBindings (doc Cases.world_floor)).*1 ∧
    (∀ i e, ParameterBindings (doc Cases.world_floor) !! i = Some e →
            e.1 ≠ Cases.text_number →
            ParameterBindings (doc w') !! i = Some e) ∧
    doc_elements (doc w')
    = (if bool_decide (build_cat_set [Example.walls; Cases.floors; Cases.views]
                       ⊆ {[Example.walls]})
       then doc_elements (doc Cases.world_floor)
       else give_parameter Cases.text_number
              (mkBinding InstanceBinding
                 ({[Example.walls]}
                  ∪ build_cat_set [Example.walls; Cases.floors; Cases.views]))
            <$> doc_elements (doc Cases.world_floor)) ∧
    app w' = app Cases.world_floor ∧
    alerts w' = alerts Cases.world_floor ∧ active w' = None ∧
    transactions w'
    = transactions Cases.world_floor ++
        (if bool_decide (build_cat_set [Example.walls; Cases.floors; Cases.views]
                         ⊆ {[Example.walls]}) then []
         else [(update_name "Number", Committed)]).
Proof.
  split; [by vm_compute|].
  exact (existing_parameter_is_only_widened "Number"
           [Example.walls; Cases.floors; Cases.views] Cases.world_floor
           Cases.text_number (mkBinding InstanceBinding {[Example.walls]})
           PG_DATA eq_refl eq_refl).
Defined.

(** ** [ensure_text_parameter]: a parameter that is not bound yet *)

Lemma find_snoc_None {A} (f : A → bool) (l : list A) (x : A) :
  find f l = None → find f (l ++ [x]) = if f x then Some x else None.
Proof.
  induction l as [|y l IH]; simpl; [done|]. destruct (f y); [done | apply IH].
Qed.

Lemma find_app_Some {A} (f : A → bool) (l l' : list A) (x : A) :
  find f l = Some x → find f (l ++ l') = Some x.
Proof.
  induction l as [|y l IH]; simpl; [done|]. destruct (f y); [done | apply IH].
Qed.

Lemma find_group_Definitions_Create (new_def : ParamDefinition)
    (file : DefinitionFile) (g : DefinitionGroup) :
  find (has_group_name group_name) file = Some g →
  find (has_group_name group_name) (Definitions_Create new_def file)
  = Some (mkGroup (group_Name g) (Definitions g ++ [new_def])).
Proof.
  induction file as [|g' file IH]; simpl; [done|].
  destruct (has_group_name group_name g') eqn:Hg; simpl.
  - intros [= ->]. unfold has_group_name in *. simpl. by rewrite Hg.
  - rewrite Hg. apply IH.
Qed.

Lemma Definitions_Create_others (new_def : ParamDefinition) (file : DefinitionFile) :
  filter (λ g, has_group_name group_name g = false) (Definitions_Create new_def file)
  = filter (λ g, has_group_name group_name g = false) file.
Proof.
  induction file as [|g file IH]; simpl; [done|].
  destruct (has_group_name group_name g) eqn:Hg.
  - rewrite !filter_cons. unfold has_group_name in *. simpl. rewrite Hg.
    by rewrite !decide_False by done.
  - rewrite !filter_cons, Hg, IH. done.
Qed.

(** Creation, when it goes through: what is bound and what the shared
    parameter file holds afterwards. *)
Lemma ensure_creates (name : string) (categories : list Category) (w : World) :
  active w = None →
  find (λ e, has_def_name name e.1) (ParameterBindings (doc w)) = None →
  is_Some (OpenSharedParameterFile (app w)) ∨ tempdir_writable (app w) = true →
  ∃ w' d file' grp,
    ensure_text_parameter name categories w = Done () w' ∧
    ParameterBindings (doc w')
    = ParameterBindings (doc w)
        ++ [(d, (mkBinding InstanceBinding (build_cat_set categories), PG_DATA))] ∧
    def_Name d = name ∧
    OpenSharedParameterFile (app w') = Some file' ∧
    find (has_group_name group_name) file' = Some grp ∧
    find (has_def_name name) (Definitions grp) = Some d ∧
    doc_elements (doc w')
    = give_parameter d (mkBinding InstanceBinding (build_cat_set categories))
      <$> doc_elements (doc w) ∧
    Grids (doc w') = Grids (doc w) ∧
    uidoc w' = uidoc w ∧ alerts w' = alerts w ∧ active w' = None ∧
    transactions w' = transactions w ++ [(add_name name, Committed)] ∧
    calls w' = calls w ++ [Call_Start (add_name name); Call_Commit (add_name name)] ∧
    match OpenSharedParameterFile (app w) with
    | Some file =>
        SharedParametersFilename (app w') = SharedParametersFilename (app w) ∧
        filesystem (app w')
        = <[SharedParametersFilename (app w) := file']> (filesystem (app w)) ∧
        filter (λ g, has_group_name group_name g = false) file'
        = filter (λ g, has_group_name group_name g = false) file ∧
        match find (has_group_name group_name) file
                ≫= λ g, find (has_def_name name) (Definitions g) with
        | Some d0 => d = d0 ∧ file' = file
        | None => d = mkDefinition name (text_spec (revitVersion (app w)))
        end
    | None =>
        d = mkDefinition name (text_spec (revitVersion (app w))) ∧
        SharedParametersFilename (app w') = temp_file (app w) ∧
        filesystem (app w')
        = <[temp_file (app w) := [mkGroup group_name [d]]]> (filesystem (app w))
    end.
Proof.
  intros Ha Hfind Hcan. unfold ensure_text_parameter. rewrite bind_unfold. simpl.
  rewrite Hfind. rewrite bind_unfold. unfold Transaction_Start. rewrite Ha. simpl.
  unfold try_except, create_parameter, update_shared_file,
    set_SharedParametersFilename, write_empty_file.
  unfold_script. simpl.
  assert ((if bool_decide (revitVersion (app w) < 2023)%Z
           then (name, ParameterType_Text) else (name, SpecTypeId_String_Text))
          = (name, text_spec (revitVersion (app w)))) as Hopt
    by (unfold text_spec; by case_bool_decide).
  rewrite !Hopt. simpl.
  set (nd := mkDefinition name (text_spec (revitVersion (app w)))).
  assert (∀ d b g m,
            def_Name d = name →
            find (λ e, has_def_name name e.1) m = None →
            BindingMap_Insert d b g m = m ++ [(d, (b, g))]) as Hins.
  { intros d b g m Hd Hm. by destruct (find_Insert_new name d b g m Hm Hd). }
  assert (∀ defs, find (has_def_name name) defs = None →
            find (has_def_name name) (defs ++ [nd]) = Some nd) as Hdef.
  { intros defs Hnone. rewrite find_snoc_None by done.
    unfold has_def_name. simpl. by rewrite bool_decide_eq_true_2. }
  assert (∀ d b,
            def_Name d = name →
            (if bool_decide (d ∈ (ParameterBindings (doc w)).*1)
             then doc_elements (doc w)
             else give_parameter d b <$> doc_elements (doc w))
            = give_parameter d b <$> doc_elements (doc w)) as Hel.
  { intros d b Hd. rewrite bool_decide_eq_false_2; [done|].
    intros (e & -> & Hin)%list_elem_of_fmap.
    apply list_elem_of_In in Hin.
    apply (find_none _ _ Hfind) in Hin. unfold has_def_name in Hin.
    by rewrite bool_decide_eq_true_2 in Hin. }
  destruct (OpenSharedParameterFile (app w)) as [file|] eqn:Hopen.
  - unfold OpenSharedParameterFile in Hopen.
    destruct (find (has_group_name group_name) file) as [g|] eqn:Hgrp; simpl.
    + destruct (find (has_def_name name) (Definitions g)) as [d|] eqn:Hd; simpl.
      * (* the group has a definition of that name: it is reused *)
        assert (def_Name d = name) as Hname.
        { apply find_some in Hd as [_ Hn]. by apply bool_decide_eq_true in Hn. }
        eexists _, d, file, g. split; [reflexivity|]. simpl.
        rewrite Hins by done. rewrite <- app_assoc.
        rewrite Hel by done. split_and!; try done. symmetry. by apply insert_id.
      * (* the group is there, the definition is new *)
        eexists _, nd, (Definitions_Create nd file),
          (mkGroup (group_Name g) (Definitions g ++ [nd])).
        split; [reflexivity|]. simpl. rewrite Hins by done.
        unfold OpenSharedParameterFile. simpl. rewrite lookup_alter_eq, Hopen. simpl.
        rewrite (find_group_Definitions_Create _ file g) by done. simpl.
        rewrite Hdef by done. rewrite <- app_assoc.
        rewrite Hel by done. split_and!; try done.
        -- apply map_eq. intros p.
           destruct (decide (p = SharedParametersFilename (app w))) as [->|Hp].
           ++ by rewrite lookup_alter_eq, lookup_insert_eq, Hopen.
           ++ by rewrite lookup_alter_ne, lookup_insert_ne.
        -- apply Definitions_Create_others.
    + (* no group yet: it is created, then the definition *)
      eexists _, nd, (file ++ [mkGroup group_name [nd]]), (mkGroup group_name [nd]).
      split; [reflexivity|]. simpl. rewrite Hins by done.
      assert (Definitions_Create nd (file ++ [mkGroup group_name []])
              = file ++ [mkGroup group_name [nd]]) as Hcreate.
      { clear -Hgrp. induction file as [|g' file IH]; simpl in *; [done|].
        destruct (has_group_name group_name g'); [done|]. by rewrite IH. }
      unfold OpenSharedParameterFile. simpl.
      rewrite !lookup_alter_eq, Hopen. simpl. rewrite Hcreate.
      rewrite find_snoc_None by done. simpl. rewrite <- app_assoc.
      rewrite Hel by done. split_and!; try done.
      * unfold has_def_name. simpl. by rewrite bool_decide_eq_true_2.
      * apply map_eq. intros p.
        destruct (decide (p = SharedParametersFilename (app w))) as [->|Hp].
        -- rewrite !lookup_alter_eq, lookup_insert_eq, Hopen. simpl.
           by rewrite Hcreate.
        -- by rewrite !lookup_alter_ne, lookup_insert_ne.
      * rewrite filter_app, filter_cons, filter_nil. simpl. by rewrite app_nil_r.
  - destruct Hcan as [[? [=]]|Htmp]. simpl. rewrite Htmp. simpl.
    unfold OpenSharedParameterFile. simpl. rewrite lookup_insert_eq. simpl.
    eexists _, nd, [mkGroup group_name [nd]], (mkGroup group_name [nd]).
    split; [reflexivity|]. simpl.
    rewrite Hins by done. rewrite !lookup_alter_eq, lookup_insert_eq. simpl.
    rewrite <- app_assoc. rewrite Hel by done. split_and!; try done.
    + unfold has_def_name. simpl. by rewrite bool_decide_eq_true_2.
    + fold (temp_file (app w)). apply map_eq. intros p.
      destruct (decide (p = temp_file (app w))) as [->|Hp].
      * by rewrite !lookup_alter_eq, !lookup_insert_eq.
      * by rewrite !lookup_alter_ne, !lookup_insert_ne.
Qed.

Lemma is_text_text_spec (version : Z) : is_text (text_spec version) = true.
Proof. unfold text_spec. by case_bool_decide. Qed.

(** X2. When no parameter of the requested name is bound and a shared
    parameter file can be opened or created, the call returns normally after
    committing one transaction "Add Project Parameter: <name>"; it appends
    one entry to the binding map: an instance binding, in the group PG_DATA,
    of exactly the given categories that allow bound parameters.  The bound
    definition is the one of that name already in the "Grid Tools" group of
    the shared parameter file when there is one (whatever its type), and
    otherwise a new text definition, whose type follows the host version.
    The elements are what the host makes of them when the binding is
    inserted: an element of one of the bound categories that has no
    parameter of this name gets one, empty and writable; nothing else of any
    element changes. *)
Theorem absent_parameter_is_appended (name : string) (categories : list Category)
    (w : World) :
  active w = None →
  find (λ e, has_def_name name e.1) (ParameterBindings (doc w)) = None →
  is_Some (OpenSharedParameterFile (app w)) ∨ tempdir_writable (app w) = true →
  ∃ w' d,
    ensure_text_parameter name categories w = Done () w' ∧
    ParameterBindings (doc w')
    = ParameterBindings (doc w)
        ++ [(d, (mkBinding InstanceBinding (build_cat_set categories), PG_DATA))] ∧
    (∀ c, c ∈ build_cat_set categories
          ↔ c ∈ categories ∧ AllowsBoundParameters c = true) ∧
    def_Name d = name ∧
    d = default (mkDefinition name (text_spec (revitVersion (app w))))
          (OpenSharedParameterFile (app w)
             ≫= λ file, find (has_group_name group_name) file
             ≫= λ g, find (has_def_name name) (Definitions g)) ∧
    is_text (text_spec (revitVersion (app w))) = true ∧
    transactions w' = transactions w ++ [(add_name name, Committed)] ∧
    active w' = None ∧ alerts w' = alerts w ∧
    doc_elements (doc w')
    = give_parameter d (mkBinding InstanceBinding (build_cat_set categories))
      <$> doc_elements (doc w).
Proof.
  intros Ha Hfind Hcan.
  destruct (ensure_creates name categories w Ha Hfind Hcan)
    as (w' & d & file' & grp & Hrun & Hb & Hname & _ & _ & _ & He & _ & _ & Hal
          & Ha' & Ht & _ & Hcase).
  exists w', d. split_and!; try done.
  - intros c. apply elem_of_build_cat_set.
  - destruct (OpenSharedParameterFile (app w)) as [file|]; simpl.
    + destruct Hcase as (_ & _ & _ & Hd).
      destruct (find (has_group_name group_name) file ≫= _) as [d0|]; simpl.
      * by destruct Hd.
      * done.
    + by destruct Hcase.
  - apply is_text_text_spec.
Qed.

(** X2 on a project without bindings and without a shared parameter
    file: the wall 106, which had no parameter, gets an empty "Grid
    Square". *)
Lemma absent_parameter_is_appended_witness :
  doc_elements
    (doc (result_world
            (ensure_text_parameter "Grid Square" [Example.walls; Cases.views]
               Cases.world_bystander)))
    !! 106%Z
  = Some (mkElement (Some Example.walls)
            (Some (LocationPoint (Example.pt 6))) [Example.blank "Grid Square"]) ∧
  ∃ w' d,
    ensure_text_parameter "Grid Square" [Example.walls; Cases.views]
      Cases.world_bystander
    = Done () w' ∧
    ParameterBindings (doc w')
    = ParameterBindings (doc Cases.world_bystander)
        ++ [(d, (mkBinding InstanceBinding
                   (build_cat_set [Example.walls; Cases.views]), PG_DATA))] ∧
    (∀ c, c ∈ build_cat_set [Example.walls; Cases.views]
          ↔ c ∈ [Example.walls; Cases.views] ∧ AllowsBoundParameters c = true) ∧
    def_Name d = "Grid Square" ∧
    d = default (mkDefinition "Grid Square"
                   (text_spec (revitVersion (app Cases.world_bystander))))
          (OpenSharedParameterFile (app Cases.world_bystander)
             ≫= λ file, find (has_group_name group_name) file
             ≫= λ g, find (has_def_name "Grid Square") (Definitions g)) ∧
    is_text (text_spec (revitVersion (app Cases.world_bystander))) = true ∧
    transactions w'
    = transactions Cases.world_bystander ++ [(add_name "Grid Square", Committed)] ∧
    active w' = None ∧ alerts w' = alerts Cases.world_bystander ∧
    doc_elements (doc w')
    = give_parameter d
        (mkBinding InstanceBinding (build_cat_set [Example.walls; Cases.views]))
      <$> doc_elements (doc Cases.world_bystander).
Proof.
  split; [by vm_compute|].
  exact (absent_parameter_is_appended "Grid Square" [Example.walls; Cases.views]
           Cases.world_bystander eq_refl eq_refl (or_intror eq_refl)).
Defined.

(** X3. When the parameter is created and a shared parameter file is
    open, the application keeps pointing at that file and no other file
    changes; afterwards the file has a "Grid Tools" group whose definition of
    the requested name is the one that was bound, and its groups of other
    names are as before. *)
Theorem shared_file_holds_the_bound_definition (name : string)
    (categories : list Category) (w : World) (file : DefinitionFile) :
  active w = None →
  find (λ e, has_def_name name e.1) (ParameterBindings (doc w)) = None →
  OpenSharedParameterFile (app w) = Some file →
  ∃ w' d b g file' grp,
    ensure_text_parameter name categories w = Done () w' ∧
    find (λ e, has_def_name name e.1) (ParameterBindings (doc w')) = Some (d, (b, g)) ∧
    OpenSharedParameterFile (app w') = Some file' ∧
    find (has_group_name group_name) file' = Some grp ∧
    find (has_def_name name) (Definitions grp) = Some d ∧
    SharedParametersFilename (app w') = SharedParametersFilename (app w) ∧
    filesystem (app w')
    = <[SharedParametersFilename (app w) := file']> (filesystem (app w)) ∧
    filter (λ g, has_group_name group_name g = false) file'
    = filter (λ g, has_group_name group_name g = false) file.
Proof.
  intros Ha Hfind Hopen.
  destruct (ensure_creates name categories w Ha Hfind)
    as (w' & d & file' & grp & Hrun & Hb & Hname & Hopen' & Hgrp & Hdef & _ & _ & _
          & _ & _ & _ & _ & Hcase); [left; by rewrite Hopen|].
  rewrite Hopen in Hcase. destruct Hcase as (Hfn & Hfs & Hothers & _).
  exists w', d, (mkBinding InstanceBinding (build_cat_set categories)), PG_DATA,
    file', grp.
  split_and!; try done.
  rewrite Hb, find_snoc_None by done. simpl. unfold has_def_name.
  by rewrite bool_decide_eq_true_2.
Qed.

(** X3 where a shared parameter file with a group "Structure" is open. *)
Lemma shared_file_holds_the_bound_definition_witness :
  ∃ w' d b g file' grp,
    ensure_text_parameter "Number" [Example.walls] Cases.world_shared = Done () w' ∧
    find (λ e, has_def_name "Number" e.1) (ParameterBindings (doc w'))
    = Some (d, (b, g)) ∧
    OpenSharedParameterFile (app w') = Some file' ∧
    find (has_group_name group_name) file' = Some grp ∧
    find (has_def_name "Number") (Definitions grp) = Some d ∧
    SharedParametersFilename (app w')
    = SharedParametersFilename (app Cases.world_shared) ∧
    filesystem (app w')
    = <[SharedParametersFilename (app Cases.world_shared) := file']>
        (filesystem (app Cases.world_shared)) ∧
    filter (λ g, has_group_name group_name g = false) file'
    = filter (λ g, has_group_name group_name g = false)
        [mkGroup "Structure" [mkDefinition "Mark" (OtherSpec 1)]].
Proof.
  exact (shared_file_holds_the_bound_definition "Number" [Example.walls]
           Cases.world_shared
           [mkGroup "Structure" [mkDefinition "Mark" (OtherSpec 1)]]
           eq_refl eq_refl eq_refl).
Defined.

(** X4. When the parameter has to be created and no shared parameter file
    opens, the call writes the file "TempSharedParameters.txt" in the temp
    folder, replacing whatever that file held, and leaves the application
    pointing at it: afterwards the file holds the group "Grid Tools" with the
    new text definition and nothing else; no other file changes. *)
Theorem missing_shared_file_becomes_temp_file (name : string)
    (categories : list Category) (w : World) :
  active w = None →
  find (λ e, has_def_name name e.1) (ParameterBindings (doc w)) = None →
  OpenSharedParameterFile (app w) = None →
  tempdir_writable (app w) = true →
  ∃ w',
    ensure_text_parameter name categories w = Done () w' ∧
    SharedParametersFilename (app w') = temp_file (app w) ∧
    filesystem (app w')
    = <[temp_file (app w) :=
          [mkGroup "Grid Tools"
             [mkDefinition name (text_spec (revitVersion (app w)))]]]>
        (filesystem (app w)).
Proof.
  intros Ha Hfind Hopen Htmp.
  destruct (ensure_creates name categories w Ha Hfind)
    as (w' & d & file' & grp & Hrun & _ & _ & _ & _ & _ & _ & _ & _
          & _ & _ & _ & _ & Hcase); [by right|].
  rewrite Hopen in Hcase. destruct Hcase as (-> & Hfn & Hfs).
  exists w'. by split_and!.
Qed.

(** X4 on the example project. *)
Lemma missing_shared_file_becomes_temp_file_witness :
  ∃ w',
    ensure_text_parameter "Number" [Example.walls] Example.world0 = Done () w' ∧
    SharedParametersFilename (app w') = temp_file (app Example.world0) ∧
    filesystem (app w')
    = <[temp_file (app Example.world0) :=
          [mkGroup "Grid Tools"
             [mkDefinition "Number"
                (text_spec (revitVersion (app Example.world0)))]]]>
        (filesystem (app Example.world0)).
Proof.
  exact (missing_shared_file_becomes_temp_file "Number" [Example.walls]
           Example.world0 eq_refl eq_refl eq_refl eq_refl).
Defined.

(** ** [ensure_text_parameter]: repetition and failure *)

Lemma build_cat_set_mono (categories categories' : list Category) :
  (∀ c, c ∈ categories' → c ∈ categories) →
  build_cat_set categories' ⊆ build_cat_set categories.
Proof.
  intros Hsub. apply elem_of_subseteq. intros c.
  rewrite !elem_of_build_cat_set. intros [Hc Hallow]. split; [by apply Hsub | done].
Qed.

(** X5. Once a call has returned normally, calling again for the same
    name with the same categories, or with any part of them, changes nothing
    at all: no transaction is opened and the world stays as it is. *)
Theorem repeated_call_changes_nothing (name : string)
    (categories categories' : list Category) (w w' : World) :
  active w = None →
  ensure_text_parameter name categories w = Done () w' →
  (∀ c, c ∈ categories' → c ∈ categories) →
  ensure_text_parameter name categories' w' = Done () w'.
Proof.
  intros Ha Hrun Hsub.
  destruct (ensure_text_parameter_binds name categories w w' Ha Hrun)
    as (d & b & g & Hfind & _ & Hcov & _).
  pose proof (build_cat_set_mono categories categories' Hsub) as Hmono.
  unfold ensure_text_parameter. rewrite bind_unfold. simpl. rewrite Hfind.
  unfold update_binding.
  rewrite bool_decide_eq_false_2; [done|].
  rewrite missing_size. intros Hn. apply Hn. set_solver.
Qed.

(** X5 on the example project: after "Number" has been created for walls
    and floors, asking again for walls alone changes nothing. *)
Lemma repeated_call_changes_nothing_witness :
  ensure_text_parameter "Number" [Example.walls]
    (result_world (ensure_text_parameter "Number" [Example.walls; Cases.floors]
                     Example.world0))
  = Done () (result_world (ensure_text_parameter "Number"
                             [Example.walls; Cases.floors] Example.world0)).
Proof.
  apply (repeated_call_changes_nothing "Number" [Example.walls; Cases.floors]
           [Example.walls] Example.world0).
  - reflexivity.
  - vm_compute. reflexivity.
  - intros c Hc. apply list_elem_of_singleton in Hc as ->. left.
Defined.

Lemma ensure_text_parameter_exit (name : string) (categories : list Category)
    (w w' : World) :
  active w = None → ensure_text_parameter name categories w = Exited w' →
  doc w' = doc w ∧ uidoc w' = uidoc w ∧ active w' = None ∧
  (∃ e, alerts w' = alerts w ++ [creation_failed name e]) ∧
  transactions w' = transactions w ++ [(add_name name, RolledBack)] ∧
  calls w' = calls w ++ [Call_Start (add_name name); Call_RollBack (add_name name)] ∧
  find (λ e, has_def_name name e.1) (ParameterBindings (doc w)) = None.
Proof.
  intros Ha. unfold ensure_text_parameter. rewrite bind_unfold. simpl.
  destruct (find _ (ParameterBindings (doc w))) as [[definition [binding g]]|].
  - unfold update_binding. destruct (bool_decide _); [|done].
    unfold_script. by rewrite Ha.
  - rewrite bind_unfold. unfold Transaction_Start. rewrite Ha. simpl.
    unfold try_except.
    match goal with |- context [create_parameter ?n ?c ?g ?w0] =>
      pose proof (create_parameter_outcome n c g _ _ w0 eq_refl) as Hc;
      destruct (create_parameter n c g w0) as [[] w1|w1|? w1] end; [done|done|].
    destruct Hc as (Ha' & Ht & Hu & Hcs & Hal). simpl in *.
    rewrite bind_unfold. unfold Transaction_RollBack. rewrite Ha'. simpl.
    intros [= <-]. simpl. rewrite Hal, Ht, Hcs, <- app_assoc.
    split_and!; try done. by eexists.
Qed.

(** X6. Started while no transaction is open, [ensure_text_parameter]
    never lets an exception escape and never leaves a transaction open.  It
    returns normally, having shown no alert and committed at most one
    transaction, or it exits the script.  When it returns, every element
    still has what it had, and may have gained new, empty parameters from the
    binding the call inserted.  When it exits, its transaction "Add Project
    Parameter: <name>" has been rolled back, the document is exactly as it
    was before the call, and one alert has been shown: "Failed to create
    parameter: <name>", a line break and the representation of the exception
    that was caught. *)
Theorem ensure_text_parameter_contains_failures (name : string)
    (categories : list Category) (w : World) :
  active w = None →
  match ensure_text_parameter name categories w with
  | Done _ w' =>
      active w' = None ∧ alerts w' = alerts w ∧
      elements_gain (doc_elements (doc w)) (doc_elements (doc w')) ∧
      ∃ ts, transactions w' = transactions w ++ ts ∧ length ts ≤ 1 ∧
            Forall (λ t, t.2 = Committed) ts
  | Exited w' =>
      active w' = None ∧ doc w' = doc w ∧
      (∃ e, alerts w' = alerts w ++ [creation_failed name e]) ∧
      transactions w' = transactions w ++ [(add_name name, RolledBack)]
  | Raised _ _ => False
  end.
Proof.
  intros Ha.
  pose proof (ensure_text_parameter_outcome name categories w Ha) as Hout.
  destruct (ensure_text_parameter name categories w) as [[] w'|w'|? w'] eqn:Hrun;
    [| |done].
  - destruct Hout as [(He & _ & _ & Ha' & _) Hal]. split_and!; try done.
    destruct (find (λ e, has_def_name name e.1) (ParameterBindings (doc w)))
      as [[d0 [b0 g0]]|] eqn:Hfind.
    + destruct (ensure_widens name categories w d0 b0 g0 Ha Hfind)
        as (w'' & Hrun' & _ & _ & _ & _ & _ & _ & _ & Ht).
      rewrite Hrun in Hrun'. injection Hrun' as <-. rewrite Ht.
      case_bool_decide; eexists; (split; [done|]); simpl;
        split; try lia; by repeat constructor.
    + assert (is_Some (OpenSharedParameterFile (app w))
              ∨ tempdir_writable (app w) = true) as Hcan.
      { destruct (OpenSharedParameterFile (app w)) eqn:Hopen; [left; eauto|].
        destruct (tempdir_writable (app w)) eqn:Htmp; [by right|]. exfalso.
        revert Hrun. unfold ensure_text_parameter. rewrite bind_unfold. simpl.
        rewrite Hfind, bind_unfold. unfold Transaction_Start. rewrite Ha. simpl.
        unfold try_except, create_parameter, write_empty_file. unfold_script.
        simpl. rewrite Hopen. simpl. by rewrite Htmp. }
      destruct (ensure_creates name categories w Ha Hfind Hcan)
        as (w'' & d & file' & grp & Hrun' & _ & _ & _ & _ & _ & _ & _ & _ & _
              & _ & Ht & _).
      rewrite Hrun in Hrun'. injection Hrun' as <-. rewrite Ht.
      eexists. split; [done|]. simpl. split; [lia | by repeat constructor].
  - destruct (ensure_text_parameter_exit name categories w w' Ha Hrun)
      as (Hd & _ & Ha' & Hal & Ht & _). by split_and!.
Qed.

(** X6 where no shared parameter file opens and the temp folder cannot be
    written: the call exits. *)
Lemma ensure_text_parameter_contains_failures_witness :
  match ensure_text_parameter "Grid Square" [Example.walls] Cases.world_locked with
  | Done _ w' =>
      active w' = None ∧ alerts w' = alerts Cases.world_locked ∧
      elements_gain (doc_elements (doc Cases.world_locked))
                    (doc_elements (doc w')) ∧
      ∃ ts, transactions w' = transactions Cases.world_locked ++ ts ∧
            length ts ≤ 1 ∧ Forall (λ t, t.2 = Committed) ts
  | Exited w' =>
      active w' = None ∧ doc w' = doc Cases.world_locked ∧
      (∃ e, alerts w' = alerts Cases.world_locked
                          ++ [creation_failed "Grid Square" e]) ∧
      transactions w'
      = transactions Cases.world_locked ++ [(add_name "Grid Square", RolledBack)]
  | Raised _ _ => False
  end.
Proof.
  exact (ensure_text_parameter_contains_failures "Grid Square" [Example.walls]
           Cases.world_locked eq_refl).
Defined.

(** X7. When the parameter has to be created, no shared parameter file
    opens and the temp folder cannot be written, the call rolls its
    transaction back, shows one alert and exits the script; the alert is
    "Failed to create parameter: <name>", a line break and the
    representation of the exception that opening the temp file raised.  The
    document, the application settings and the files are as they were. *)
Theorem unwritable_temp_folder_stops_the_script (name : string)
    (categories : list Category) (w : World) :
  active w = None →
  find (λ e, has_def_name name e.1) (ParameterBindings (doc w)) = None →
  OpenSharedParameterFile (app w) = None →
  tempdir_writable (app w) = false →
  ensure_text_parameter name categories w
  = Exited (mkWorld (doc w) (app w) (uidoc w)
              (alerts w ++ [creation_failed name (open_error (app w))]) None
              (transactions w ++ [(add_name name, RolledBack)])
              (calls w ++ [Call_Start (add_name name);
                           Call_RollBack (add_name name)])).
Proof.
  intros Ha Hfind Hopen Htmp. unfold ensure_text_parameter.
  rewrite bind_unfold. simpl. rewrite Hfind, bind_unfold.
  unfold Transaction_Start. rewrite Ha. simpl.
  unfold try_except, create_parameter, write_empty_file. unfold_script. simpl.
  rewrite Hopen. simpl. rewrite Htmp. simpl. by rewrite <- app_assoc.
Qed.

(** X7 on the example project with a locked temp folder. *)
Lemma unwritable_temp_folder_stops_the_script_witness :
  ensure_text_parameter "Grid Square" [Example.walls] Cases.world_locked
  = Exited (mkWorld (doc Cases.world_locked) (app Cases.world_locked)
              (uidoc Cases.world_locked)
              (alerts Cases.world_locked
                 ++ [creation_failed "Grid Square"
                       (open_error (app Cases.world_locked))]) None
              (transactions Cases.world_locked
                 ++ [(add_name "Grid Square", RolledBack)])
              (calls Cases.world_locked
                 ++ [Call_Start (add_name "Grid Square");
                     Call_RollBack (add_name "Grid Square")])).
Proof.
  exact (unwritable_temp_folder_stops_the_script "Grid Square" [Example.walls]
           Cases.world_locked eq_refl eq_refl eq_refl eq_refl).
Defined.

Lemma ensure_keeps_other_names (name name' : string) (categories : list Category)
    (w w' : World) :
  active w = None → ensure_text_parameter name categories w = Done () w' →
  name' ≠ name →
  find (λ e, has_def_name name' e.1) (ParameterBindings (doc w'))
  = find (λ e, has_def_name name' e.1) (ParameterBindings (doc w)).
Proof.
  intros Ha Hrun Hne.
  destruct (ensure_text_parameter_binds name categories w w' Ha Hrun)
    as (d & b & g & _ & Hname & _ & Hcase).
  destruct (find (λ e, has_def_name name e.1) (ParameterBindings (doc w)))
    as [[d0 [b0 g0]]|] eqn:Hfind.
  - destruct Hcase as (-> & _ & _ & _ & [->| ->]); [done|].
    rewrite find_ReInsert.
    destruct (find (λ e, has_def_name name' e.1) (ParameterBindings (doc w)))
      as [[d1 [b1 g1]]|] eqn:Hfind'; [|done].
    simpl. apply find_some in Hfind' as [_ Hn]. apply bool_decide_eq_true in Hn.
    simpl in Hn. rewrite bool_decide_eq_false_2; [done | congruence].
  - destruct Hcase as (_ & _ & -> & _).
    destruct (find (λ e, has_def_name name' e.1) (ParameterBindings (doc w)))
      as [x|] eqn:Hfind'.
    + by apply find_app_Some.
    + rewrite find_snoc_None by done. simpl. unfold has_def_name.
      rewrite bool_decide_eq_false_2; [done | congruence].
Qed.

(** ** The run, stage by stage *)

Section RunFacts.

Variable K : Kernel.

Lemma collect_categories_result (sel : list ElementId) (acc cats : gset Category)
    (w w' : World) :
  for_each sel (λ selected_categories eid,
     Category ← attribute elem_Category eid;
     match Category with
     | Some c => mret (selected_categories ∪ {[c]})
     | None => mret selected_categories
     end) acc w = Done cats w' →
  ∀ c, c ∈ cats ↔
       c ∈ acc ∨ ∃ eid e, eid ∈ sel ∧ doc_elements (doc w) !! eid = Some e ∧
                          elem_Category e = Some c.
Proof.
  revert acc. induction sel as [|eid sel IH]; intros acc; simpl.
  - intros [= <- <-] c. split; [by left|].
    intros [Hc|(x & e & Hx%elem_of_nil & _)]; done.
  - rewrite bind_unfold. unfold attribute at 1. rewrite bind_unfold.
    destruct (doc_elements (doc w) !! eid) as [e|] eqn:He; [|done].
    destruct (elem_Category e) as [c0|] eqn:Hc0; simpl; intros Hrun c;
      rewrite (IH _ Hrun c).
    + rewrite elem_of_union, elem_of_singleton. split.
      * intros [[Hc| ->]|(x & ex & Hx & Hex & Hcx)]; [by left | |].
        -- right. exists eid, e. split_and!; [left | done | done].
        -- right. exists x, ex. split_and!; [by right | done | done].
      * intros [Hc|(x & ex & Hx & Hex & Hcx)]; [by left; left|].
        apply elem_of_cons in Hx as [->|Hx].
        -- left; right. congruence.
        -- right. by exists x, ex.
    + split.
      * intros [Hc|(x & ex & Hx & Hex & Hcx)]; [by left|].
        right. exists x, ex. split_and!; [by right | done | done].
      * intros [Hc|(x & ex & Hx & Hex & Hcx)]; [by left|].
        apply elem_of_cons in Hx as [->|Hx]; [congruence|].
        right. by exists x, ex.
Qed.

Lemma prepare_stages (w : World) :
  active w = None → Selection (uidoc w) ≠ [] →
  valid_ids (Selection (uidoc w)) w →
  ∃ cats : gset Category,
    (∀ c, c ∈ cats ↔ selected_category w c) ∧
    prepare K w
    = match ensure_text_parameter "Grid Square" (elements cats) w with
      | Done _ w1 =>
          match ensure_text_parameter "Number" (elements cats) w1 with
          | Done _ w2 => guards_after_setup K w w2
          | Exited w2 => Exited w2
          | Raised e w2 => Raised e w2
          end
      | Exited w1 => Exited w1
      | Raised e w1 => Raised e w1
      end.
Proof.
  intros Ha Hsel Hv. unfold prepare. rewrite bind_unfold. simpl.
  rewrite bool_decide_eq_false_2 by done.
  rewrite bind_unfold. simpl. rewrite bind_unfold. unfold collect_categories.
  pose proof (collect_categories_outcome (Selection (uidoc w)) ∅ w) as Hcat.
  destruct (for_each (Selection (uidoc w)) _ ∅ w) as [cats w1|w1|? w1] eqn:Hrun;
    [|done|by destruct Hcat].
  destruct Hcat as [-> _]. exists cats. split.
  { intros c. rewrite (collect_categories_result _ _ _ _ _ Hrun c).
    unfold selected_category. split; [|by right].
    intros [Hc%elem_of_empty|Hc]; done. }
  rewrite bind_unfold.
  pose proof (ensure_text_parameter_outcome "Grid Square" (elements cats) w Ha) as H1.
  destruct (ensure_text_parameter "Grid Square" (elements cats) w) as [[] w1|w1|? w1];
    [|done|done].
  destruct H1 as [H1 _]. rewrite bind_unfold.
  assert (active w1 = None) as Ha1 by apply H1.
  pose proof (ensure_text_parameter_outcome "Number" (elements cats) w1 Ha1) as H2.
  destruct (ensure_text_parameter "Number" (elements cats) w1) as [[] w2|w2|? w2];
    [|done|done].
  destruct H2 as [H2 _].
  pose proof (setup_trans 1 1 _ _ _ H1 H2) as H12. simpl in H12.
  assert (Grids (doc w2) = Grids (doc w)) as Hg by apply H12.
  assert (curved_grids (doc w2) = curved_grids (doc w)) as Hcg by apply H12.
  rewrite bind_unfold, pick_start_element_eq, (setup_picked 2 w w2 H12).
  unfold guards_after_setup.
  set (w3 := add_alert "Select the starting element for numbering." w2).
  destruct (picked w) as [r|] eqn:Hpick; [|done].
  destruct (picked_in_selection w r Hpick) as (Hrsel & _ & e & Hre).
  destruct (elements_gain_lookup _ _ r e (proj1 H12) Hre)
    as (e3 & Hre3 & (_ & Hl3 & _)).
  rewrite bind_unfold, (resolve_start_point_eq K r e3 w3 Hre3), Hl3.
  unfold element_point. rewrite Hre. simpl.
  destruct (location_point K (Location e)) as [sp|] eqn:Hsp; [|done].
  rewrite bind_unfold, collect_intersections_eq. simpl. rewrite Hg, Hcg.
  destruct (bool_decide (curved_grids (doc w) = [])); [|done].
  by destruct (bool_decide (intersections_spec K (Grids (doc w)) = [])).
Qed.

Lemma valid_ids_dec (ids : list ElementId) (w : World) :
  valid_ids ids w ∨ ¬ valid_ids ids w.
Proof.
  destruct (decide (Forall (λ id, is_Some (doc_elements (doc w) !! id)) ids))
    as [Hall|Hnot].
  - left. by apply valid_ids_Forall.
  - right. intros Hv. apply Hnot, Forall_forall. intros id Hid. by apply Hv.
Qed.

(** The ways a run can go. *)
Lemma run_stages (w : World) :
  active w = None →
  (Selection (uidoc w) = [] ∧
   run K w = (Exit, add_alert "Please select one or more elements." w)) ∨
  (Selection (uidoc w) ≠ [] ∧ ¬ valid_ids (Selection (uidoc w)) w ∧
   run K w = (Error, w)) ∨
  (Selection (uidoc w) ≠ [] ∧ valid_ids (Selection (uidoc w)) w ∧
   ∃ cats : gset Category,
     (∀ c, c ∈ cats ↔ selected_category w c) ∧
     match ensure_text_parameter "Grid Square" (elements cats) w with
     | Done _ w1 =>
         match ensure_text_parameter "Number" (elements cats) w1 with
         | Done _ w2 =>
             match guards_after_setup K w w2 with
             | Done (sel, sp, ints) w4 =>
                 ∃ m w5,
                   assign K sel sp ints w4 = Done m w5 ∧
                   active w4 = None ∧ valid_ids sel w4 ∧
                   run K w
                   = (Completed,
                      add_alert (if bool_decide (size m = length sel)
                                 then success_message else failure_message) w5)
             | Exited w3 => run K w = (Exit, w3)
             | Raised _ w3 => run K w = (Error, w3)
             end
         | Exited w2 => run K w = (Exit, w2)
         | Raised _ _ => False
         end
     | Exited w1 => run K w = (Exit, w1)
     | Raised _ _ => False
     end).
Proof.
  intros Ha.
  pose proof (prepare_outcome K w Ha) as Hp. pose proof (main_outcome K w Ha) as Hm.
  destruct (decide (Selection (uidoc w) = [])) as [Hsel|Hsel].
  { left. split; [done|]. revert Hm. unfold run, prepare. rewrite bind_unfold. simpl.
    rewrite bool_decide_eq_true_2 by done. rewrite bind_unfold. simpl.
    intros Hmain. rewrite Hmain. unfold close_world, add_alert. simpl.
    by rewrite Ha. }
  right. destruct (valid_ids_dec (Selection (uidoc w)) w) as [Hv|Hnv].
  2:{ left. split_and!; [done | done |]. unfold run.
      destruct (prepare K w) as [[[sel sp] ints] w1|w1|? w1] eqn:Hprep.
      - by destruct Hp as (-> & _ & Hv & _).
      - exfalso. revert Hprep. unfold prepare. rewrite bind_unfold. simpl.
        rewrite bool_decide_eq_false_2 by done.
        rewrite bind_unfold. simpl. rewrite bind_unfold. unfold collect_categories.
        pose proof (collect_categories_outcome (Selection (uidoc w)) ∅ w) as Hcat.
        destruct (for_each (Selection (uidoc w)) _ ∅ w) as [cats w2|w2|? w2];
          [by destruct Hcat | done | done].
      - rewrite Hm. destruct Hp as [(-> & _)|(_ & _ & _ & _ & Hv & _)]; [|done].
        unfold close_world. by rewrite Ha. }
  right. split_and!; [done | done |].
  destruct (prepare_stages w Ha Hsel Hv) as (cats & Hcats & Hprep).
  exists cats. split; [done|]. rewrite Hprep in Hp, Hm. unfold run.
  pose proof (ensure_text_parameter_outcome "Grid Square" (elements cats) w Ha)
    as H1.
  destruct (ensure_text_parameter "Grid Square" (elements cats) w) as [[] w1|w1|? w1].
  2:{ rewrite Hm. destruct Hp as [Hs _]. unfold close_world.
      by rewrite (proj1 (proj2 (proj2 (proj2 Hs)))). }
  2:{ done. }
  assert (active w1 = None) as Ha1 by apply H1.
  pose proof (ensure_text_parameter_outcome "Number" (elements cats) w1 Ha1)
    as H2.
  destruct (ensure_text_parameter "Number" (elements cats) w1) as [[] w2|w2|? w2].
  2:{ rewrite Hm. destruct Hp as [Hs _]. unfold close_world.
      by rewrite (proj1 (proj2 (proj2 (proj2 Hs)))). }
  2:{ done. }
  destruct (guards_after_setup K w w2) as [[[sel sp] ints] w4|w4|? w4].
  - destruct Hp as (-> & _ & _ & _ & _ & _ & Hs).
    destruct Hm as (m & w5 & Hassign & ->).
    assert (active w4 = None) as Ha4 by apply Hs.
    assert (valid_ids (Selection (uidoc w)) w4) as Hv4 by (by eapply setup_valid).
    exists m, w5. split_and!; try done.
    destruct (assign_summary K (Selection (uidoc w)) sp ints w4 Ha4 Hv4)
      as (m' & w5' & Heq & Ha5 & _).
    rewrite Hassign in Heq. injection Heq as <- <-.
    unfold close_world. simpl. by rewrite Ha5.
  - rewrite Hm. destruct Hp as [Hs _]. unfold close_world.
    by rewrite (proj1 (proj2 (proj2 (proj2 Hs)))).
  - rewrite Hm. destruct Hp as [(_ & _ & Hnv)|(Hs & _)]; [done|].
    unfold close_world. by rewrite (proj1 (proj2 (proj2 (proj2 Hs)))).
Qed.

Lemma assign_evolves (sel : list ElementId) (sp : XYZ)
    (ints : list (XYZ * Grid * Grid)) (w : World) :
  active w = None → valid_ids sel w →
  ∃ m w3,
    assign K sel sp ints w = Done m (commit_world assign_name w3) ∧
    evolves (start_world assign_name w) w3.
Proof.
  intros Ha Hv.
  pose proof (assign_eq K sel sp ints w Ha Hv) as Heq. simpl in Heq.
  set (w0 := start_world "Assign Grid Square and Number" w) in *.
  set (st1 := foldl (grid_square_pure K ints) (∅, w0) sel) in *.
  set (w2 := add_calls (distance_calls K st1.2 sp sel) st1.2) in *.
  set (ranked := sort_by_distance (located K st1.2 sp sel)) in *.
  pose proof (grid_loop_evolves K ints sel (∅, w0)) as Hev1. fold st1 in Hev1.
  simpl in Hev1.
  pose proof (number_loop_evolves ranked (1, st1.1, w2)) as Hev3. simpl in Hev3.
  eexists _, _. split; [exact Heq|].
  eapply evolves_trans; [done|].
  eapply evolves_trans; [apply evolves_add_calls | done].
Qed.

Lemma bound_to_bindings (w w' : World) (name : string) (c : Category) :
  ParameterBindings (doc w') = ParameterBindings (doc w) →
  bound_to w name c → bound_to w' name c.
Proof. intros Hb. unfold bound_to. by rewrite Hb. Qed.

(** X8. By the time the user is asked to pick the start element, both
    "Grid Square" and "Number" are bound to the category of every selected
    element, provided the category allows bound parameters; they stay bound
    however the run ends afterwards (completed, pick given up, start element
    without location, no grid intersections). *)
Theorem parameters_are_bound_before_the_prompt (w : World) (c : Category) :
  active w = None →
  "Select the starting element for numbering."
    ∈ drop (length (alerts w)) (alerts (run K w).2) →
  selected_category w c → AllowsBoundParameters c = true →
  bound_to (run K w).2 "Grid Square" c ∧ bound_to (run K w).2 "Number" c.
Proof.
  intros Ha Hprompt Hc Hallow.
  destruct (run_stages w Ha) as [[_ Hrun]|[(_ & _ & Hrun)|(_ & _ & cats & Hcats & Hrun)]].
  { rewrite Hrun in Hprompt. simpl in Hprompt. rewrite drop_app_length in Hprompt.
    by apply list_elem_of_singleton in Hprompt. }
  { rewrite Hrun in Hprompt. simpl in Hprompt. rewrite drop_all in Hprompt.
    by apply elem_of_nil in Hprompt. }
  assert (c ∈ build_cat_set (elements cats)) as Hin.
  { apply elem_of_build_cat_set. split; [|done]. by apply elem_of_elements, Hcats. }
  destruct (ensure_text_parameter "Grid Square" (elements cats) w)
    as [[] w1|w1|? w1] eqn:H1; [| |done].
  2:{ rewrite Hrun in Hprompt. simpl in Hprompt.
      destruct (ensure_text_parameter_exit _ _ _ _ Ha H1)
        as (_ & _ & _ & [e Hal] & _).
      rewrite Hal, drop_app_length in Hprompt.
      by apply list_elem_of_singleton in Hprompt. }
  pose proof (ensure_text_parameter_outcome "Grid Square" (elements cats) w Ha)
    as Hout1.
  rewrite H1 in Hout1. destruct Hout1 as [Hs1 Hal1].
  assert (active w1 = None) as Ha1 by apply Hs1.
  destruct (ensure_text_parameter "Number" (elements cats) w1)
    as [[] w2|w2|? w2] eqn:H2; [| |done].
  2:{ rewrite Hrun in Hprompt. simpl in Hprompt.
      destruct (ensure_text_parameter_exit _ _ _ _ Ha1 H2)
        as (_ & _ & _ & [e Hal] & _).
      rewrite Hal, Hal1, drop_app_length in Hprompt.
      by apply list_elem_of_singleton in Hprompt. }
  assert (bound_to w2 "Grid Square" c ∧ bound_to w2 "Number" c) as [Hgs Hnum].
  { destruct (ensure_text_parameter_binds _ _ _ _ Ha H1)
      as (d & b & g & Hfind & _ & Hcov & _).
    destruct (ensure_text_parameter_binds _ _ _ _ Ha1 H2)
      as (d' & b' & g' & Hfind' & _ & Hcov' & _).
    split.
    - exists d, b, g. split; [|by apply Hcov].
      by rewrite (ensure_keeps_other_names "Number" "Grid Square" (elements cats)
                    w1 w2 Ha1 H2).
    - exists d', b', g'. split; [done | by apply Hcov']. }
  clear Hprompt. unfold guards_after_setup in Hrun.
  destruct (picked w) as [r|].
  2:{ rewrite Hrun. split; by eapply bound_to_bindings. }
  destruct (element_point K w r) as [sp|].
  2:{ rewrite Hrun. split; by eapply bound_to_bindings. }
  destruct (bool_decide (curved_grids (doc w) = [])).
  2:{ rewrite Hrun. split; by eapply bound_to_bindings. }
  destruct (bool_decide (intersections_spec K (Grids (doc w)) = [])).
  { rewrite Hrun. split; by eapply bound_to_bindings. }
  destruct Hrun as (m & w5 & Hassign & Ha4 & Hv4 & ->).
  destruct (assign_evolves _ sp (intersections_spec K (Grids (doc w))) _ Ha4 Hv4)
    as (m' & w3 & Heq & Hev).
  rewrite Hassign in Heq. injection Heq as -> ->.
  destruct Hev as (_ & _ & _ & _ & _ & Hb & _).
  split; (eapply bound_to_bindings; [|done]); simpl; by rewrite Hb.
Qed.

End RunFacts.

(** X8 on the example project, for the category of walls. *)
Lemma parameters_are_bound_before_the_prompt_witness :
  bound_to (run Example.kernel Example.world0).2 "Grid Square" Example.walls ∧
  bound_to (run Example.kernel Example.world0).2 "Number" Example.walls.
Proof.
  apply (parameters_are_bound_before_the_prompt Example.kernel Example.world0
           Example.walls).
  - reflexivity.
  - apply (bool_decide_unpack _). by vm_compute.
  - exists 101%Z, (Example.wall 1). split_and!; [|reflexivity|reflexivity].
    apply (bool_decide_unpack _). by vm_compute.
  - reflexivity.
Defined.

(** ** What a run writes *)

Lemma replay_app (cs1 cs2 : list HostCall) (es : gmap ElementId Element) :
  replay (cs1 ++ cs2) es = replay cs2 (replay cs1 es).
Proof. apply foldl_app. Qed.

Lemma replay_quiet (cs : list HostCall) (es : gmap ElementId Element) :
  Forall (λ c, is_Set c = false) cs → replay cs es = es.
Proof.
  intros Hcs. revert es. induction Hcs as [|c cs Hc Hcs IH]; intros es; [done|].
  unfold replay. simpl. fold (replay cs (apply_call es c)). rewrite IH.
  by destruct c.
Qed.

Lemma replay_value (cs : list HostCall) (es : gmap ElementId Element)
    (eid : ElementId) (name : string) :
  (∀ v, Call_Set eid name v ∉ cs) →
  replay cs es !! eid ≫= param_value name = es !! eid ≫= param_value name.
Proof.
  revert es. induction cs as [|c cs IH]; intros es Hno; [done|].
  unfold replay. simpl. fold (replay cs (apply_call es c)).
  rewrite IH by (intros v Hin; apply (Hno v); by right).
  destruct c as [e n v| | | | |]; try done. simpl.
  destruct (decide (e = eid)) as [->|Hne]; [|by rewrite lookup_alter_ne].
  rewrite lookup_alter_eq. destruct (es !! eid) as [x|]; simpl; [|done].
  apply param_value_set_ne. intros ->. apply (Hno v). left.
Qed.

Section PassFacts.

Variable K : Kernel.

Lemma possible_write_quiet (w0 : World) (sel : list ElementId) (cs : list HostCall) :
  Forall (λ c, is_Set c = false) cs → Forall (possible_write K w0 sel) cs.
Proof. intros Hcs. eapply Forall_impl; [exact Hcs|]. by intros []. Qed.

Lemma possible_write_elements (w w' : World) (sel : list ElementId) (c : HostCall) :
  doc_elements (doc w') = doc_elements (doc w) →
  possible_write K w sel c → possible_write K w' sel c.
Proof.
  intros He. destruct c as [e n v| | | | |]; try done.
  unfold possible_write, elem_writable, element_point. by rewrite He.
Qed.

Lemma pass_inv_refl (w0 : World) (sel : list ElementId) : pass_inv K w0 sel w0.
Proof. exists []. by rewrite app_nil_r. Qed.

Lemma pass_inv_add_calls (w0 w : World) (sel : list ElementId) (cs : list HostCall) :
  pass_inv K w0 sel w → Forall (λ c, is_Set c = false) cs →
  pass_inv K w0 sel (add_calls cs w).
Proof.
  intros (cs0 & Hc & He & Hp) Hcs. exists (cs0 ++ cs). simpl. split_and!.
  - by rewrite Hc, app_assoc.
  - by rewrite replay_app, replay_quiet.
  - apply Forall_app. split; [done | by apply possible_write_quiet].
Qed.

Lemma pass_inv_write (w0 w : World) (sel : list ElementId) (e : ElementId)
    (n v : string) :
  pass_inv K w0 sel w → possible_write K w0 sel (Call_Set e n v) →
  pass_inv K w0 sel (write_param e n v w).
Proof.
  intros (cs0 & Hc & He & Hp) Hw. exists (cs0 ++ [Call_Set e n v]). simpl.
  split_and!.
  - by rewrite Hc, app_assoc.
  - rewrite replay_app, He. done.
  - apply Forall_app. split; [done | by constructor].
Qed.

Lemma scan_calls_not_set (ints : list (XYZ * Grid * Grid)) (e : Element) :
  Forall (λ c, is_Set c = false) (scan_calls K ints e).
Proof.
  unfold scan_calls. destruct (location_point K (Location e)); [|constructor].
  apply Forall_fmap, Forall_true. done.
Qed.

Lemma grid_loop_pass (ints : list (XYZ * Grid * Grid)) (sel0 sel : list ElementId)
    (w0 : World) (st : gset ElementId * World) :
  evolves w0 st.2 → pass_inv K w0 sel0 st.2 → (∀ x, x ∈ sel → x ∈ sel0) →
  pass_inv K w0 sel0 (foldl (grid_square_pure K ints) st sel).2.
Proof.
  revert st. induction sel as [|x sel IH]; intros st Hev Hinv Hsub; simpl; [done|].
  apply IH.
  - eapply evolves_trans; [done | apply grid_square_pure_evolves].
  - unfold grid_square_pure.
    destruct (doc_elements (doc st.2) !! x) as [e|] eqn:He; [|done].
    pose proof (pass_inv_add_calls _ _ _ _ Hinv (scan_calls_not_set ints e)) as Hscan.
    destruct (grid_square K ints e) as [label|] eqn:Hgs; [|done].
    destruct (writable "Grid Square" e) eqn:Hw; [|done].
    simpl. apply pass_inv_write; [done|]. simpl. split_and!.
    + apply Hsub. left.
    + by left.
    + rewrite <- (evolves_elem_writable w0 st.2) by done.
      unfold elem_writable. by rewrite He.
    + rewrite <- (evolves_element_point K w0 st.2) by done.
      unfold element_point. rewrite He. simpl. unfold grid_square in Hgs.
      destruct (location_point K (Location e)); [by eexists | done].
  - intros y Hy. apply Hsub. by right.
Qed.

Lemma number_loop_pass (l : list (ElementId * Q)) (sel0 : list ElementId)
    (w0 : World) (st : nat * gset ElementId * World) :
  evolves w0 st.2 → pass_inv K w0 sel0 st.2 →
  (∀ x, x ∈ l → x.1 ∈ sel0 ∧ is_Some (element_point K w0 x.1)) →
  pass_inv K w0 sel0 (foldl number_pure st l).2.
Proof.
  revert st. induction l as [|x l IH]; intros st Hev Hinv Hl; simpl; [done|].
  apply IH.
  - eapply evolves_trans; [done | apply number_pure_evolves].
  - unfold number_pure. destruct (elem_writable st.2 "Number" x.1) eqn:Hw; [|done].
    simpl. apply pass_inv_write; [done|]. simpl.
    destruct (Hl x) as [Hin Hpt]; [left|]. split_and!; [done | by right | | done].
    by rewrite <- (evolves_elem_writable w0 st.2).
  - intros y Hy. apply Hl. by right.
Qed.

Lemma located_point (w : World) (sp : XYZ) (sel : list ElementId)
    (x : ElementId * Q) :
  x ∈ located K w sp sel →
  ∃ pt, element_point K w x.1 = Some pt ∧ x.2 = DistanceTo K pt sp.
Proof.
  unfold located. rewrite list_elem_of_omap. intros (eid & Hin & Hx).
  destruct (element_point K w eid) as [pt|] eqn:Hpt; simpl in Hx; [|done].
  injection Hx as <-. simpl. eauto.
Qed.

Lemma assign_pass (sel : list ElementId) (sp : XYZ)
    (ints : list (XYZ * Grid * Grid)) (w : World) :
  active w = None → valid_ids sel w →
  ∃ m w3,
    assign K sel sp ints w = Done m (commit_world assign_name w3) ∧
    evolves (start_world assign_name w) w3 ∧
    pass_inv K (start_world assign_name w) sel w3.
Proof.
  intros Ha Hv.
  pose proof (assign_eq K sel sp ints w Ha Hv) as Heq. simpl in Heq.
  fold assign_name in Heq.
  set (w0 := start_world assign_name w) in *.
  set (st1 := foldl (grid_square_pure K ints) (∅, w0) sel) in *.
  set (w2 := add_calls (distance_calls K st1.2 sp sel) st1.2) in *.
  set (ranked := sort_by_distance (located K st1.2 sp sel)) in *.
  pose proof (grid_loop_evolves K ints sel (∅, w0)) as Hev1. fold st1 in Hev1.
  simpl in Hev1.
  assert (evolves w0 w2) as Hev2
    by (eapply evolves_trans; [done | apply evolves_add_calls]).
  pose proof (number_loop_evolves ranked (1, st1.1, w2)) as Hev3. simpl in Hev3.
  eexists _, _. split; [exact Heq|]. split; [by eapply evolves_trans|].
  apply number_loop_pass; [done | |].
  - apply pass_inv_add_calls.
    + apply (grid_loop_pass ints sel sel w0 (∅, w0));
        [apply evolves_refl | apply pass_inv_refl | done].
    + unfold distance_calls. apply Forall_fmap, Forall_true. done.
  - intros x Hx. unfold ranked in Hx. rewrite sort_by_distance_perm in Hx.
    split; [by eapply located_ids|].
    destruct (located_point _ _ _ _ Hx) as (pt & Hpt & _).
    rewrite <- (evolves_element_point K w0 st1.2) by done. by eexists.
Qed.

Lemma possible_write_shape (w w' : World) (sel : list ElementId) (c : HostCall) :
  (∀ id, option_Forall2 same_shape (doc_elements (doc w) !! id)
                                   (doc_elements (doc w') !! id)) →
  possible_write K w sel c → possible_write K w' sel c.
Proof.
  intros Hs. destruct c as [e n v| | | | |]; try done.
  unfold possible_write, elem_writable, element_point. specialize (Hs e).
  destruct Hs as [x x' Hxx|]; [|done]. simpl.
  rewrite (same_shape_writable n x x' Hxx).
  destruct Hxx as (_ & <- & _). done.
Qed.

Lemma same_shape_all_refl (es : gmap ElementId Element) (id : ElementId) :
  option_Forall2 same_shape (es !! id) (es !! id).
Proof. destruct (es !! id); constructor. apply same_shape_refl. Qed.

(** The run as a whole.  It first brings the world into a state [wb], in
    which the elements have what they had and what the bindings gave them;
    all parameter writes come after that, each is a possible write in [wb],
    and the elements at the end are those of [wb] with these writes
    applied. *)
Lemma run_pass (w : World) :
  active w = None →
  ∃ wb cs0 cs,
    elements_gain (doc_elements (doc w)) (doc_elements (doc wb)) ∧
    calls (run K w).2 = calls w ++ cs0 ++ cs ∧
    Forall (λ c, is_Set c = false) cs0 ∧
    doc_elements (doc (run K w).2) = replay cs (doc_elements (doc wb)) ∧
    Forall (possible_write K wb (Selection (uidoc w))) cs ∧
    ∀ id, option_Forall2 same_shape (doc_elements (doc wb) !! id)
                         (doc_elements (doc (run K w).2) !! id).
Proof.
  intros Ha.
  assert (∀ n w1, setup n w w1 →
            ∃ wb cs0 cs,
              elements_gain (doc_elements (doc w)) (doc_elements (doc wb)) ∧
              calls (close_world w1) = calls w ++ cs0 ++ cs ∧
              Forall (λ c, is_Set c = false) cs0 ∧
              doc_elements (doc (close_world w1)) = replay cs (doc_elements (doc wb)) ∧
              Forall (possible_write K wb (Selection (uidoc w))) cs ∧
              ∀ id, option_Forall2 same_shape (doc_elements (doc wb) !! id)
                                   (doc_elements (doc (close_world w1)) !! id))
    as Hsetup.
  { intros n w1 Hs. assert (active w1 = None) as Ha1 by apply Hs.
    destruct Hs as (He & _ & _ & _ & (cs & Hcs & Hno) & _).
    unfold close_world. rewrite Ha1. exists w1, cs, [].
    split_and!; try done; [by rewrite app_nil_r|]. intros id.
    apply same_shape_all_refl. }
  pose proof (prepare_outcome K w Ha) as Hp. pose proof (main_outcome K w Ha) as Hm.
  unfold run. destruct (prepare K w) as [[[sel sp] ints] w1|w1|? w1].
  - destruct Hp as (-> & _ & Hv & _ & _ & _ & Hs).
    destruct Hm as (m & w2 & Hassign & ->).
    assert (active w1 = None) as Ha1 by apply Hs.
    destruct (assign_pass (Selection (uidoc w)) sp ints w1 Ha1)
      as (m' & w3 & Heq & Hev & cs & Hcs & Hel & Hposs); [by eapply setup_valid|].
    rewrite Hassign in Heq. injection Heq as -> ->.
    pose proof Hs as (He & _ & _ & _ & (cs0 & Hcs0 & Hno) & _).
    assert (active w3 = Some (assign_name, doc w1)) as Ha3 by apply Hev.
    unfold close_world. simpl.
    exists w1, cs0, ([Call_Start assign_name] ++ cs ++ [Call_Commit assign_name]).
    split_and!; try done.
    + rewrite Hcs. simpl. rewrite Hcs0, <- !app_assoc. done.
    + rewrite Hel. simpl.
      change (replay (Call_Start assign_name :: cs ++ [Call_Commit assign_name])
                (doc_elements (doc w1)))
        with (replay (cs ++ [Call_Commit assign_name]) (doc_elements (doc w1))).
      by rewrite replay_app.
    + constructor; [done|]. apply Forall_app. split; [|by repeat constructor].
      eapply Forall_impl; [exact Hposs|]. intros c. apply possible_write_elements.
      done.
    + intros id. destruct Hev as (_ & _ & _ & _ & _ & _ & _ & Hsh & _).
      apply (Hsh id).
  - rewrite Hm. destruct Hp as [Hs _]. simpl. by eapply Hsetup.
  - rewrite Hm. simpl. destruct Hp as [(-> & _)|(Hs & _)].
    + apply (Hsetup 0). by apply setup_refl.
    + by eapply Hsetup.
Qed.

End PassFacts.

Section WriteFacts.

Variable K : Kernel.

(** Every parameter write of a run is a possible write in the world the run
    ends in. *)
Lemma run_writes_possible (w : World) :
  active w = None →
  Forall (possible_write K (run K w).2 (Selection (uidoc w)))
         (new_calls w (run K w).2).
Proof.
  intros Ha.
  destruct (run_pass K w Ha) as (wb & cs0 & cs & _ & Hcs & Hno & _ & Hposs & Hsh).
  unfold new_calls. rewrite Hcs, drop_app_length. apply Forall_app. split.
  - by apply possible_write_quiet.
  - eapply Forall_impl; [exact Hposs|]. intros c. by apply possible_write_shape.
Qed.

(** X9. Every parameter write of a run is on a selected element, on its
    "Grid Square" or "Number" parameter, and the element has a location;
    the parameter is one the element has when the run ends (it had it
    before the run, or a binding of the run gave it), and it is not
    read-only.  The run writes no other parameter, whatever way it ends. *)
Theorem run_writes_only_writable_parameters (w : World) :
  active w = None →
  Forall (possible_write K (run K w).2 (Selection (uidoc w)))
         (new_calls w (run K w).2).
Proof. apply run_writes_possible. Qed.

Lemma gains_param_value (name : string) (e e' : Element) :
  gains e e' →
  param_value name e' = param_value name e
  ∨ (param_value name e = None ∧ param_value name e' = Some "").
Proof.
  intros (_ & _ & extra & Hx & Hall). unfold param_value, LookupParameter.
  rewrite Hx. clear Hx. induction (elem_Parameters e) as [|q l IH]; simpl.
  - induction Hall as [|p ps [_ Hp] _ IHps]; simpl; [by left|].
    destruct (has_param_name name p); simpl; [right; by rewrite Hp | done].
  - destruct (has_param_name name q); [by left | done].
Qed.

(** X10. A run makes no element appear or disappear.  Every element keeps
    its category and its location, and the parameters it had keep their
    names and read-only flags; after them come the parameters the bindings
    of the run gave it, none of them read-only.  The value of a parameter
    can change only if it is the "Grid Square" or "Number" parameter of a
    selected element that has a location, and is not read-only.  Every
    other parameter the element had keeps its value, in particular every
    read-only one, and every other parameter it was given is empty. *)
Theorem other_values_are_kept (w : World) :
  active w = None →
  (∀ id, option_Forall2 (λ e e', ∃ e1, gains e e1 ∧ same_shape e1 e')
           (doc_elements (doc w) !! id)
           (doc_elements (doc (run K w).2) !! id)) ∧
  (∀ eid name,
     ¬ (eid ∈ Selection (uidoc w) ∧ (name = "Grid Square" ∨ name = "Number") ∧
        elem_writable (run K w).2 name eid = true ∧
        is_Some (element_point K (run K w).2 eid)) →
     elem_value (run K w).2 name eid = elem_value w name eid
     ∨ (elem_value w name eid = None ∧
        elem_value (run K w).2 name eid = Some "")).
Proof.
  intros Ha.
  pose proof (run_writes_possible w Ha) as Hfinal.
  destruct (run_pass K w Ha) as (wb & cs0 & cs & He & Hcs & Hno & Hel & _ & Hsh).
  split.
  - intros id. specialize (He id). specialize (Hsh id).
    destruct He as [e e1 Hg|]; inversion Hsh as [e1' e' Hs|]; subst; constructor.
    by exists e1.
  - intros eid name Hnot.
    assert (elem_value (run K w).2 name eid = elem_value wb name eid) as ->.
    { unfold elem_value. rewrite Hel. apply (replay_value cs _ eid name).
      intros v Hin. apply Hnot. rewrite Forall_forall in Hfinal.
      apply (Hfinal (Call_Set eid name v)). unfold new_calls.
      rewrite Hcs, drop_app_length. apply elem_of_app. by right. }
    unfold elem_value. specialize (He eid).
    destruct He as [e e1 Hg|]; simpl; [|by left].
    by apply gains_param_value.
Qed.

Lemma written_ids_possible (w : World) (sel : list ElementId) (cs : list HostCall)
    (e : ElementId) :
  Forall (possible_write K w sel) cs → e ∈ written_ids cs → e ∈ sel.
Proof.
  intros Hposs. unfold written_ids. rewrite elem_of_list_to_set, list_elem_of_omap.
  intros (c & Hc & Hce). rewrite Forall_forall in Hposs. specialize (Hposs c Hc).
  destruct c as [e' n v| | | | |]; try done. injection Hce as ->. apply Hposs.
Qed.

Lemma run_completed (w : World) :
  active w = None → (run K w).1 = Completed →
  ∃ msg w2,
    main K w = Done () (add_alert msg w2) ∧ (run K w).2 = add_alert msg w2 ∧
    (msg = success_message ∨ msg = failure_message).
Proof.
  intros Ha. pose proof (prepare_outcome K w Ha) as Hp.
  pose proof (main_outcome K w Ha) as Hm. unfold run.
  destruct (prepare K w) as [[[sel sp] ints] w1|w1|? w1];
    [|by rewrite Hm|by rewrite Hm].
  destruct Hp as (-> & _ & Hv & _ & _ & _ & Hs).
  destruct Hm as (m & w2 & Hassign & ->). intros _.
  destruct (assign_summary K (Selection (uidoc w)) sp ints w1)
    as (m' & w2' & Heq & Ha2 & _); [apply Hs | by eapply setup_valid|].
  rewrite Hassign in Heq. injection Heq as <- <-.
  eexists _, w2. split; [done|]. split.
  - unfold close_world. simpl. by rewrite Ha2.
  - destruct (bool_decide _); [by left | by right].
Qed.

(** X11. When the ids of the selection are pairwise distinct, a completed
    run reports "Selected elements were successfully numbered." exactly when
    every selected element received at least one parameter write, and "Not
    all elements were numbered." otherwise. *)
Theorem success_means_every_element_was_written (w : World) :
  active w = None → NoDup (Selection (uidoc w)) → (run K w).1 = Completed →
  let w' := (run K w).2 in
  (last (alerts w') = Some success_message
   ∨ last (alerts w') = Some failure_message) ∧
  (last (alerts w') = Some success_message ↔
   ∀ eid, eid ∈ Selection (uidoc w) → eid ∈ written_ids (new_calls w w')).
Proof.
  intros Ha Hnd Hdone w'.
  destruct (run_completed w Ha Hdone) as (msg & w2 & Hmain & Hrun & Hmsg).
  destruct (success_report_iff K w _ Ha Hmain) as (msg' & Hlast & Hiff).
  fold w' in Hrun. rewrite <- Hrun in Hlast, Hiff.
  assert (msg' = msg) as ->.
  { rewrite Hrun in Hlast. simpl in Hlast. rewrite last_snoc in Hlast. congruence. }
  split; [destruct Hmsg as [-> | ->]; [by left | by right]|].
  pose proof (run_writes_possible w Ha) as Hposs. fold w' in Hposs.
  assert (written_ids (new_calls w w') ⊆ list_to_set (Selection (uidoc w))) as Hsub.
  { apply elem_of_subseteq. intros e He. apply elem_of_list_to_set.
    by eapply written_ids_possible. }
  assert (size (list_to_set (Selection (uidoc w)) : gset ElementId)
          = length (Selection (uidoc w))) as Hsize by (by apply size_list_to_set).
  rewrite Hlast. split.
  - intros [= Hs]. apply Hiff in Hs. intros eid Hin.
    assert (written_ids (new_calls w w') = list_to_set (Selection (uidoc w))) as ->.
    { apply set_subseteq_size_eq; [done | lia]. }
    by apply elem_of_list_to_set.
  - intros Hall. f_equal. apply Hiff. rewrite <- Hsize. f_equal.
    apply set_eq. intros e. split; [apply Hsub|].
    intros He%elem_of_list_to_set. by apply Hall.
Qed.

End WriteFacts.

(** X9 on a project on which the script has not run yet: wall 101 has no
    parameter before the run; the run binds the two parameters, which gives
    the wall both, and then writes both. *)
Lemma run_writes_only_writable_parameters_witness :
  (elem_writable Cases.world_bystander "Grid Square" 101%Z = false ∧
   elem_writable Cases.world_bystander "Number" 101%Z = false ∧
   filter is_Set (new_calls Cases.world_bystander
                    (run Example.kernel Cases.world_bystander).2)
   = [Call_Set 101%Z "Grid Square" "A-1"; Call_Set 101%Z "Number" "1"]) ∧
  Forall (possible_write Example.kernel
            (run Example.kernel Cases.world_bystander).2
            (Selection (uidoc Cases.world_bystander)))
         (new_calls Cases.world_bystander
            (run Example.kernel Cases.world_bystander).2).
Proof.
  split; [split_and!; by vm_compute|].
  exact (run_writes_only_writable_parameters Example.kernel Cases.world_bystander
           eq_refl).
Defined.

(** X10 where element 105 has a read-only "Number" parameter and an
    unrelated "Comments" parameter: both keep their values. *)
Lemma other_values_are_kept_witness :
  (∀ id, option_Forall2 (λ e e', ∃ e1, gains e e1 ∧ same_shape e1 e')
           (doc_elements (doc Cases.world_readonly) !! id)
           (doc_elements (doc (run Example.kernel Cases.world_readonly).2) !! id)) ∧
  (∀ eid name,
     ¬ (eid ∈ Selection (uidoc Cases.world_readonly) ∧
        (name = "Grid Square" ∨ name = "Number") ∧
        elem_writable (run Example.kernel Cases.world_readonly).2 name eid = true ∧
        is_Some (element_point Example.kernel
                   (run Example.kernel Cases.world_readonly).2 eid)) →
     elem_value (run Example.kernel Cases.world_readonly).2 name eid
     = elem_value Cases.world_readonly name eid
     ∨ (elem_value Cases.world_readonly name eid = None ∧
        elem_value (run Example.kernel Cases.world_readonly).2 name eid
        = Some "")).
Proof.
  exact (other_values_are_kept Example.kernel Cases.world_readonly eq_refl).
Defined.

(** X11 on the example project. *)
Lemma success_means_every_element_was_written_witness :
  let w' := (run Example.kernel Example.world0).2 in
  (last (alerts w') = Some success_message
   ∨ last (alerts w') = Some failure_message) ∧
  (last (alerts w') = Some success_message ↔
   ∀ eid, eid ∈ Selection (uidoc Example.world0) →
          eid ∈ written_ids (new_calls Example.world0 w')).
Proof.
  apply (success_means_every_element_was_written Example.kernel Example.world0).
  - reflexivity.
  - apply (bool_decide_unpack _). by vm_compute.
  - by vm_compute.
Defined.

(** ** The numbering order *)

Section OrderFacts.

Variable K : Kernel.

(** X12. Among the selected elements that have a location and a writable
    "Number" parameter, the one strictly nearest to the start point receives
    the number "1" (the ids of the selection being pairwise distinct). *)
Theorem nearest_element_is_numbered_first (sel : list ElementId) (sp : XYZ)
    (ints : list (XYZ * Grid * Grid)) (w : World) (r : ElementId) (p : XYZ) :
  active w = None → valid_ids sel w → NoDup sel →
  r ∈ sel → element_point K w r = Some p → elem_writable w "Number" r = true →
  (∀ eid q, eid ∈ sel → eid ≠ r → element_point K w eid = Some q →
            elem_writable w "Number" eid = true →
            (DistanceTo K p sp < DistanceTo K q sp)%Q) →
  ∃ m w', assign K sel sp ints w = Done m w' ∧
          elem_value w' "Number" r = Some "1".
Proof.
  intros Ha Hv Hnd Hr Hp Hw Hnear.
  pose proof (assign_eq K sel sp ints w Ha Hv) as Heq. simpl in Heq.
  set (w0 := start_world "Assign Grid Square and Number" w) in *.
  set (st1 := foldl (grid_square_pure K ints) (∅, w0) sel) in *.
  set (w2 := add_calls (distance_calls K st1.2 sp sel) st1.2) in *.
  pose proof (grid_loop_evolves K ints sel (∅, w0)) as Hev1. fold st1 in Hev1.
  simpl in Hev1.
  assert (evolves w0 w2) as Hev2
    by (eapply evolves_trans; [done | apply evolves_add_calls]).
  assert (located K st1.2 sp sel = located K w sp sel) as Hloc
    by (by rewrite (located_evolves K w0 st1.2)).
  rewrite Hloc in Heq.
  set (ranked := sort_by_distance (located K w sp sel)) in *.
  pose proof (number_loop_spec ranked 1 st1.1 w2) as (_ & _ & _ & _ & Hval).
  rewrite (filter_writable_evolves w0 w2 "Number" ranked Hev2) in Hval.
  change (filter (λ x, elem_writable w0 "Number" x.1 = true) ranked)
    with (numbered K w sp sel) in Hval.
  set (chosen := numbered K w sp sel) in *.
  assert (NoDup ranked.*1) as Hndr.
  { eapply NoDup_Permutation_proper; [apply fmap_Permutation, sort_by_distance_perm|].
    apply (sublist_NoDup _ sel); [done | apply located_fst_sublist]. }
  assert (StronglySorted nearer_or_equal chosen) as Hsorted
    by apply StronglySorted_filter, sort_by_distance_sorted.
  assert (∀ x, x ∈ chosen →
            x.1 ∈ sel ∧ elem_writable w "Number" x.1 = true ∧
            ∃ pt, element_point K w x.1 = Some pt ∧ x.2 = DistanceTo K pt sp)
    as Hchosen.
  { intros x [Hwx Hx]%list_elem_of_filter. unfold ranked in Hx.
    rewrite sort_by_distance_perm in Hx.
    split_and!; [by eapply located_ids | done | by eapply located_point]. }
  assert ((r, DistanceTo K p sp) ∈ chosen) as Hin.
  { apply list_elem_of_filter. split; [done|]. unfold ranked.
    rewrite sort_by_distance_perm. unfold located. apply list_elem_of_omap.
    exists r. split; [done|]. by rewrite Hp. }
  assert (chosen !! 0 = Some (r, DistanceTo K p sp)) as Hhead.
  { destruct chosen as [|h t] eqn:Hch; [by apply elem_of_nil in Hin|]. simpl.
    destruct (Hchosen h) as (Hhsel & Hhw & pt & Hpt & Hd); [left|].
    destruct (decide (h.1 = r)) as [Hhr|Hhr].
    - destruct h as [h1 h2]. simpl in *. subst h1.
      rewrite Hp in Hpt. injection Hpt as <-. by rewrite Hd.
    - exfalso. apply elem_of_cons in Hin as [Hin|Hin];
        [by rewrite <- Hin in Hhr|].
      apply StronglySorted_inv in Hsorted as [_ Hall].
      rewrite Forall_forall in Hall. specialize (Hall _ Hin).
      unfold nearer_or_equal in Hall. simpl in Hall.
      apply (Qlt_not_le _ _ (Hnear h.1 pt Hhsel Hhr Hpt Hhw)). by rewrite <- Hd. }
  eexists _, _. split; [exact Heq|].
  apply (Hval Hndr 0 _ Hhead).
Qed.

End OrderFacts.

(** X12 on the example project: wall 103 stands at the start point. *)
Lemma nearest_element_is_numbered_first_witness :
  ∃ m w',
    assign Example.kernel Example.sel0 (Example.pt 4) Example.ints0 Example.world0
    = Done m w' ∧
    elem_value w' "Number" 103%Z = Some "1".
Proof.
  apply (nearest_element_is_numbered_first Example.kernel Example.sel0
           (Example.pt 4) Example.ints0 Example.world0 103%Z (Example.pt 4)).
  - reflexivity.
  - exact example_valid.
  - apply (bool_decide_unpack _). by vm_compute.
  - apply (bool_decide_unpack _). by vm_compute.
  - reflexivity.
  - reflexivity.
  - intros eid q Hin Hne Hq _.
    apply elem_of_cons in Hin as [->|Hin];
      [injection Hq as <-; by vm_compute|].
    apply elem_of_cons in Hin as [->|Hin];
      [injection Hq as <-; by vm_compute|].
    apply list_elem_of_singleton in Hin. done.
Defined.

(** ** How a run ends *)

Lemma filter_none {A} (P : A → Prop) `{!∀ x, Decision (P x)} (l : list A) :
  (∀ x, x ∈ l → ¬ P x) → filter P l = [].
Proof.
  induction l as [|x l IH]; intros Hno; [done|].
  rewrite filter_cons, decide_False by (apply Hno; left).
  apply IH. intros y Hy. apply Hno. by right.
Qed.

Lemma bind_all_nil {A B} (f : A → list B) (l : list A) :
  (∀ x, f x = []) → l ≫= f = [].
Proof. intros Hf. induction l as [|x l IH]; [done|]. by rewrite bind_cons, Hf, IH. Qed.

Section EndFacts.

Variable K : Kernel.

(** X13. Every way a run can end shows its own alerts and no others.  A
    completed run shows the prompt for the start element and then one of the
    two reports.  A run that exits shows exactly one of: the request to
    select elements (the selection is empty); for one of the two parameters,
    "Failed to create parameter: <name>" followed by a line break and the
    representation of the exception; after the prompt, "No starting element
    selected" (the user picked nothing), "The starting element does not have
    a valid location." (the picked element has no location) or "No grid
    intersections found" (all grids are lines and give no intersection).  An
    exception escapes in two cases only: the selection holds an id of no
    element, and then no alert is shown; or the model has a grid that is not
    a line, and then the prompt is the only alert and the start element has
    a location. *)
Theorem every_ending_has_its_alerts (w : World) :
  active w = None →
  let shown := drop (length (alerts w)) (alerts (run K w).2) in
  match (run K w).1 with
  | Completed =>
      shown = ["Select the starting element for numbering."; success_message] ∨
      shown = ["Select the starting element for numbering."; failure_message]
  | Exit =>
      (shown = ["Please select one or more elements."] ∧ Selection (uidoc w) = []) ∨
      (∃ e, shown = [creation_failed "Grid Square" e]) ∨
      (∃ e, shown = [creation_failed "Number" e]) ∨
      (shown = ["Select the starting element for numbering.";
                "No starting element selected"] ∧
       picked w = None) ∨
      (shown = ["Select the starting element for numbering.";
                "The starting element does not have a valid location."] ∧
       is_Some (picked w) ∧ start_location K w = None) ∨
      (shown = ["Select the starting element for numbering.";
                "No grid intersections found. Ensure the model has both vertical and horizontal grids."] ∧
       is_Some (start_location K w) ∧ curved_grids (doc w) = [] ∧
       intersections_spec K (Grids (doc w)) = [])
  | Error =>
      (shown = [] ∧ ¬ valid_ids (Selection (uidoc w)) w) ∨
      (shown = ["Select the starting element for numbering."] ∧
       is_Some (start_location K w) ∧ curved_grids (doc w) ≠ [])
  end.
Proof.
  intros Ha shown. subst shown.
  destruct (run_stages K w Ha)
    as [[Hsel Hrun]|[(_ & Hnv & Hrun)|(_ & _ & cats & _ & Hrun)]].
  { rewrite Hrun. simpl. left. by rewrite drop_app_length. }
  { rewrite Hrun. simpl. left. by rewrite drop_all. }
  destruct (ensure_text_parameter "Grid Square" (elements cats) w)
    as [[] w1|w1|? w1] eqn:H1; [| |done].
  2:{ rewrite Hrun. simpl.
      destruct (ensure_text_parameter_exit _ _ _ _ Ha H1)
        as (_ & _ & _ & [e Hal] & _).
      rewrite Hal, drop_app_length. right; left. by exists e. }
  pose proof (ensure_text_parameter_outcome "Grid Square" (elements cats) w Ha)
    as Hout1.
  rewrite H1 in Hout1. destruct Hout1 as [Hs1 Hal1].
  assert (active w1 = None) as Ha1 by apply Hs1.
  destruct (ensure_text_parameter "Number" (elements cats) w1)
    as [[] w2|w2|? w2] eqn:H2; [| |done].
  2:{ rewrite Hrun. simpl.
      destruct (ensure_text_parameter_exit _ _ _ _ Ha1 H2)
        as (_ & _ & _ & [e Hal] & _).
      rewrite Hal, Hal1, drop_app_length. right; right; left. by exists e. }
  pose proof (ensure_text_parameter_outcome "Number" (elements cats) w1 Ha1)
    as Hout2.
  rewrite H2 in Hout2. destruct Hout2 as [Hs2 Hal2].
  unfold guards_after_setup in Hrun. unfold start_location.
  destruct (picked w) as [r|] eqn:Hpick.
  2:{ rewrite Hrun. simpl. rewrite Hal2, Hal1, <- app_assoc, drop_app_length.
      by right; right; right; left. }
  simpl. destruct (element_point K w r) as [sp|] eqn:Hsp.
  2:{ rewrite Hrun. simpl. rewrite Hal2, Hal1, <- app_assoc, drop_app_length.
      right; right; right; right; left. by split_and!. }
  destruct (bool_decide (curved_grids (doc w) = [])) eqn:Hcurved.
  2:{ apply bool_decide_eq_false in Hcurved.
      rewrite Hrun. simpl. rewrite Hal2, Hal1, drop_app_length.
      right. by split_and!. }
  apply bool_decide_eq_true in Hcurved.
  destruct (bool_decide (intersections_spec K (Grids (doc w)) = [])) eqn:Hints.
  { apply bool_decide_eq_true in Hints.
    rewrite Hrun. simpl. rewrite Hal2, Hal1, <- app_assoc, drop_app_length.
    right; right; right; right; right. by split_and!. }
  destruct Hrun as (m & w5 & Hassign & Ha4 & Hv4 & ->). simpl.
  destruct (assign_summary K _ sp (intersections_spec K (Grids (doc w))) _ Ha4 Hv4)
    as (m' & w5' & Heq & _ & _ & Hal5 & _).
  rewrite Hassign in Heq. injection Heq as <- <-.
  rewrite Hal5. simpl. rewrite Hal2, Hal1, <- !app_assoc, drop_app_length. simpl.
  destruct (bool_decide (size m = length (Selection (uidoc w))));
    [by left | by right].
Qed.

(** X14. When all straight grids of the model run the same way (all are
    classed horizontal, or none is), the script finds no intersection
    without asking the host for any, shows "No grid intersections found" and
    exits, unless the model also has a grid that is not a line, on which the
    classification raises: either way such a run never completes. *)
Theorem grids_of_one_direction_are_not_enough (w : World) :
  active w = None →
  (∀ g, g ∈ Grids (doc w) → is_horizontal g = true)
  ∨ (∀ g, g ∈ Grids (doc w) → is_horizontal g = false) →
  collect_intersections K w
  = (if bool_decide (curved_grids (doc w) = [])
     then Exited (add_alert "No grid intersections found. Ensure the model has both vertical and horizontal grids." w)
     else Raised AttributeError w) ∧
  (run K w).1 ≠ Completed.
Proof.
  intros Ha Hdir.
  assert (intersections_spec K (Grids (doc w)) = []
          ∧ asked_intersections (Grids (doc w)) = []) as [Hints Hasked].
  { unfold intersections_spec, asked_intersections.
    destruct Hdir as [Hall|Hnone].
    - rewrite (filter_none (λ g, is_horizontal g = false)); [done|].
      intros g Hg. by rewrite (Hall g Hg).
    - rewrite (filter_none (λ g, is_horizontal g = true)).
      + split; by apply bind_all_nil.
      + intros g Hg. by rewrite (Hnone g Hg). }
  split.
  - rewrite collect_intersections_eq. simpl. rewrite Hints, Hasked.
    rewrite (bool_decide_eq_true_2 ([] = [])) by done. by rewrite add_calls_nil.
  - pose proof (prepare_outcome K w Ha) as Hp.
    pose proof (main_outcome K w Ha) as Hm. unfold run.
    destruct (prepare K w) as [[[sel sp] ints] w1|w1|? w1].
    + by destruct Hp as (_ & _ & _ & _ & -> & Hne & _).
    + by rewrite Hm.
    + by rewrite Hm.
Qed.

End EndFacts.

(** X13 where the user clicks outside the selection and then gives up. *)
Lemma every_ending_has_its_alerts_witness :
  let shown := drop (length (alerts Example.world_cancel))
                    (alerts (run Example.kernel Example.world_cancel).2) in
  match (run Example.kernel Example.world_cancel).1 with
  | Completed =>
      shown = ["Select the starting element for numbering."; success_message] ∨
      shown = ["Select the starting element for numbering."; failure_message]
  | Exit =>
      (shown = ["Please select one or more elements."]
       ∧ Selection (uidoc Example.world_cancel) = []) ∨
      (∃ e, shown = [creation_failed "Grid Square" e]) ∨
      (∃ e, shown = [creation_failed "Number" e]) ∨
      (shown = ["Select the starting element for numbering.";
                "No starting element selected"] ∧
       picked Example.world_cancel = None) ∨
      (shown = ["Select the starting element for numbering.";
                "The starting element does not have a valid location."] ∧
       is_Some (picked Example.world_cancel) ∧
       start_location Example.kernel Example.world_cancel = None) ∨
      (shown = ["Select the starting element for numbering.";
                "No grid intersections found. Ensure the model has both vertical and horizontal grids."] ∧
       is_Some (start_location Example.kernel Example.world_cancel) ∧
       curved_grids (doc Example.world_cancel) = [] ∧
       intersections_spec Example.kernel (Grids (doc Example.world_cancel)) = [])
  | Error =>
      (shown = [] ∧ ¬ valid_ids (Selection (uidoc Example.world_cancel))
                              Example.world_cancel) ∨
      (shown = ["Select the starting element for numbering."] ∧
       is_Some (start_location Example.kernel Example.world_cancel) ∧
       curved_grids (doc Example.world_cancel) ≠ [])
  end.
Proof.
  exact (every_ending_has_its_alerts Example.kernel Example.world_cancel eq_refl).
Defined.

(** X14 on a project whose two grids run the same way. *)
Lemma grids_of_one_direction_are_not_enough_witness :
  collect_intersections Example.kernel Cases.world_parallel
  = (if bool_decide (curved_grids (doc Cases.world_parallel) = [])
     then Exited (add_alert "No grid intersections found. Ensure the model has both vertical and horizontal grids." Cases.world_parallel)
     else Raised AttributeError Cases.world_parallel) ∧
  (run Example.kernel Cases.world_parallel).1 ≠ Completed.
Proof.
  apply (grids_of_one_direction_are_not_enough Example.kernel Cases.world_parallel).
  - reflexivity.
  - right. intros g Hg.
    apply elem_of_cons in Hg as [->|Hg]; [reflexivity|].
    apply list_elem_of_singleton in Hg as ->. reflexivity.
Defined.

(** ** The sort *)

Lemma same_distance_refl (q : Q) : Qeq_bool q q = true.
Proof. apply Qeq_bool_iff. reflexivity. Qed.

Lemma sorted_stable_unique (l1 l2 : list (ElementId * Q)) :
  StronglySorted nearer_or_equal l1 → StronglySorted nearer_or_equal l2 →
  (∀ q, filter (λ y, Qeq_bool y.2 q = true) l1
        = filter (λ y, Qeq_bool y.2 q = true) l2) →
  l1 = l2.
Proof.
  intros H1. revert l2. induction H1 as [|x t1 Ht1 IH Hx]; intros l2 H2 Hf.
  - destruct l2 as [|y t2]; [done|]. specialize (Hf y.2).
    rewrite filter_cons, decide_True in Hf by apply same_distance_refl. done.
  - destruct H2 as [|y t2 Ht2 Hy].
    { specialize (Hf x.2).
      rewrite filter_cons, decide_True in Hf by apply same_distance_refl. done. }
    assert (x = y) as <-.
    { destruct (Qeq_bool x.2 y.2) eqn:Hxy.
      - specialize (Hf x.2). rewrite !filter_cons in Hf.
        rewrite decide_True in Hf by apply same_distance_refl.
        rewrite decide_True in Hf.
        + by injection Hf.
        + apply Qeq_bool_iff. symmetry. by apply Qeq_bool_iff.
      - exfalso.
        assert (x ∈ t2) as Hxt.
        { pose proof (Hf x.2) as Hfx. rewrite !filter_cons in Hfx.
          rewrite decide_True in Hfx by apply same_distance_refl.
          rewrite decide_False in Hfx.
          - assert (x ∈ filter (λ y0, Qeq_bool y0.2 x.2 = true) t2) as Hin
              by (rewrite <- Hfx; left).
            by apply list_elem_of_filter in Hin as [_ Hin].
          - intros Hyx. apply Qeq_bool_iff in Hyx.
            assert (Qeq_bool x.2 y.2 = true) as Hc
              by (apply Qeq_bool_iff; by symmetry).
            congruence. }
        assert (y ∈ t1) as Hyt.
        { pose proof (Hf y.2) as Hfy. rewrite !filter_cons in Hfy.
          rewrite (decide_True (P := Qeq_bool y.2 y.2 = true)) in Hfy
            by apply same_distance_refl.
          rewrite decide_False in Hfy by congruence.
          assert (y ∈ filter (λ y0, Qeq_bool y0.2 y.2 = true) t1) as Hin
            by (rewrite Hfy; left).
          by apply list_elem_of_filter in Hin as [_ Hin]. }
        rewrite Forall_forall in Hx, Hy.
        pose proof (Hx y Hyt) as Hle1. pose proof (Hy x Hxt) as Hle2.
        unfold nearer_or_equal in Hle1, Hle2.
        assert (Qeq_bool x.2 y.2 = true) as Hc
          by (apply Qeq_bool_iff; by apply Qle_antisym).
        congruence. }
    f_equal. apply IH; [done|]. intros q. specialize (Hf q).
    rewrite !filter_cons in Hf.
    destruct (decide (Qeq_bool x.2 q = true)); [by injection Hf | done].
Qed.

(** X15. The order in which the located elements are numbered is fully
    determined by their distances and their order in the selection: any
    arrangement that is ascending by distance and keeps elements of equal
    distance in their original order is the one the script's sort produces. *)
Theorem sort_by_distance_unique (l l' : list (ElementId * Q)) :
  StronglySorted nearer_or_equal l' →
  (∀ q, filter (λ y, Qeq_bool y.2 q = true) l'
        = filter (λ y, Qeq_bool y.2 q = true) l) →
  l' = sort_by_distance l.
Proof.
  intros Hsorted Hstable. apply sorted_stable_unique.
  - done.
  - apply sort_by_distance_sorted.
  - intros q. by rewrite sort_by_distance_stable.
Qed.

(** X15 for two elements at the same distance and a nearer one behind
    them. *)
Lemma sort_by_distance_unique_witness :
  [(3%Z, 1%Q); (1%Z, 2%Q); (2%Z, 2%Q)]
  = sort_by_distance [(1%Z, 2%Q); (2%Z, 2%Q); (3%Z, 1%Q)].
Proof.
  apply (sort_by_distance_unique [(1%Z, 2%Q); (2%Z, 2%Q); (3%Z, 1%Q)]
           [(3%Z, 1%Q); (1%Z, 2%Q); (2%Z, 2%Q)]).
  - repeat constructor; by vm_compute.
  - intros q. rewrite !filter_cons, !filter_nil. simpl.
    destruct (decide (Qeq_bool 1 q = true)) as [H1|H1];
      destruct (decide (Qeq_bool 2 q = true)) as [H2|H2]; try done.
    exfalso. apply Qeq_bool_iff in H1. apply Qeq_bool_iff in H2.
    rewrite <- H2 in H1. by vm_compute in H1.
Defined.

(** ** The closing report *)

Lemma size_eq_all (l : list ElementId) (X : gset ElementId) :
  NoDup l → (∀ x, x ∈ X → x ∈ l) →
  size X = length l ↔ ∀ x, x ∈ l → x ∈ X.
Proof.
  intros Hnd Hsub.
  assert (size (list_to_set l : gset ElementId) = length l) as Hsize
    by (by apply size_list_to_set).
  assert (X ⊆ list_to_set l) as Hsub'.
  { apply elem_of_subseteq. intros x Hx. by apply elem_of_list_to_set, Hsub. }
  split.
  - intros Hs x Hx.
    assert (X = list_to_set l) as -> by (apply set_subseteq_size_eq; [done | lia]).
    by apply elem_of_list_to_set.
  - intros Hall. rewrite <- Hsize. f_equal. apply set_eq. intros x.
    split; [apply Hsub'|]. intros Hx%elem_of_list_to_set. by apply Hall.
Qed.

Section ReportFacts.

Variable K : Kernel.

Lemma grid_square_some (ints : list (XYZ * Grid * Grid)) (e : Element) :
  ints ≠ [] →
  is_Some (grid_square K ints e) ↔ is_Some (location_point K (Location e)).
Proof.
  intros Hne. unfold grid_square.
  destruct (location_point K (Location e)) as [pt|]; simpl.
  - destruct (closest_of_first_nearest K pt ints Hne) as (i & x & _ & ->). simpl.
    split; eauto.
  - split; by intros [? ?].
Qed.

Lemma grid_loop_members (ints : list (XYZ * Grid * Grid)) (sel : list ElementId)
    (w0 : World) (st : gset ElementId * World) (eid : ElementId) :
  ints ≠ [] → evolves w0 st.2 →
  eid ∈ (foldl (grid_square_pure K ints) st sel).1 ↔
  eid ∈ st.1 ∨ (eid ∈ sel ∧ is_Some (element_point K w0 eid) ∧
                elem_writable w0 "Grid Square" eid = true).
Proof.
  intros Hne. revert st. induction sel as [|x sel IH]; intros st Hev; simpl.
  - split; [by left|]. by intros [|[Hin%elem_of_nil _]].
  - rewrite IH by (eapply evolves_trans; [done | apply grid_square_pure_evolves]).
    assert (eid ∈ (grid_square_pure K ints st x).1 ↔
            eid ∈ st.1 ∨ (eid = x ∧ is_Some (element_point K w0 x) ∧
                          elem_writable w0 "Grid Square" x = true)) as ->.
    { rewrite <- (evolves_element_point K w0 st.2),
        <- (evolves_elem_writable w0 st.2) by done.
      unfold grid_square_pure, element_point, elem_writable.
      destruct (doc_elements (doc st.2) !! x) as [e|]; simpl.
      - pose proof (grid_square_some ints e Hne) as Hgs.
        destruct (grid_square K ints e) as [label|]; simpl.
        + destruct (writable "Grid Square" e); simpl.
          * rewrite elem_of_union, elem_of_singleton. split.
            -- intros [Hin| ->]; [by left|]. right.
               split_and!; [done | by apply Hgs | done].
            -- intros [Hin|(-> & _)]; [by left | by right].
          * split; [by left|]. by intros [Hin|(_ & _ & ?)].
        + split; [by left|]. intros [Hin|(_ & Hl & _)]; [done|].
          apply Hgs in Hl. by destruct Hl.
      - split; [by left|]. by intros [Hin|(_ & [? ?] & _)]. }
    rewrite elem_of_cons. naive_solver.
Qed.

Lemma numbered_members (w : World) (sp : XYZ) (sel : list ElementId)
    (eid : ElementId) :
  eid ∈ (numbered K w sp sel).*1 ↔
  eid ∈ sel ∧ is_Some (element_point K w eid) ∧ elem_writable w "Number" eid = true.
Proof.
  unfold numbered. rewrite list_elem_of_fmap. split.
  - intros (x & -> & [Hw Hx]%list_elem_of_filter).
    rewrite sort_by_distance_perm in Hx.
    destruct (located_point K _ _ _ _ Hx) as (pt & Hpt & _).
    split_and!; [by eapply located_ids | by eexists | done].
  - intros (Hin & [pt Hpt] & Hw). exists (eid, DistanceTo K pt sp).
    split; [done|]. apply list_elem_of_filter. split; [done|].
    rewrite sort_by_distance_perm. unfold located. apply list_elem_of_omap.
    exists eid. split; [done|]. by rewrite Hpt.
Qed.

(** The elements the pass counts as modified. *)
Lemma assign_modified (sel : list ElementId) (sp : XYZ)
    (ints : list (XYZ * Grid * Grid)) (w : World) :
  active w = None → valid_ids sel w → ints ≠ [] →
  ∃ m w',
    assign K sel sp ints w = Done m w' ∧
    ∀ eid, eid ∈ m ↔
           eid ∈ sel ∧ is_Some (element_point K w eid) ∧
           (elem_writable w "Grid Square" eid = true
            ∨ elem_writable w "Number" eid = true).
Proof.
  intros Ha Hv Hne.
  pose proof (assign_eq K sel sp ints w Ha Hv) as Heq. simpl in Heq.
  set (w0 := start_world "Assign Grid Square and Number" w) in *.
  set (st1 := foldl (grid_square_pure K ints) (∅, w0) sel) in *.
  set (w2 := add_calls (distance_calls K st1.2 sp sel) st1.2) in *.
  pose proof (grid_loop_evolves K ints sel (∅, w0)) as Hev1. fold st1 in Hev1.
  simpl in Hev1.
  assert (evolves w0 w2) as Hev2
    by (eapply evolves_trans; [done | apply evolves_add_calls]).
  assert (located K st1.2 sp sel = located K w sp sel) as Hloc
    by (by rewrite (located_evolves K w0 st1.2)).
  rewrite Hloc in Heq.
  set (ranked := sort_by_distance (located K w sp sel)) in *.
  pose proof (number_loop_spec ranked 1 st1.1 w2) as (_ & _ & Hm & _).
  rewrite (filter_writable_evolves w0 w2 "Number" ranked Hev2) in Hm.
  change (filter (λ x, elem_writable w0 "Number" x.1 = true) ranked)
    with (numbered K w sp sel) in Hm.
  eexists _, _. split; [exact Heq|]. intros eid. rewrite Hm.
  rewrite elem_of_union, elem_of_list_to_set, numbered_members.
  unfold st1. rewrite (grid_loop_members ints sel w0 (∅, w0) eid Hne)
    by apply evolves_refl.
  change (element_point K w0 eid) with (element_point K w eid).
  change (elem_writable w0 "Grid Square" eid)
    with (elem_writable w "Grid Square" eid).
  simpl. rewrite elem_of_empty. naive_solver.
Qed.

(** X16. Which report a completed run shows is decided by the selected
    elements alone (their ids being pairwise distinct): it is "Selected
    elements were successfully numbered." exactly when every selected
    element has a location and, with the parameters it has when the run
    ends (its own and those the bindings of the run gave it), a "Grid
    Square" or a "Number" parameter that is not read-only.  One selected
    element without a location, or with neither parameter writable, gives
    "Not all elements were numbered.". *)
Theorem report_is_decided_by_the_selection (w : World) :
  active w = None → NoDup (Selection (uidoc w)) → (run K w).1 = Completed →
  (last (alerts (run K w).2) = Some success_message ↔
   ∀ eid, eid ∈ Selection (uidoc w) →
          is_Some (element_point K w eid) ∧
          (elem_writable (run K w).2 "Grid Square" eid = true
           ∨ elem_writable (run K w).2 "Number" eid = true)) ∧
  (last (alerts (run K w).2) = Some success_message
   ∨ last (alerts (run K w).2) = Some failure_message).
Proof.
  intros Ha Hnd. pose proof (prepare_outcome K w Ha) as Hp.
  pose proof (main_outcome K w Ha) as Hm. unfold run.
  destruct (prepare K w) as [[[sel sp] ints] w1|w1|? w1];
    [|by rewrite Hm|by rewrite Hm].
  destruct Hp as (-> & _ & Hv & _ & _ & Hne & Hs).
  destruct Hm as (m & w2 & Hassign & ->). intros _. simpl.
  assert (active w1 = None) as Ha1 by apply Hs.
  assert (valid_ids (Selection (uidoc w)) w1) as Hv1 by (by eapply setup_valid).
  destruct (assign_modified (Selection (uidoc w)) sp ints w1 Ha1 Hv1 Hne)
    as (m' & w2' & Heq & Hmem).
  rewrite Hassign in Heq. injection Heq as <- <-.
  destruct (assign_evolves K (Selection (uidoc w)) sp ints w1 Ha1 Hv1)
    as (m' & w3 & Heq & Hev).
  rewrite Hassign in Heq. injection Heq as <- ->.
  assert (∀ msg, close_world (add_alert msg (commit_world assign_name w3))
                 = add_alert msg (commit_world assign_name w3)) as Hclose by done.
  rewrite Hclose. simpl. rewrite last_snoc.
  assert (∀ msg name eid,
            elem_writable (add_alert msg (commit_world assign_name w3)) name eid
            = elem_writable w1 name eid) as Hsame.
  { intros msg name eid.
    change (elem_writable w3 name eid
            = elem_writable (start_world assign_name w1) name eid).
    by apply evolves_elem_writable. }
  setoid_rewrite Hsame.
  assert (size m = length (Selection (uidoc w)) ↔
          ∀ eid, eid ∈ Selection (uidoc w) →
                 is_Some (element_point K w eid) ∧
                 (elem_writable w1 "Grid Square" eid = true
                  ∨ elem_writable w1 "Number" eid = true)) as Hiff.
  { rewrite size_eq_all; [|done|intros x Hx; by apply Hmem].
    split; intros Hall eid Hin.
    - specialize (Hall eid Hin). apply Hmem in Hall as (_ & Hpt & Hw).
      by rewrite <- (setup_element_point K 2 w w1 eid Hs).
    - apply Hmem. destruct (Hall eid Hin) as [Hpt Hw].
      split; [done|]. by rewrite (setup_element_point K 2 w w1 eid Hs). }
  rewrite <- Hiff. case_bool_decide as Hsize.
  - split; [by split | by left].
  - split; [|by right]. split; [intros Hmsg; by vm_compute in Hmsg | done].
Qed.

End ReportFacts.

(** X16 where the "Number" parameter of element 102 is read-only: the
    report is still the success report. *)
Lemma report_is_decided_by_the_selection_witness :
  (last (alerts (run Example.kernel Example.world_partial).2)
   = Some success_message ↔
   ∀ eid, eid ∈ Selection (uidoc Example.world_partial) →
          is_Some (element_point Example.kernel Example.world_partial eid) ∧
          (elem_writable (run Example.kernel Example.world_partial).2
             "Grid Square" eid = true
           ∨ elem_writable (run Example.kernel Example.world_partial).2
               "Number" eid = true)) ∧
  (last (alerts (run Example.kernel Example.world_partial).2)
   = Some success_message
   ∨ last (alerts (run Example.kernel Example.world_partial).2)
     = Some failure_message).
Proof.
  apply (report_is_decided_by_the_selection Example.kernel Example.world_partial).
  - reflexivity.
  - apply (bool_decide_unpack _). by vm_compute.
  - by vm_compute.
Defined.

(** ** Running on a project that is already set up *)

Lemma ensure_noop (name : string) (categories : list Category) (w : World)
    (d : ParamDefinition) (b : Binding) (g : BuiltInParameterGroup) :
  find (λ e, has_def_name name e.1) (ParameterBindings (doc w)) = Some (d, (b, g)) →
  build_cat_set categories ⊆ Categories b →
  ensure_text_parameter name categories w = Done () w.
Proof.
  intros Hfind Hsub. unfold ensure_text_parameter. rewrite bind_unfold. simpl.
  rewrite Hfind. unfold update_binding.
  rewrite bool_decide_eq_false_2; [done|]. rewrite missing_size. tauto.
Qed.

Section RerunFacts.

Variable K : Kernel.

(** X17. On a project where "Grid Square" and "Number" are already bound
    to every category of the selection that allows bound parameters, a run
    leaves the parameter bindings and the application (its shared parameter
    file setting and the files) exactly as they are, and finishes no
    transaction but the assignment transaction of a completed run. *)
Theorem rerun_leaves_bindings_alone (w : World) :
  active w = None →
  is_Some (find (λ e, has_def_name "Grid Square" e.1) (ParameterBindings (doc w))) →
  is_Some (find (λ e, has_def_name "Number" e.1) (ParameterBindings (doc w))) →
  (∀ c, selected_category w c → AllowsBoundParameters c = true →
        bound_to w "Grid Square" c ∧ bound_to w "Number" c) →
  ParameterBindings (doc (run K w).2) = ParameterBindings (doc w) ∧
  app (run K w).2 = app w ∧
  transactions (run K w).2
  = transactions w ++ match (run K w).1 with
                      | Completed => [(assign_name, Committed)]
                      | _ => []
                      end.
Proof.
  intros Ha [[d1 [b1 g1]] Hf1] [[d2 [b2 g2]] Hf2] Hbound.
  destruct (run_stages K w Ha)
    as [[_ Hrun]|[(_ & _ & Hrun)|(_ & _ & cats & Hcats & Hrun)]].
  { rewrite Hrun. simpl. by rewrite app_nil_r. }
  { rewrite Hrun. simpl. by rewrite app_nil_r. }
  assert (build_cat_set (elements cats) ⊆ Categories b1
          ∧ build_cat_set (elements cats) ⊆ Categories b2) as [Hsub1 Hsub2].
  { split; apply elem_of_subseteq; intros c [Hc Hallow]%elem_of_build_cat_set;
      apply elem_of_elements, Hcats in Hc;
      destruct (Hbound c Hc Hallow)
        as [(d & b & g & Hf & Hin) (d' & b' & g' & Hf' & Hin')]; congruence. }
  rewrite (ensure_noop _ _ _ _ _ _ Hf1 Hsub1) in Hrun.
  rewrite (ensure_noop _ _ _ _ _ _ Hf2 Hsub2) in Hrun.
  unfold guards_after_setup in Hrun.
  destruct (picked w) as [r|].
  2:{ rewrite Hrun. simpl. by rewrite app_nil_r. }
  destruct (element_point K w r) as [sp|].
  2:{ rewrite Hrun. simpl. by rewrite app_nil_r. }
  destruct (bool_decide (curved_grids (doc w) = [])).
  2:{ rewrite Hrun. simpl. by rewrite app_nil_r. }
  destruct (bool_decide (intersections_spec K (Grids (doc w)) = [])).
  { rewrite Hrun. simpl. by rewrite app_nil_r. }
  destruct Hrun as (m & w5 & Hassign & Ha4 & Hv4 & ->).
  destruct (assign_evolves K _ sp (intersections_spec K (Grids (doc w))) _ Ha4 Hv4)
    as (m' & w3 & Heq & Hev).
  rewrite Hassign in Heq. injection Heq as -> ->.
  destruct Hev as (_ & Ht & _ & Hap & _ & Hb & _). simpl in *.
  by rewrite Hb, Hap, Ht.
Qed.

End RerunFacts.

(** X17 on the example project with both parameters bound to walls. *)
Lemma rerun_leaves_bindings_alone_witness :
  ParameterBindings (doc (run Example.kernel Cases.world_bound).2)
  = ParameterBindings (doc Cases.world_bound) ∧
  app (run Example.kernel Cases.world_bound).2 = app Cases.world_bound ∧
  transactions (run Example.kernel Cases.world_bound).2
  = transactions Cases.world_bound
      ++ match (run Example.kernel Cases.world_bound).1 with
         | Completed => [(assign_name, Committed)]
         | _ => []
         end.
Proof.
  apply (rerun_leaves_bindings_alone Example.kernel Cases.world_bound).
  - reflexivity.
  - by eexists.
  - by eexists.
  - intros c (eid & e & Hin & He & Hc) _.
    assert (c = Example.walls) as ->.
    { apply elem_of_cons in Hin as [->|Hin];
        [vm_compute in He; injection He as <-; by injection Hc|].
      apply elem_of_cons in Hin as [->|Hin];
        [vm_compute in He; injection He as <-; by injection Hc|].
      apply list_elem_of_singleton in Hin as ->.
      vm_compute in He. injection He as <-. by injection Hc. }
    split; eexists _, _, _; (split; [reflexivity|]); simpl; set_solver.
Defined.

(** ** Elements outside the selection *)

Section FrameFacts.

Variable K : Kernel.

(** X18. Whatever way a run ends, no parameter of an element outside the
    selection has been written, and such an element still is what it was:
    same category, same location, the parameters it had, in their order and
    with their values.  The only change it can show is new parameters after
    those, empty and not read-only, which the bindings of the run gave it. *)
Theorem run_leaves_other_elements_alone (w : World) (eid : ElementId) :
  active w = None → eid ∉ Selection (uidoc w) →
  option_Forall2 gains (doc_elements (doc w) !! eid)
                       (doc_elements (doc (run K w).2) !! eid) ∧
  (∀ name v, elem_value w name eid = Some v →
             elem_value (run K w).2 name eid = Some v) ∧
  ∀ name value, Call_Set eid name value ∉ new_calls w (run K w).2.
Proof.
  intros Ha Hout.
  pose proof (run_touches_selection_only K w eid Ha Hout) as Hg.
  split_and!; [done | |].
  - intros name v. unfold elem_value.
    destruct Hg as [e e' Hg|]; simpl; [|done]. unfold param_value.
    destruct (LookupParameter name e) as [p|] eqn:Hp; simpl; [|done].
    by rewrite (gains_lookup name e e' p Hg Hp).
  - intros name value Hin. apply Hout.
    pose proof (run_writes_possible K w Ha) as Hposs.
    rewrite Forall_forall in Hposs. apply (Hposs _ Hin).
Qed.

End FrameFacts.

(** X18 where wall 106 is not selected and has no parameter before the
    run: the run gives it the two parameters, empty, and writes neither. *)
Lemma run_leaves_other_elements_alone_witness :
  (doc_elements (doc Cases.world_bystander) !! 106%Z
   = Some (mkElement (Some Example.walls)
             (Some (LocationPoint (Example.pt 6))) []) ∧
   doc_elements (doc (run Example.kernel Cases.world_bystander).2) !! 106%Z
   = Some (mkElement (Some Example.walls)
             (Some (LocationPoint (Example.pt 6)))
             [Example.blank "Grid Square"; Example.blank "Number"])) ∧
  option_Forall2 gains
    (doc_elements (doc Cases.world_bystander) !! 106%Z)
    (doc_elements (doc (run Example.kernel Cases.world_bystander).2) !! 106%Z) ∧
  (∀ name v,
     elem_value Cases.world_bystander name 106%Z = Some v →
     elem_value (run Example.kernel Cases.world_bystander).2 name 106%Z = Some v) ∧
  ∀ name value,
    Call_Set 106%Z name value
      ∉ new_calls Cases.world_bystander
          (run Example.kernel Cases.world_bystander).2.
Proof.
  split; [split; by vm_compute|].
  apply (run_leaves_other_elements_alone Example.kernel Cases.world_bystander
           106%Z).
  - reflexivity.
  - by apply (bool_decide_unpack _).
Defined.
